(** * Baseline-CLI: feature mapper, dataset index, result classifier

    A shallow embedding of the detection core of the Baseline compatibility
    checker (TypeScript) and the properties its design document states
    about it.

    Sources embedded here, by module:
    - [utils/web-features-mapper]: class [WebFeaturesMapper] and the
      factory [getWebFeaturesMapper];
    - [utils] (index): [getCompatFeaturesIndex], the pattern templates,
      [generatePatterns], [checkBaselineStatus], [findCSSFeature],
      [findHTMLFeature] and the exact-match phase of [findJSFeature];
    - [utils/parsers]: [convertToFeatureResult], [parseCSS], [parseJS],
      [parseHTML], [parseFile];
    - [commands/check]: [parseCheckOptions] (source and compiled copy),
      [applyConfigRules], [applyTargetBaseline] and the file loop of
      [checkCommand.execute];
    - [types]: [BaselineStatus], [FeatureResult], [BaselineConfig], the
      error classes.

    Conventions.  JavaScript strings are modelled as [string] (sequences
    of 8-bit characters); [toLowerCase], [toUpperCase], [\w] and [\s] are
    the ASCII ones.  A JS [Map] that the code only reads with [get] and
    writes with [set] is a [gmap]; a [Map] whose iteration order the code
    relies on is an association list in insertion order.  A [null] or
    [undefined] result is [None].  The language-server walkers, which
    turn a source text into [DetectedFeature]s, and the file system are
    parameters of the functions that call them. *)

From Stdlib Require Import Ascii String Bool Arith NArith Lia.
From stdpp Require Import base option list strings gmap pretty.


(* ================================================================== *)
(** * JavaScript string primitives *)
(* ================================================================== *)

Module Js.

Definition code (c : ascii) : nat := nat_of_ascii c.

Definition in_range (lo hi : nat) (c : ascii) : bool :=
  Nat.leb lo (code c) && Nat.leb (code c) hi.

Definition is_upper : ascii -> bool := in_range 65 90.
Definition is_lower : ascii -> bool := in_range 97 122.
Definition is_digit : ascii -> bool := in_range 48 57.

(** [\w] : [[A-Za-z0-9_]] *)
Definition is_word (c : ascii) : bool :=
  is_upper c || is_lower c || is_digit c || Ascii.eqb c "_".

(** [\s] : tab, line feed, vertical tab, form feed, carriage return,
    space. *)
Definition is_space (c : ascii) : bool :=
  in_range 9 13 c || Ascii.eqb c " ".

Definition lower_char (c : ascii) : ascii :=
  if is_upper c then ascii_of_nat (code c + 32) else c.

Definition upper_char (c : ascii) : ascii :=
  if is_lower c then ascii_of_nat (code c - 32) else c.

(** [s.toLowerCase()] *)
Fixpoint toLowerCase (s : string) : string :=
  match s with
  | EmptyString => EmptyString
  | String c s' => String (lower_char c) (toLowerCase s')
  end.

(** [s.startsWith(p)] *)
Fixpoint startsWith (s p : string) {struct p} : bool :=
  match p with
  | EmptyString => true
  | String a p' =>
      match s with
      | EmptyString => false
      | String b s' => Ascii.eqb a b && startsWith s' p'
      end
  end.

(** [s.includes(p)] *)
Fixpoint includes (s p : string) {struct s} : bool :=
  startsWith s p ||
  match s with
  | EmptyString => false
  | String _ s' => includes s' p
  end.

(** [s.substring(n)] *)
Fixpoint drop (n : nat) (s : string) : string :=
  match n, s with
  | O, _ => s
  | S _, EmptyString => EmptyString
  | S k, String _ s' => drop k s'
  end.

(** [s.replace(p, '')] with a string pattern [p]: the first occurrence
    of [p] is removed. *)
Fixpoint remove_first (s p : string) {struct s} : string :=
  if startsWith s p then drop (String.length p) s
  else match s with
       | EmptyString => EmptyString
       | String c s' => String c (remove_first s' p)
       end.

(** [s.replace(/_/g, '-')] *)
Fixpoint underscores_to_dashes (s : string) : string :=
  match s with
  | EmptyString => EmptyString
  | String c s' =>
      String (if Ascii.eqb c "_" then "-" else c) (underscores_to_dashes s')
  end.

(** The text before and after the first occurrence of [p] in [s]
    ([None] when [p] does not occur): the first two pieces of
    [s.split(p)], the second still unsplit. *)
Fixpoint cut (s p : string) {struct s} : option (string * string) :=
  if startsWith s p then Some (EmptyString, drop (String.length p) s)
  else match s with
       | EmptyString => None
       | String c s' =>
           match cut s' p with
           | Some (a, b) => Some (String c a, b)
           | None => None
           end
       end.

(** JavaScript truthiness of a string: only [''] is falsy. *)
Definition truthy (s : string) : bool :=
  match s with EmptyString => false | _ => true end.

(** [m.get(k)] followed by a truthiness test, as in
    [const v = m.get(k); if (v) return v;] and in [m.get(k) || null]:
    an absent key and a key bound to [''] both give [None]. *)
Definition get_truthy (m : gmap string string) (k : string) : option string :=
  match m !! k with
  | Some v => if truthy v then Some v else None
  | None => None
  end.

(** [[...new Set(l)]]: the elements of [l] in order of first
    occurrence. *)
Fixpoint set_spread (l : list string) : list string :=
  match l with
  | [] => []
  | x :: l' => x :: filter (fun y => y ≠ x) (set_spread l')
  end.

End Js.

(* ================================================================== *)
(** * Regular expressions *)
(* ================================================================== *)

(** The fragment of regular expressions used by the mapper's patterns,
    with [RegExp.prototype.test] decided by Brzozowski derivatives. *)

Module RegExp.

Inductive t : Type :=
| Void : t                          (* matches nothing *)
| Eps : t                           (* matches the empty string *)
| Cls : (ascii -> bool) -> t        (* one character of a class *)
| Seq : t -> t -> t
| Alt : t -> t -> t
| Star : t -> t.

Definition chr (c : ascii) : t := Cls (Ascii.eqb c).
(** a letter under the [i] flag *)
Definition chr_i (c : ascii) : t :=
  Cls (fun d => Ascii.eqb (Js.lower_char d) (Js.lower_char c)).
Definition plus (r : t) : t := Seq r (Star r).

Fixpoint lit (s : string) : t :=
  match s with
  | EmptyString => Eps
  | String c s' => Seq (chr c) (lit s')
  end.

Fixpoint lit_i (s : string) : t :=
  match s with
  | EmptyString => Eps
  | String c s' => Seq (chr_i c) (lit_i s')
  end.

Fixpoint nullable (r : t) : bool :=
  match r with
  | Void => false
  | Eps => true
  | Cls _ => false
  | Seq a b => nullable a && nullable b
  | Alt a b => nullable a || nullable b
  | Star _ => true
  end.

Fixpoint deriv (c : ascii) (r : t) : t :=
  match r with
  | Void => Void
  | Eps => Void
  | Cls p => if p c then Eps else Void
  | Seq a b =>
      if nullable a then Alt (Seq (deriv c a) b) (deriv c b)
      else Seq (deriv c a) b
  | Alt a b => Alt (deriv c a) (deriv c b)
  | Star a => Seq (deriv c a) (Star a)
  end.

(** some prefix of [s] matches [r] *)
Fixpoint matches_prefix (r : t) (s : string) : bool :=
  nullable r ||
  match s with
  | EmptyString => false
  | String c s' => matches_prefix (deriv c r) s'
  end.

(** [r.test(s)]: some substring of [s] matches [r] *)
Fixpoint test (r : t) (s : string) : bool :=
  matches_prefix r s ||
  match s with
  | EmptyString => false
  | String _ s' => test r s'
  end.

(** The first position of [s] (scanning left to right, the end of the
    string included) at which [f] succeeds: how [String.prototype.match]
    picks the leftmost match. *)
Fixpoint leftmost {A} (f : string -> option A) (s : string) : option A :=
  match f s with
  | Some x => Some x
  | None =>
      match s with
      | EmptyString => None
      | String _ s' => leftmost f s'
      end
  end.

(** the longest prefix of word characters, and the rest *)
Fixpoint span_word (s : string) : string * string :=
  match s with
  | EmptyString => (EmptyString, EmptyString)
  | String c s' =>
      if Js.is_word c
      then let '(w, r) := span_word s' in (String c w, r)
      else (EmptyString, s)
  end.

Fixpoint skip_space (s : string) : string :=
  match s with
  | EmptyString => EmptyString
  | String c s' => if Js.is_space c then skip_space s' else s
  end.

(** After a word character: the rest of the dotted path, taken
    greedily, and what follows it. *)
Fixpoint path_rest (s : string) : string * string :=
  match s with
  | EmptyString => (EmptyString, EmptyString)
  | String c s' =>
      if Js.is_word c
      then let '(p, r) := path_rest s' in (String c p, r)
      else if Ascii.eqb c "."
      then match s' with
           | String d _ =>
               if Js.is_word d
               then let '(p, r) := path_rest s' in (String c p, r)
               else (EmptyString, s)
           | EmptyString => (EmptyString, s)
           end
      else (EmptyString, s)
  end.

(** The pattern of [mapJSMethod], a dotted path of words (capture
    group 1: one or more [\w], then any number of a dot and one or more
    [\w]), optional [\s], and an opening parenthesis, anchored at the
    start of [s]; the result is capture group 1.  What must follow the
    path (white space and a parenthesis) starts with neither a word
    character nor a dot, so giving back part of the greedy path can never
    turn a failure into a match: the greedy reading is the only one. *)
Definition method_call_at (s : string) : option string :=
  match s with
  | String c s' =>
      if Js.is_word c
      then let '(p, r) := path_rest s' in
           match skip_space r with
           | String "(" _ => Some (String c p)
           | _ => None
           end
      else None
  | EmptyString => None
  end.

(** [s.match(...)] with the pattern of [mapJSMethod], group 1 *)
Definition match_method_call (s : string) : option string :=
  leftmost method_call_at s.

(** [/new\s+(\w+)/] anchored at the start of [s]; the result is capture
    group 1 (the whole following word: [\s] and [\w] are disjoint). *)
Definition new_call_at (s : string) : option string :=
  if Js.startsWith s "new"
  then match Js.drop 3 s with
       | String c r =>
           if Js.is_space c
           then match span_word (skip_space r) with
                | (EmptyString, _) => None
                | (w, _) => Some w
                end
           else None
       | EmptyString => None
       end
  else None.

(** [s.match(/new\s+(\w+)/)], group 1 *)
Definition match_new_call (s : string) : option string :=
  leftmost new_call_at s.

End RegExp.


(* ================================================================== *)
(** * The feature dataset ([web-features]) *)
(* ================================================================== *)

(** [BaselineStatus = 'high' | 'low' | false] *)
Inductive BaselineStatus : Type := High | Low | NotBaseline.

(** One entry of [features].  [status = None] stands for an entry without
    a [status] property or whose [status.baseline] is undefined;
    [compat_features = None] for an entry without that property. *)
Record Feature : Type := mkFeature {
  name : option string;
  status : option BaselineStatus;
  compat_features : option (list string)
}.

(** [Object.entries(features)] *)
Abbreviation Dataset := (list (string * Feature)).

(** Console output, in the order it is written. *)
Inductive console_event : Type :=
| ConsoleLog (msg : string)
| ConsoleWarn (msg : string)
| ConsoleError (msg : string).

(** A call together with what it wrote to the console. *)
Abbreviation Console A := (A * list console_event)%type.

Definition silent {A} (x : A) : Console A := (x, []).

(** An insertion-ordered [Map<string, V>]. *)
Module OrderedMap.
Section Ops.
Context {V : Type}.

Fixpoint get (k : string) (m : list (string * V)) : option V :=
  match m with
  | [] => None
  | (k', v) :: m' => if String.eqb k' k then Some v else get k m'
  end.

(** [m.set(k, v)]: an existing key keeps its place. *)
Fixpoint set (k : string) (v : V) (m : list (string * V)) : list (string * V) :=
  match m with
  | [] => [(k, v)]
  | (k', v') :: m' =>
      if String.eqb k' k then (k, v) :: m' else (k', v') :: set k v m'
  end.
End Ops.
End OrderedMap.

(* ================================================================== *)
(** * [WebFeaturesMapper] (web-features-mapper.ts) *)
(* ================================================================== *)

Record FeatureMapping : Type := mkFeatureMapping {
  cssProperties : gmap string string;
  cssSelectors : gmap string string;
  cssAtRules : gmap string string;
  jsAPIs : gmap string string;
  jsConstructors : gmap string string;
  htmlElements : gmap string string;
  htmlAttributes : gmap string string
}.

Inductive Confidence : Type := ConfHigh | ConfMedium | ConfLow.

(** The optional [validator] field is never set nor read by the code and
    is left out. *)
Record EnhancedMapping : Type := mkEnhancedMapping {
  compatFeature : string;
  confidence : Confidence;
  pattern : option RegExp.t
}.

Record WebFeaturesMapper : Type := mkMapper {
  mappings : FeatureMapping;
  enhancedMappings : list (string * list EnhancedMapping);
  initialized : bool
}.

(** [new WebFeaturesMapper()] *)
Definition emptyMapping : FeatureMapping :=
  mkFeatureMapping ∅ ∅ ∅ ∅ ∅ ∅ ∅.

Definition newMapper : WebFeaturesMapper :=
  mkMapper emptyMapping [] false.

Definition set_cssProperties (k v : string) (m : FeatureMapping) : FeatureMapping :=
  mkFeatureMapping (<[k:=v]> (cssProperties m)) (cssSelectors m) (cssAtRules m)
    (jsAPIs m) (jsConstructors m) (htmlElements m) (htmlAttributes m).
Definition set_cssSelectors (k v : string) (m : FeatureMapping) : FeatureMapping :=
  mkFeatureMapping (cssProperties m) (<[k:=v]> (cssSelectors m)) (cssAtRules m)
    (jsAPIs m) (jsConstructors m) (htmlElements m) (htmlAttributes m).
Definition set_cssAtRules (k v : string) (m : FeatureMapping) : FeatureMapping :=
  mkFeatureMapping (cssProperties m) (cssSelectors m) (<[k:=v]> (cssAtRules m))
    (jsAPIs m) (jsConstructors m) (htmlElements m) (htmlAttributes m).
Definition set_jsAPIs (k v : string) (m : FeatureMapping) : FeatureMapping :=
  mkFeatureMapping (cssProperties m) (cssSelectors m) (cssAtRules m)
    (<[k:=v]> (jsAPIs m)) (jsConstructors m) (htmlElements m) (htmlAttributes m).
Definition set_jsConstructors (k v : string) (m : FeatureMapping) : FeatureMapping :=
  mkFeatureMapping (cssProperties m) (cssSelectors m) (cssAtRules m)
    (jsAPIs m) (<[k:=v]> (jsConstructors m)) (htmlElements m) (htmlAttributes m).
Definition set_htmlElements (k v : string) (m : FeatureMapping) : FeatureMapping :=
  mkFeatureMapping (cssProperties m) (cssSelectors m) (cssAtRules m)
    (jsAPIs m) (jsConstructors m) (<[k:=v]> (htmlElements m)) (htmlAttributes m).
Definition set_htmlAttributes (k v : string) (m : FeatureMapping) : FeatureMapping :=
  mkFeatureMapping (cssProperties m) (cssSelectors m) (cssAtRules m)
    (jsAPIs m) (jsConstructors m) (htmlElements m) (<[k:=v]> (htmlAttributes m)).

(** [if (c) body] inside a [forEach] callback *)
Definition when {S : Type} (c : bool) (body : S -> S) (s : S) : S :=
  if c then body s else s.

(** [Object.entries(features).forEach(([featureId, feature]) => { if
    (no compat_features) return; feature.compat_features.forEach(...) })],
    the shape shared by the three table builders; [step] may throw
    ([None]). *)
Fixpoint forEachCompat {S : Type} (step : string -> string -> S -> option S)
    (featureId : string) (cfs : list string) (s : S) : option S :=
  match cfs with
  | [] => Some s
  | cf :: cfs' =>
      match step featureId cf s with
      | Some s' => forEachCompat step featureId cfs' s'
      | None => None
      end
  end.

Fixpoint forEachFeature {S : Type} (step : string -> string -> S -> option S)
    (features : Dataset) (s : S) : option S :=
  match features with
  | [] => Some s
  | (featureId, feature) :: features' =>
      match compat_features feature with
      | None => forEachFeature step features' s
      | Some cfs =>
          match forEachCompat step featureId cfs s with
          | Some s' => forEachFeature step features' s'
          | None => None
          end
      end
  end.

Definition cssStep (featureId compatFeature : string) (m : FeatureMapping)
  : option FeatureMapping :=
  let m1 :=
    when (Js.startsWith compatFeature "css.properties.")
      (set_cssProperties
         (Js.underscores_to_dashes (Js.remove_first compatFeature "css.properties."))
         featureId) m in
  let m2 :=
    when (Js.startsWith compatFeature "css.selectors.")
      (set_cssSelectors (Js.remove_first compatFeature "css.selectors.") featureId) m1 in
  let m3 :=
    when (Js.startsWith compatFeature "css.at-rules.")
      (set_cssAtRules
         (Js.underscores_to_dashes (Js.remove_first compatFeature "css.at-rules."))
         featureId) m2 in
  Some m3.

Definition buildCSSMappings (features : Dataset) (m : FeatureMapping)
  : option FeatureMapping :=
  forEachFeature cssStep features m.

(** [apiPath[0] === apiPath[0].toUpperCase()] throws a [TypeError] on the
    empty [apiPath] ([None]).  An [apiPath] with a dot is split at its
    first dot: [parts[0]] and [parts.slice(1).join('.')]. *)
Definition jsStep (featureId compatFeature : string) (m : FeatureMapping)
  : option FeatureMapping :=
  if Js.startsWith compatFeature "api." then
    let apiPath := Js.remove_first compatFeature "api." in
    match Js.cut apiPath "." with
    | None =>
        match apiPath with
        | EmptyString => None
        | String c _ =>
            if Ascii.eqb c (Js.upper_char c)
            then Some (set_jsConstructors apiPath featureId m)
            else Some (set_jsAPIs apiPath featureId m)
        end
    | Some (object, member) =>
        let objectName := Js.toLowerCase object in
        let memberName := Js.toLowerCase member in
        let fullPath := objectName +:+ "." +:+ memberName in
        Some (set_jsAPIs memberName featureId (set_jsAPIs fullPath featureId m))
    end
  else Some m.

Definition buildJSMappings (features : Dataset) (m : FeatureMapping)
  : option FeatureMapping :=
  forEachFeature jsStep features m.

(** [compatFeature.split('.attributes.')] has exactly two parts when the
    separator occurs once; the second part is then the attribute. *)
Definition htmlStep (featureId compatFeature : string) (m : FeatureMapping)
  : option FeatureMapping :=
  let m1 :=
    when (Js.startsWith compatFeature "html.elements.")
      (set_htmlElements (Js.remove_first compatFeature "html.elements.") featureId) m in
  let m2 :=
    when (Js.startsWith compatFeature "html.global_attributes.")
      (set_htmlAttributes (Js.remove_first compatFeature "html.global_attributes.")
         featureId) m1 in
  let m3 :=
    match Js.cut compatFeature ".attributes." with
    | Some (_, attribute) =>
        when (negb (Js.includes attribute ".attributes."))
          (set_htmlAttributes attribute featureId) m2
    | None => m2
    end in
  Some m3.

Definition buildHTMLMappings (features : Dataset) (m : FeatureMapping)
  : option FeatureMapping :=
  forEachFeature htmlStep features m.

(** The hand-written pattern table.  Each comment gives the pattern as
    the source writes it. *)
Definition pat_has : RegExp.t := RegExp.lit ":has(".            (* /:has\(/ *)
Definition pat_backdrop : RegExp.t := RegExp.lit "::backdrop".  (* /::backdrop/ *)
Definition pat_container : RegExp.t := RegExp.lit "@container". (* /@container/ *)
Definition pat_new (ctor : string) : RegExp.t :=                (* /new\s+Ctor/ *)
  RegExp.Seq (RegExp.lit "new")
    (RegExp.Seq (RegExp.plus (RegExp.Cls Js.is_space)) (RegExp.lit ctor)).
Definition pat_fetch : RegExp.t :=                              (* /fetch\s*\(/ *)
  RegExp.Seq (RegExp.lit "fetch")
    (RegExp.Seq (RegExp.Star (RegExp.Cls Js.is_space)) (RegExp.lit "(")).
Definition pat_dialog : RegExp.t := RegExp.lit_i "<dialog".     (* /<dialog/i *)
Definition pat_details : RegExp.t := RegExp.lit_i "<details".   (* /<details/i *)

(** The two patterns that [mapJSMethod] and [mapJSConstructor] hand to
    [String.prototype.match], as regular expressions: whether they match
    somewhere is [RegExp.test]; [RegExp.match_method_call] and
    [RegExp.match_new_call] compute their capture group. *)
Definition pat_method_call : RegExp.t :=
  RegExp.Seq (RegExp.plus (RegExp.Cls Js.is_word))
    (RegExp.Seq
       (RegExp.Star (RegExp.Seq (RegExp.lit ".") (RegExp.plus (RegExp.Cls Js.is_word))))
       (RegExp.Seq (RegExp.Star (RegExp.Cls Js.is_space)) (RegExp.lit "("))).
Definition pat_new_call : RegExp.t :=                           (* /new\s+(\w+)/ *)
  RegExp.Seq (RegExp.lit "new")
    (RegExp.Seq (RegExp.plus (RegExp.Cls Js.is_space))
       (RegExp.plus (RegExp.Cls Js.is_word))).

Definition enhanced (feature : string) (p : RegExp.t) : list EnhancedMapping :=
  [mkEnhancedMapping feature ConfHigh (Some p)].

Definition buildEnhancedMappings (e : list (string * list EnhancedMapping))
  : list (string * list EnhancedMapping) :=
  let e := OrderedMap.set ":has(" (enhanced "css-has" pat_has) e in
  let e := OrderedMap.set "::backdrop" (enhanced "dialog" pat_backdrop) e in
  let e := OrderedMap.set "@container" (enhanced "css-container-queries" pat_container) e in
  let e := OrderedMap.set "IntersectionObserver"
             (enhanced "intersectionobserver" (pat_new "IntersectionObserver")) e in
  let e := OrderedMap.set "ResizeObserver"
             (enhanced "resizeobserver" (pat_new "ResizeObserver")) e in
  let e := OrderedMap.set "fetch(" (enhanced "fetch" pat_fetch) e in
  let e := OrderedMap.set "<dialog" (enhanced "dialog" pat_dialog) e in
  let e := OrderedMap.set "<details" (enhanced "details" pat_details) e in
  e.

(** [initialize()], run to completion.  [None]: a table builder threw.
    Of its console output only the opening line is kept (the closing
    lines print the elapsed time and the table sizes). *)
Definition initialize (features : Dataset) (m : WebFeaturesMapper)
  : option (Console WebFeaturesMapper) :=
  if initialized m then Some (silent m)
  else
    t1 ← buildCSSMappings features (mappings m);
    t2 ← buildJSMappings features t1;
    t3 ← buildHTMLMappings features t2;
    Some (mkMapper t3 (buildEnhancedMappings (enhancedMappings m)) true,
          [ConsoleLog "Initializing web-features mappings..."]).

(** [property.replace(/^-(?:webkit|moz|ms|o)-/, '')] *)
Definition strip_vendor_prefix (property : string) : string :=
  if Js.startsWith property "-webkit-" then Js.drop 8 property
  else if Js.startsWith property "-moz-" then Js.drop 5 property
  else if Js.startsWith property "-ms-" then Js.drop 4 property
  else if Js.startsWith property "-o-" then Js.drop 3 property
  else property.

Definition mapCSSProperty (m : WebFeaturesMapper) (property : string)
  : Console (option string) :=
  if negb (initialized m)
  then (None, [ConsoleWarn "WebFeaturesMapper not initialized"])
  else
    match Js.get_truthy (cssProperties (mappings m)) property with
    | Some directMatch => silent (Some directMatch)
    | None =>
        let unprefixed := strip_vendor_prefix property in
        silent (Js.get_truthy (cssProperties (mappings m)) unprefixed)
    end.

(** [mapping.pattern && mapping.pattern.test(text)] *)
Definition pattern_matches (mapping : EnhancedMapping) (text : string) : bool :=
  match pattern mapping with
  | Some r => RegExp.test r text
  | None => false
  end.

(** The two nested [forEach] loops of [mapCSSSelector]: the features
    pushed, in table order. *)
Definition enhancedFeatures (e : list (string * list EnhancedMapping))
    (text : string) : list string :=
  flat_map
    (fun '(_, ms) =>
       flat_map
         (fun mapping =>
            if pattern_matches mapping text then [compatFeature mapping] else [])
         ms)
    e.

Definition mapCSSSelector (m : WebFeaturesMapper) (selector : string)
  : Console (list string) :=
  if negb (initialized m) then silent []
  else
    let features := enhancedFeatures (enhancedMappings m) selector in
    let features :=
      match Js.get_truthy (cssSelectors (mappings m)) selector with
      | Some directMatch => features ++ [directMatch]
      | None => features
      end in
    silent (Js.set_spread features).

Definition mapCSSAtRule (m : WebFeaturesMapper) (atRule : string)
  : Console (option string) :=
  if negb (initialized m) then silent None
  else
    (* Check enhanced mappings first *)
    match OrderedMap.get ("@" +:+ atRule) (enhancedMappings m) with
    | Some (first :: _) => silent (Some (compatFeature first))
    | _ => silent (Js.get_truthy (cssAtRules (mappings m)) atRule)
    end.

(** The first pattern of the table, in table order, that matches. *)
Fixpoint firstEnhanced (ms : list EnhancedMapping) (jsCode : string)
  : option string :=
  match ms with
  | [] => None
  | mapping :: ms' =>
      if pattern_matches mapping jsCode then Some (compatFeature mapping)
      else firstEnhanced ms' jsCode
  end.

Fixpoint findEnhancedJSMapping (e : list (string * list EnhancedMapping))
    (jsCode : string) : option string :=
  match e with
  | [] => None
  | (_, ms) :: e' =>
      match firstEnhanced ms jsCode with
      | Some f => Some f
      | None => findEnhancedJSMapping e' jsCode
      end
  end.

Definition mapJSProperty (m : WebFeaturesMapper) (propertyAccess : string)
  : Console (option string) :=
  if negb (initialized m) then silent None
  else
    match Js.get_truthy (jsAPIs (mappings m)) (Js.toLowerCase propertyAccess) with
    | Some directMatch => silent (Some directMatch)
    | None => silent (findEnhancedJSMapping (enhancedMappings m) propertyAccess)
    end.

(** The direct lookup of [mapJSMethod]: the lower-cased method path of
    the call, looked up in [jsAPIs]. *)
Definition directJSMethod (m : WebFeaturesMapper) (methodCall : string)
  : option string :=
  match RegExp.match_method_call methodCall with
  | Some methodPath => Js.get_truthy (jsAPIs (mappings m)) (Js.toLowerCase methodPath)
  | None => None
  end.

Definition mapJSMethod (m : WebFeaturesMapper) (methodCall : string)
  : Console (option string) :=
  if negb (initialized m) then silent None
  else
    match directJSMethod m methodCall with
    | Some directMatch => silent (Some directMatch)
    | None => silent (findEnhancedJSMapping (enhancedMappings m) methodCall)
    end.

(** The direct lookup of [mapJSConstructor]: the constructor name after
    [new], looked up in [jsConstructors]. *)
Definition directJSConstructor (m : WebFeaturesMapper) (constructor : string)
  : option string :=
  match RegExp.match_new_call constructor with
  | Some constructorName => Js.get_truthy (jsConstructors (mappings m)) constructorName
  | None => None
  end.

Definition mapJSConstructor (m : WebFeaturesMapper) (constructor : string)
  : Console (option string) :=
  if negb (initialized m) then silent None
  else
    match directJSConstructor m constructor with
    | Some directMatch => silent (Some directMatch)
    | None => silent (findEnhancedJSMapping (enhancedMappings m) constructor)
    end.

Definition mapHTMLElement (m : WebFeaturesMapper) (element : string)
  : Console (option string) :=
  if negb (initialized m) then silent None
  else
    match Js.get_truthy (htmlElements (mappings m)) (Js.toLowerCase element) with
    | Some directMatch => silent (Some directMatch)
    | None =>
        match OrderedMap.get ("<" +:+ Js.toLowerCase element) (enhancedMappings m) with
        | Some (first :: _) => silent (Some (compatFeature first))
        | _ => silent None
        end
    end.

Definition mapHTMLAttribute (m : WebFeaturesMapper) (attribute : string)
  : Console (option string) :=
  if negb (initialized m) then silent None
  else silent (Js.get_truthy (htmlAttributes (mappings m)) (Js.toLowerCase attribute)).

(* ================================================================== *)
(** * The dataset index and the key generator (utils/index.ts) *)
(* ================================================================== *)

Record IndexRecord : Type := mkIndexRecord {
  ir_status : BaselineStatus;
  featureName : string;
  featureId : string
}.

Abbreviation Index := (gmap string IndexRecord).

(** [if (status)]: ['high'] and ['low'] are truthy, [false] is not. *)
Definition status_truthy (s : BaselineStatus) : bool :=
  match s with
  | High | Low => true
  | NotBaseline => false
  end.

(** [featureData.name || featureId] *)
Definition name_or_id (feature : Feature) (id : string) : string :=
  match name feature with
  | Some n => if Js.truthy n then n else id
  | None => id
  end.

(** [featureData.compat_features.forEach(cf => index.set(cf, record))] *)
Definition setCompatFeatures (r : IndexRecord) (cfs : list string) (idx : Index)
  : Index :=
  foldl (fun i cf => <[cf:=r]> i) idx cfs.

(** The body of the [forEach] callback of [getCompatFeaturesIndex]. *)
Definition indexEntry (idx : Index) (entry : string * Feature) : Index :=
  let '(id, feature) := entry in
  match status feature with
  | None => idx
  | Some st =>
      if status_truthy st then
        let r := mkIndexRecord st (name_or_id feature id) id in
        let idx := <[id:=r]> idx in
        match compat_features feature with
        | Some cfs => setCompatFeatures r cfs idx
        | None => idx
        end
      else idx
  end.

Definition buildIndex (features : Dataset) : Index :=
  foldl indexEntry ∅ features.

(** The module-level variable [compatFeaturesIndex] and the functions
    that read or fill it: explicit state passing over the memo cell. *)
Abbreviation IndexCell := (option Index).

Definition getCompatFeaturesIndex (features : Dataset) (cell : IndexCell)
  : Index * IndexCell :=
  match cell with
  | Some idx => (idx, cell)
  | None => let idx := buildIndex features in (idx, Some idx)
  end.

Definition checkBaselineStatus (features : Dataset) (featureIdOrCompat : string)
    (cell : IndexCell) : BaselineStatus * IndexCell :=
  let '(index, cell) := getCompatFeaturesIndex features cell in
  match index !! featureIdOrCompat with
  | Some m => (ir_status m, cell)
  | None => (NotBaseline, cell)
  end.

Definition CSS_PATTERN_TEMPLATES : list string :=
  [ "css.properties.${property}";
    "css.properties.${property}.${value}";
    "css.properties.display.${value}";
    "css.at-rules.${property}";
    "css.at-rules.${property}.${value}";
    "css.selectors.${property}";
    "css.selectors.${property}.${value}";
    "css.types.${property}";
    "css.types.${property}.${value}" ].

Definition JS_PATTERN_TEMPLATES : list string :=
  [ "api.${apiName}";
    "api.${apiName}.${apiName}";
    "javascript.builtins.${apiName}";
    "javascript.builtins.${apiName}.${apiName}";
    "javascript.statements.${apiName}";
    "javascript.operators.${apiName}";
    "javascript.functions.${apiName}";
    "javascript.classes.${apiName}";
    "javascript.grammar.${apiName}";
    "javascript.builtins.globalThis.${apiName}";
    "webapi.${apiName}" ].

Definition HTML_PATTERN_TEMPLATES : list string :=
  [ "html.elements.${elementName}";
    "html.elements.${elementName}.${attribute}";
    "html.global_attributes.${attribute}" ].

(** The replacement text of [String.prototype.replace] for one match of a
    pattern without capture groups: [$$] is a dollar sign, [$&] the
    matched text, [$`] the text before the match, [$'] the text after
    it; any other dollar sign stands for itself. *)
Fixpoint getSubstitution (value before matched after : string) : string :=
  match value with
  | EmptyString => EmptyString
  | String c rest =>
      if Ascii.eqb c "$" then
        match rest with
        | String d rest' =>
            if Ascii.eqb d "$" then String "$" (getSubstitution rest' before matched after)
            else if Ascii.eqb d "&" then matched +:+ getSubstitution rest' before matched after
            else if Ascii.eqb d "`" then before +:+ getSubstitution rest' before matched after
            else if Ascii.eqb d "'" then after +:+ getSubstitution rest' before matched after
            else String c (getSubstitution rest before matched after)
        | EmptyString => String c EmptyString
        end
      else String c (getSubstitution rest before matched after)
  end.

(** [s.replace(re, value)] for a global pattern [re] that matches exactly
    the non-empty text [needle]: every occurrence, left to right and
    without overlap, is replaced.  [skip] counts the characters of the
    current occurrence still to be passed over, [before] is the text
    already scanned. *)
Fixpoint replaceAllFrom (needle value : string) (skip : nat) (before s : string)
  : string :=
  match s with
  | EmptyString => EmptyString
  | String c s' =>
      let before' := before +:+ String c EmptyString in
      match skip with
      | S k => replaceAllFrom needle value k before' s'
      | O =>
          if Js.startsWith s needle then
            getSubstitution value before needle (Js.drop (String.length needle) s)
            +:+ replaceAllFrom needle value (String.length needle - 1) before' s'
          else String c (replaceAllFrom needle value O before' s')
      end
  end.

(** [pattern.replace(new RegExp(`\\$\\{${key}\\}`, 'g'), value)].  The
    pattern source is a backslash-escaped dollar sign and brace around
    [key]; for a [key] made of word characters (as are [property],
    [value], [apiName], [elementName] and [attribute], the keys every
    caller passes) it matches exactly the text of the placeholder. *)
Definition replacePlaceholder (pattern key value : string) : string :=
  replaceAllFrom ("${" +:+ key +:+ "}") value O EmptyString pattern.

Definition substitute (replacements : list (string * string)) (template : string)
  : string :=
  foldl (fun pattern '(key, value) => replacePlaceholder pattern key value)
    template replacements.

(** [replacements] is [Object.entries] of the substitution record.  The
    keys are taken as the text of their placeholders, which is what the
    code does for keys of word characters; [generatePatternsOrThrow]
    below covers every record. *)
Definition generatePatterns (templates : list string)
    (replacements : list (string * string)) : list string :=
  filter
    (fun pattern =>
       negb (Js.includes pattern "${") && negb (Js.includes pattern "undefined") = true)
    (map (substitute replacements) templates).

(* ================================================================== *)
(** * Types (types/index.ts, types/errors.ts, language-server.ts) *)
(* ================================================================== *)

Inductive Language : Type := CSS | JS | HTML.

Record DetectedFeature : Type := mkDetected {
  df_name : string;
  df_type : Language;
  df_line : nat;
  df_column : nat;
  df_context : string;
  df_confidence : Confidence
}.

(** [ParseResult] without its [metadata] (line count, language name and
    elapsed time), which nothing below reads except to print it. *)
Record ParseResult : Type := mkParseResult {
  pr_features : list DetectedFeature;
  pr_errors : list string
}.

Inductive Severity : Type := SevError | SevWarn | SevInfo.

Record FeatureResult : Type := mkResult {
  feature : string;
  fr_status : BaselineStatus;
  severity : Severity;
  fr_line : option nat;
  fr_column : option nat;
  message : string;
  fixable : option bool
}.

(** [rules: { [ruleName]: 'error' | 'warn' | 'off' }] *)
Inductive Rule : Type := RuleError | RuleWarn | RuleOff.

#[global] Instance Rule_eq_dec : EqDecision Rule.
Proof. solve_decision. Defined.

Inductive Target : Type := TargetHigh | TargetLow.

(** The fields of [BaselineConfig] and [CheckOptions] that the file loop
    reads. *)
Record BaselineConfig : Type := mkConfig {
  rules : gmap string Rule;
  targets_baseline : Target
}.

Record CheckOptions : Type := mkOptions {
  strict : bool;
  quiet : bool;
  verbose : bool
}.

Record BaselineResult : Type := mkBaselineResult {
  br_file : string;
  br_features : list FeatureResult;
  br_errors : nat;
  br_warnings : nat;
  br_passed : bool
}.

(** The errors that reach the file loop: the two input errors of
    errors.ts, [ParsingError], and a plain [Error]. *)
Inductive JsError : Type :=
| FileSystemError (msg filePath : string)
| FileSizeError (filePath : string) (fileSize maxSize : N)
| ParsingError (msg filePath : string) (language : Language)
| PlainError (msg : string).

(** [(bytes / 1024 / 1024).toFixed(2)]: the quotient is exact in binary
    floating point, so the result is the quotient rounded to hundredths,
    ties upwards. *)
Definition megabytes (bytes : N) : string :=
  let hundredths := ((bytes * 200 + 1048576) / 2097152)%N in
  let frac := (hundredths mod 100)%N in
  pretty (hundredths / 100)%N +:+ "." +:+
  (if (frac <? 10)%N then "0" else "") +:+ pretty frac.

(** [error.message] *)
Definition error_message (e : JsError) : string :=
  match e with
  | FileSystemError msg _ => msg
  | FileSizeError _ fileSize maxSize =>
      "File size (" +:+ megabytes fileSize +:+
      "MB) exceeds maximum allowed size (" +:+ megabytes maxSize +:+ "MB)"
  | ParsingError msg _ _ => msg
  | PlainError msg => msg
  end.

(* ================================================================== *)
(** * The file parsers (utils/parsers.ts) *)
(* ================================================================== *)

(** What the run prints and does, in order.  Messages are kept as data;
    colours and the progress bar are not rendered. *)
Inductive check_event : Type :=
| Checking (position total : nat) (relativePath : string)
| ParsingWarnings (filePath : string) (errors : list string)
| Parsed (filePath : string) (count : nat)
| FeaturesFound (relativePath : string) (features : list FeatureResult)
| NoFilesFound
| FoundFiles (count : nat)
| Summary (totalFiles totalErrors totalWarnings passedFiles failedFiles : nat)
| CheckFailed
| AllPassed
| ErrorPrinted (msg : string).

Inductive Completion (A : Type) : Type :=
| Normal (a : A)
| Thrown (e : JsError).
Arguments Normal {A} a.
Arguments Thrown {A} e.

(** Computations over the memo cell of the index that may throw and that
    write to the console. *)
Definition Run (A : Type) : Type :=
  IndexCell -> Completion A * IndexCell * list check_event.

Definition ret {A} (a : A) : Run A := fun cell => (Normal a, cell, []).

Definition throw {A} (e : JsError) : Run A := fun cell => (Thrown e, cell, []).

Definition say (ev : check_event) : Run unit := fun cell => (Normal tt, cell, [ev]).

Definition bind {A B} (m : Run A) (k : A -> Run B) : Run B :=
  fun cell =>
    match m cell with
    | (Normal a, cell1, out1) =>
        let '(r, cell2, out2) := k a cell1 in (r, cell2, out1 ++ out2)
    | (Thrown e, cell1, out1) => (Thrown e, cell1, out1)
    end.

Definition try_catch {A} (body : Run A) (handler : JsError -> Run A) : Run A :=
  fun cell =>
    match body cell with
    | (Normal a, cell1, out1) => (Normal a, cell1, out1)
    | (Thrown e, cell1, out1) =>
        let '(r, cell2, out2) := handler e cell1 in (r, cell2, out1 ++ out2)
    end.

(** a function on the memo cell, lifted *)
Definition with_cell {A} (f : IndexCell -> A * IndexCell) : Run A :=
  fun cell => let '(a, cell') := f cell in (Normal a, cell', []).

Declare Scope run_scope.
Delimit Scope run_scope with run.
Notation "x <- m ;; k" := (bind m (fun x => k))
  (at level 100, m at next level, right associativity) : run_scope.
Notation "m ;;; k" := (bind m (fun _ => k))
  (at level 100, right associativity) : run_scope.

Fixpoint mapRun {A B} (f : A -> Run B) (l : list A) : Run (list B) :=
  match l with
  | [] => ret []
  | x :: l' => (y <- f x ;; ys <- mapRun f l' ;; ret (y :: ys))%run
  end.

Definition MAX_FILE_SIZE : N := (10 * 1024 * 1024)%N.

(** [typeof baselineStatus === 'string' ? baselineStatus : false] *)
Definition string_or_false (s : BaselineStatus) : BaselineStatus :=
  match s with
  | High => High
  | Low => Low
  | NotBaseline => NotBaseline
  end.

Definition severity_of (st : BaselineStatus) : Severity :=
  match st with
  | NotBaseline => SevError
  | Low => SevWarn
  | High => SevInfo
  end.

Definition convertToFeatureResult (dataset : Dataset)
    (detectedFeature : DetectedFeature) (cell : IndexCell)
  : FeatureResult * IndexCell :=
  let '(baselineStatus, cell) :=
    checkBaselineStatus dataset (df_name detectedFeature) cell in
  let st := string_or_false baselineStatus in
  let sev := severity_of st in
  (mkResult (df_name detectedFeature) st sev
     (Some (df_line detectedFeature)) (Some (df_column detectedFeature))
     (df_context detectedFeature +:+ " - " +:+ df_name detectedFeature +:+ " is " +:+
      match st with
      | High => "fully baseline"
      | Low => "newly baseline"
      | NotBaseline => "not baseline"
      end)
     (Some false),
   cell).

(** A file as [fs] sees it: its size and what [readFileSync] gives, the
    content or the message of the error it throws. *)
Record FileEntry : Type := mkFile {
  size : N;
  read : string + string
}.

Definition language_name (l : Language) : string :=
  match l with CSS => "CSS" | JS => "JS" | HTML => "HTML" end.

Section Parsers.

(** the dataset of the [web-features] package *)
Variable dataset : Dataset.
(** [fs.existsSync] / [fs.statSync] / [fs.readFileSync] *)
Variable fs : string -> option FileEntry.
(** [parser.parseCSS], [parser.parseJS] and [parser.parseHTML] of the
    language-server parser, awaited: the parse result, or the message
    of the error the call rejects with.  ([getLanguageServerParser]
    hands out the one parser object of the module, created on first
    use.)  What the call itself writes to the console, the lines of the
    mapper's [initialize] on first use, is not part of the result. *)
Variable parser : Language -> string -> string -> ParseResult + string.

(** The common body of [parseCSS], [parseJS] and [parseHTML], which
    differ only in the parser method called and in the language named
    in their messages. *)
Definition parseWith (language : Language) (filePath : string)
  : Run (list FeatureResult) :=
  try_catch
    (match fs filePath with
     | None =>
         throw (FileSystemError ("File not found: " +:+ filePath) filePath)
     | Some stats =>
         if (MAX_FILE_SIZE <? size stats)%N
         then throw (FileSizeError filePath (size stats) MAX_FILE_SIZE)
         else
           match read stats with
           | inr msg => throw (PlainError msg)
           | inl content =>
               match parser language content filePath with
               | inr msg => throw (PlainError msg)
               | inl parseResult =>
                   (results <- mapRun
                                 (fun d => with_cell (convertToFeatureResult dataset d))
                                 (pr_features parseResult) ;;
                    (if bool_decide (pr_errors parseResult = [])
                     then ret tt
                     else say (ParsingWarnings filePath (pr_errors parseResult))) ;;;
                    say (Parsed filePath (length results)) ;;;
                    ret results)%run
               end
           end
     end)
    (fun error =>
       match error with
       | FileSystemError _ _ | FileSizeError _ _ _ => throw error
       | _ =>
           throw (ParsingError
                    ("Failed to parse " +:+ language_name language +:+ " file: "
                     +:+ error_message error)
                    filePath language)
       end).

Definition parseCSS : string -> Run (list FeatureResult) := parseWith CSS.
Definition parseJS : string -> Run (list FeatureResult) := parseWith JS.
Definition parseHTML : string -> Run (list FeatureResult) := parseWith HTML.

(** [filePath.split('.').pop()]: the text after the last dot, the whole
    path when it has none. *)
Fixpoint last_segment (s : string) : string :=
  match s with
  | EmptyString => EmptyString
  | String c s' =>
      if Js.includes s' "." then last_segment s'
      else if Ascii.eqb c "." then s' else s
  end.

Definition is_one_of (s : string) (l : list string) : bool :=
  existsb (String.eqb s) l.

Definition parseFile (filePath : string) : Run (list FeatureResult) :=
  let extension := Js.toLowerCase (last_segment filePath) in
  if is_one_of extension ["css"; "scss"; "sass"; "less"] then parseCSS filePath
  else if is_one_of extension ["js"; "ts"; "jsx"; "tsx"] then parseJS filePath
  else if is_one_of extension ["html"; "htm"] then parseHTML filePath
  else ret [].

End Parsers.

(* ================================================================== *)
(** * The check command (commands/check.ts) *)
(* ================================================================== *)

Fixpoint filter_not_null {A} (l : list (option A)) : list A :=
  match l with
  | [] => []
  | Some x :: l' => x :: filter_not_null l'
  | None :: l' => filter_not_null l'
  end.

(** [{ ...feature, severity }] *)
Definition with_severity (f : FeatureResult) (sev : Severity) : FeatureResult :=
  mkResult (feature f) (fr_status f) sev (fr_line f) (fr_column f) (message f)
    (fixable f).

(** Apply config rules to override feature severity.  [rules config]
    holds the properties of [config.rules] itself; a feature name that a
    plain object inherits from [Object.prototype] (such as
    [constructor]) is outside this model. *)
Definition applyConfigRules (features : list FeatureResult) (config : BaselineConfig)
  : list FeatureResult :=
  filter_not_null
    (map
       (fun f =>
          match rules config !! feature f with
          | Some RuleOff => None
          | Some RuleError => Some (with_severity f SevError)
          | Some RuleWarn => Some (with_severity f SevWarn)
          | None => Some f
          end)
       features).

Definition is_low (s : BaselineStatus) : bool :=
  match s with Low => true | _ => false end.

Definition is_error (f : FeatureResult) : bool :=
  match severity f with SevError => true | _ => false end.

Definition is_warn (f : FeatureResult) : bool :=
  match severity f with SevWarn => true | _ => false end.

(** Apply target baseline filter. *)
Definition applyTargetBaseline (features : list FeatureResult) (targetBaseline : Target)
  : list FeatureResult :=
  match targetBaseline with
  | TargetLow =>
      map
        (fun f =>
           if is_low (fr_status f) && is_warn f
           then with_severity f SevInfo
           else f)
        features
  | TargetHigh => features
  end.

(** The variables of the [for] loop that survive an iteration. *)
Record LoopState : Type := mkLoop {
  results : list BaselineResult;
  totalErrors : nat;
  totalWarnings : nat
}.

(** How a call of [execute] ends: by returning, or in [process.exit]. *)
Inductive Outcome : Type :=
| Returned
| Exited (code : nat).

Section Check.

Variable dataset : Dataset.
Variable fs : string -> option FileEntry.
Variable parser : Language -> string -> string -> ParseResult + string.
(** [path.relative(process.cwd(), file)] *)
Variable relative : string -> string.
Variable options : CheckOptions.
Variable config : BaselineConfig.

(** One iteration of [for (let i = 0; i < filesToCheck.length; i++)]. *)
Definition checkOne (total i : nat) (file : string) (acc : LoopState)
  : Run LoopState :=
  let relativePath := relative file in
  ((if quiet options then ret tt else say (Checking (i + 1) total relativePath)) ;;;
   features <- parseFile dataset fs parser file ;;
   let features := applyConfigRules features config in
   let features := applyTargetBaseline features (targets_baseline config) in
   let errors := length (filter (fun f => is_error f = true) features) in
   let warnings := length (filter (fun f => is_warn f = true) features) in
   let result :=
     mkBaselineResult relativePath features errors warnings
       (Nat.eqb errors 0 && (if strict options then Nat.eqb warnings 0 else true)) in
   (if verbose options && negb (Nat.eqb (length features) 0)
    then say (FeaturesFound relativePath features)
    else ret tt) ;;;
   ret (mkLoop (results acc ++ [result])
          (totalErrors acc + errors) (totalWarnings acc + warnings)))%run.

(** The loop from index [i] on, over the files not yet visited. *)
Fixpoint checkLoop (total i : nat) (files : list string) (acc : LoopState)
  : Run LoopState :=
  match files with
  | [] => ret acc
  | file :: rest =>
      (acc' <- checkOne total i file acc ;; checkLoop total (S i) rest acc')%run
  end.

(** [execute] from the point where [filesToCheck] is known: the loop,
    the summary, and the exit code.  (Writing the report file, which
    comes between the summary and the verdict, is left out.) *)
Definition checkFiles (filesToCheck : list string) (cell : IndexCell)
  : Outcome * IndexCell * list check_event :=
  match filesToCheck with
  | [] => (Returned, cell, [NoFilesFound])
  | _ =>
      let total := length filesToCheck in
      match checkLoop total 0 filesToCheck (mkLoop [] 0 0) cell with
      | (Normal acc, cell', out) =>
          let passedFiles :=
            length (filter (fun r => br_passed r = true) (results acc)) in
          let failedFiles := length (results acc) - passedFiles in
          let hasErrors := negb (Nat.eqb (totalErrors acc) 0) in
          let hasWarningsInStrict :=
            strict options && negb (Nat.eqb (totalWarnings acc) 0) in
          let out :=
            [FoundFiles total] ++ out ++
            [Summary total (totalErrors acc) (totalWarnings acc) passedFiles failedFiles] in
          if hasErrors || hasWarningsInStrict
          then (Exited 1, cell', out ++ [CheckFailed])
          else (Returned, cell', out ++ [AllPassed])
      | (Thrown error, cell', out) =>
          (Exited 1, cell',
           [FoundFiles total] ++ out ++
           [ErrorPrinted ("Error: " +:+ error_message error)])
      end
  end.

End Check.

(* ================================================================== *)
(** * The mapper singleton ([getWebFeaturesMapper]) on the job queue *)
(* ================================================================== *)

(** [initialize] and [getWebFeaturesMapper] are [async] functions: each
    runs until its next [await], where it is suspended and put back on
    the job queue of the event loop once the awaited promise settles.  A
    [Job] is one such suspended continuation.  Mapper objects live in a
    heap and are referred to by address, so that every holder of the
    singleton sees the same [initialized] flag. *)

Inductive InitStage : Type :=
| AfterCSS        (* resumes after [await this.buildCSSMappings()] *)
| AfterJS         (* resumes after [await this.buildJSMappings()] *)
| AfterHTML       (* resumes after [await this.buildHTMLMappings()] *)
| AfterEnhanced   (* resumes after [await this.buildEnhancedMappings()] *)
| AfterThrow.     (* resumes after awaiting a builder that threw *)

Inductive Job : Type :=
(** [initialize] on the mapper at [this], called by the
    [getWebFeaturesMapper] of [caller] *)
| ResumeInitialize (stage : InitStage) (this caller : nat)
(** [getWebFeaturesMapper] after [await mapperInstance.initialize()];
    [ok = false] when that promise was rejected *)
| ResumeGet (caller : nat) (ok : bool)
(** the caller's [const mapper = await getWebFeaturesMapper()];
    [None] when that promise was rejected *)
| ResumeCaller (caller : nat) (value : option nat).

(** What a caller's [await getWebFeaturesMapper()] gave it: a mapper and
    the value of its [initialized] flag at that moment, or an exception. *)
Inductive Received : Type :=
| GotMapper (address : nat) (initializedThen : bool)
| GotException.

Record World : Type := mkWorld {
  heap : list WebFeaturesMapper;
  mapperInstance : option nat;
  jobs : list Job;
  console : list console_event;
  received : list (nat * Received)
}.

Definition startWorld : World := mkWorld [] None [] [] [].

Definition set_heap (h : list WebFeaturesMapper) (w : World) : World :=
  mkWorld h (mapperInstance w) (jobs w) (console w) (received w).
Definition set_instance (a : nat) (w : World) : World :=
  mkWorld (heap w) (Some a) (jobs w) (console w) (received w).
Definition enqueue (j : Job) (w : World) : World :=
  mkWorld (heap w) (mapperInstance w) (jobs w ++ [j]) (console w) (received w).
Definition print (ev : console_event) (w : World) : World :=
  mkWorld (heap w) (mapperInstance w) (jobs w) (console w ++ [ev]) (received w).
Definition receive (caller : nat) (r : Received) (w : World) : World :=
  mkWorld (heap w) (mapperInstance w) (jobs w) (console w) (received w ++ [(caller, r)]).

Definition set_mappings (t : FeatureMapping) (m : WebFeaturesMapper) : WebFeaturesMapper :=
  mkMapper t (enhancedMappings m) (initialized m).

Section Singleton.

Variable dataset : Dataset.

(** Run the builder [build] on the tables of the mapper at [this], then
    suspend [initialize] at the [await] that follows the call. *)
Definition awaitBuilder (build : Dataset -> FeatureMapping -> option FeatureMapping)
    (next : InitStage) (this caller : nat) (w : World) : World :=
  match heap w !! this with
  | Some m =>
      match build dataset (mappings m) with
      | Some t =>
          enqueue (ResumeInitialize next this caller)
            (set_heap (<[this := set_mappings t m]> (heap w)) w)
      | None => enqueue (ResumeInitialize AfterThrow this caller) w
      end
  | None => w
  end.

(** [mapperInstance.initialize()] up to its first [await]. *)
Definition callInitialize (this caller : nat) (w : World) : World :=
  match heap w !! this with
  | Some m =>
      if initialized m then enqueue (ResumeGet caller true) w
      else
        awaitBuilder buildCSSMappings AfterCSS this caller
          (print (ConsoleLog "Initializing web-features mappings...") w)
  | None => w
  end.

(** A call of [getWebFeaturesMapper()] by [caller], up to the first
    [await] on its way; the caller itself awaits the returned promise. *)
Definition callGet (caller : nat) (w : World) : World :=
  match mapperInstance w with
  | None =>
      let this := length (heap w) in
      callInitialize this caller
        (set_instance this (set_heap (heap w ++ [newMapper]) w))
  | Some a => enqueue (ResumeCaller caller (Some a)) w
  end.

Definition runJob (j : Job) (w : World) : World :=
  match j with
  | ResumeInitialize AfterCSS this caller =>
      awaitBuilder buildJSMappings AfterJS this caller w
  | ResumeInitialize AfterJS this caller =>
      awaitBuilder buildHTMLMappings AfterHTML this caller w
  | ResumeInitialize AfterHTML this caller =>
      match heap w !! this with
      | Some m =>
          enqueue (ResumeInitialize AfterEnhanced this caller)
            (set_heap
               (<[this := mkMapper (mappings m)
                            (buildEnhancedMappings (enhancedMappings m))
                            (initialized m)]> (heap w)) w)
      | None => w
      end
  | ResumeInitialize AfterEnhanced this caller =>
      match heap w !! this with
      | Some m =>
          enqueue (ResumeGet caller true)
            (set_heap
               (<[this := mkMapper (mappings m) (enhancedMappings m) true]> (heap w)) w)
      | None => w
      end
  | ResumeInitialize AfterThrow this caller => enqueue (ResumeGet caller false) w
  | ResumeGet caller true => enqueue (ResumeCaller caller (mapperInstance w)) w
  | ResumeGet caller false => enqueue (ResumeCaller caller None) w
  | ResumeCaller caller (Some a) =>
      match heap w !! a with
      | Some m => receive caller (GotMapper a (initialized m)) w
      | None => w
      end
  | ResumeCaller caller None => receive caller GotException w
  end.

(** One turn of the job queue: the oldest job runs. *)
Definition tick (w : World) : World :=
  match jobs w with
  | [] => w
  | j :: rest =>
      runJob j (mkWorld (heap w) (mapperInstance w) rest (console w) (received w))
  end.

(** What happens in a process: callers ask for the mapper, and between
    two requests the job queue may turn. *)
Inductive Action : Type :=
| Request (caller : nat)
| Tick.

Definition act (w : World) (a : Action) : World :=
  match a with
  | Request caller => callGet caller w
  | Tick => tick w
  end.

Definition runSchedule (schedule : list Action) (w : World) : World :=
  foldl act w schedule.

(** The queue run until it is empty ([fuel] bounds the number of
    turns). *)
Fixpoint drain (fuel : nat) (w : World) : World :=
  match fuel with
  | O => w
  | S n => match jobs w with [] => w | _ => drain n (tick w) end
  end.

(** the opening line that every run of the body of [initialize]
    prints *)
Definition is_initializing (ev : console_event) : bool :=
  match ev with
  | ConsoleLog msg => String.eqb msg "Initializing web-features mappings..."
  | _ => false
  end.

(** the number of runs of the body of [initialize] *)
Definition initializations (w : World) : nat :=
  length (filter (fun ev => is_initializing ev = true) (console w)).

End Singleton.

(** The keys that the entry writes into the index: its id and its compat
    keys when its baseline status is ['high'] or ['low'], none otherwise
    (used to state which entry wrote a key last). *)
Definition entry_keys (entry : string * Feature) : list string :=
  match status entry.2 with
  | Some st =>
      if status_truthy st
      then entry.1 :: default [] (compat_features entry.2)
      else []
  | None => []
  end.

(** The invariant of the singleton: no initialization has run while
    [mapperInstance] is unset, and at most one once it is set. *)
Definition once (w : World) : Prop :=
  match mapperInstance w with
  | None => initializations w = 0
  | Some _ => initializations w <= 1
  end.

(** The input error that the checks at the head of a parser raise for
    [filePath], if any: the file does not exist, or it is larger than
    [MAX_FILE_SIZE] (used to state what the file loop does with it). *)
Definition input_error (fs : string -> option FileEntry) (filePath : string)
  : option JsError :=
  match fs filePath with
  | None => Some (FileSystemError ("File not found: " +:+ filePath) filePath)
  | Some stats =>
      if (MAX_FILE_SIZE <? size stats)%N
      then Some (FileSizeError filePath (size stats) MAX_FILE_SIZE)
      else None
  end.

(** The extension of [filePath] is one that [parseFile] has a parser
    for. *)
Definition has_parser (filePath : string) : bool :=
  is_one_of (Js.toLowerCase (last_segment filePath))
    ["css"; "scss"; "sass"; "less"; "js"; "ts"; "jsx"; "tsx"; "html"; "htm"].

(* ================================================================== *)
(** * Key lookup by generated patterns (utils index) *)
(* ================================================================== *)

(** [{ ...match, compatFeature: pattern }]: the record found in the
    index and the generated key that found it. *)
Record FoundFeature : Type := mkFound {
  found : IndexRecord;
  found_key : string
}.

(** [for (const pattern of patterns) { const match = index.get(pattern);
    if (match) return { ...match, compatFeature: pattern }; } return
    null;] *)
Fixpoint firstIndexed (index : Index) (patterns : list string)
  : option FoundFeature :=
  match patterns with
  | [] => None
  | pattern :: patterns' =>
      match index !! pattern with
      | Some m => Some (mkFound m pattern)
      | None => firstIndexed index patterns'
      end
  end.

(** [value || ''] for an optional string argument *)
Definition or_empty (value : option string) : string :=
  match value with
  | Some v => v
  | None => EmptyString
  end.

Definition findCSSFeature (features : Dataset) (property : string)
    (value : option string) (cell : IndexCell)
  : option FoundFeature * IndexCell :=
  let '(index, cell) := getCompatFeaturesIndex features cell in
  let patterns :=
    generatePatterns CSS_PATTERN_TEMPLATES
      [("property", property); ("value", or_empty value)] in
  (firstIndexed index patterns, cell).

Definition findHTMLFeature (features : Dataset) (elementName : string)
    (attribute : option string) (cell : IndexCell)
  : option FoundFeature * IndexCell :=
  let '(index, cell) := getCompatFeaturesIndex features cell in
  let patterns :=
    generatePatterns HTML_PATTERN_TEMPLATES
      [("elementName", elementName); ("attribute", or_empty attribute)] in
  (firstIndexed index patterns, cell).

(** The exact-match phase of [findJSFeature] (its fallback sorts the
    keys of the index with [localeCompare] and is not modelled). *)
Definition findJSFeatureExact (features : Dataset) (apiName : string)
    (cell : IndexCell) : option FoundFeature * IndexCell :=
  let '(index, cell) := getCompatFeaturesIndex features cell in
  let patterns := generatePatterns JS_PATTERN_TEMPLATES [("apiName", apiName)] in
  (firstIndexed index patterns, cell).

(** No dollar sign occurs in [s]. *)
Fixpoint dollar_free (s : string) : bool :=
  match s with
  | EmptyString => true
  | String c s' => negb (Ascii.eqb c "$") && dollar_free s'
  end.

(* ================================================================== *)
(** * The options of the check command (commands/check) *)
(* ================================================================== *)

Inductive Format : Type := FormatConsole | FormatJson | FormatHtml | FormatText.

(** [format === 'json' || format === 'html' || format === 'text' ||
    format === 'console'] *)
Definition valid_format (s : string) : option Format :=
  if String.eqb s "json" then Some FormatJson
  else if String.eqb s "html" then Some FormatHtml
  else if String.eqb s "text" then Some FormatText
  else if String.eqb s "console" then Some FormatConsole
  else None.

(** The object that [parseCheckOptions] fills. *)
Record ParsedOptions : Type := mkParsed {
  opt_path : option string;
  opt_strict : bool;
  opt_format : Format;
  opt_quiet : bool;
  opt_verbose : bool
}.

Definition defaultParsed : ParsedOptions :=
  mkParsed None false FormatConsole false false.

(** [!options.path]: an unset path and the empty path are both falsy. *)
Definition path_unset (o : ParsedOptions) : bool :=
  match opt_path o with
  | Some p => negb (Js.truthy p)
  | None => true
  end.

(** The [for] loop of [parseCheckOptions] from the current argument on.
    A valid value after [--format] is skipped ([i++]); an invalid one is
    read again as an argument of its own.  (The compiled copy of the
    command lacks the skip.) *)
Fixpoint parseCheckOptionsFrom (args : list string) (o : ParsedOptions)
  : ParsedOptions :=
  match args with
  | [] => o
  | arg :: rest =>
      if String.eqb arg "--strict" then
        parseCheckOptionsFrom rest
          (mkParsed (opt_path o) true (opt_format o) (opt_quiet o) (opt_verbose o))
      else if String.eqb arg "--format" then
        match rest with
        | value :: rest' =>
            match valid_format value with
            | Some f =>
                parseCheckOptionsFrom rest'
                  (mkParsed (opt_path o) (opt_strict o) f (opt_quiet o) (opt_verbose o))
            | None => parseCheckOptionsFrom rest o
            end
        | [] => o
        end
      else if String.eqb arg "--quiet" then
        parseCheckOptionsFrom rest
          (mkParsed (opt_path o) (opt_strict o) (opt_format o) true (opt_verbose o))
      else if String.eqb arg "--verbose" then
        parseCheckOptionsFrom rest
          (mkParsed (opt_path o) (opt_strict o) (opt_format o) (opt_quiet o) true)
      else if negb (Js.startsWith arg "--") && path_unset o then
        parseCheckOptionsFrom rest
          (mkParsed (Some arg) (opt_strict o) (opt_format o) (opt_quiet o) (opt_verbose o))
      else parseCheckOptionsFrom rest o
  end.

Definition parseCheckOptions (args : list string) : ParsedOptions :=
  parseCheckOptionsFrom args defaultParsed.

(** The options that the file loop reads. *)
Definition loopOptions (o : ParsedOptions) : CheckOptions :=
  mkOptions (opt_strict o) (opt_quiet o) (opt_verbose o).

(** [r] is the record that some ['high'] or ['low'] entry of [features]
    writes under the key [k] (used to state where the bindings of the
    index come from). *)
Definition record_of (k : string) (r : IndexRecord) (features : Dataset) : Prop :=
  exists id f st,
    (id, f) ∈ features /\ status f = Some st /\ status_truthy st = true /\
    k ∈ id :: default [] (compat_features f) /\
    r = mkIndexRecord st (name_or_id f id) id.

(** A template seen as its pieces: literal text and placeholders (used
    to state what substitution does to a template). *)
Inductive piece : Type :=
| Text (s : string)
| Hole (key : string).

(** the text of the placeholder for [key] in a template *)
Definition placeholder (key : string) : string := "${" +:+ key +:+ "}".

Definition render_piece (p : piece) : string :=
  match p with
  | Text s => s
  | Hole key => placeholder key
  end.

Fixpoint render (ps : list piece) : string :=
  match ps with
  | [] => EmptyString
  | p :: ps' => render_piece p +:+ render ps'
  end.

(** every placeholder for [key] replaced by the text [value] *)
Definition fill (key value : string) (ps : list piece) : list piece :=
  map (fun p =>
         match p with
         | Hole k => if String.eqb k key then Text value else p
         | Text _ => p
         end)
      ps.

Definition fillAll (replacements : list (string * string)) (ps : list piece)
  : list piece :=
  foldl (fun ps '(key, value) => fill key value ps) ps replacements.

(** a name made of word characters *)
Fixpoint word_string (s : string) : bool :=
  match s with
  | EmptyString => true
  | String c s' => Js.is_word c && word_string s'
  end.

(** literal text without a dollar sign, placeholders with word names *)
Definition clean_piece (p : piece) : bool :=
  match p with
  | Text s => dollar_free s
  | Hole key => word_string key
  end.

Definition is_hole (p : piece) : bool :=
  match p with Hole _ => true | Text _ => false end.

(* ================================================================== *)
(** * Notions used to state the further properties *)
(* ================================================================== *)

(** word keys, values without a dollar sign *)
Definition clean_replacement (r : string * string) : bool :=
  word_string r.1 && dollar_free r.2.

(** the character [c] occurs in [t] *)
Fixpoint char_in (c : ascii) (t : string) : bool :=
  match t with
  | EmptyString => false
  | String d t' => Ascii.eqb d c || char_in c t'
  end.

(** the keys of the placeholders of a template *)
Definition holes (ps : list piece) : list string :=
  omap (fun p => match p with Hole k => Some k | Text _ => None end) ps.

(** a value is supplied for the key [k] *)
Definition supplied (replacements : list (string * string)) (k : string) : bool :=
  existsb (String.eqb k) (map fst replacements).

(** The three template lists, piece by piece. *)
Definition CSS_PIECES : list (list piece) :=
  [ [Text "css.properties."; Hole "property"];
    [Text "css.properties."; Hole "property"; Text "."; Hole "value"];
    [Text "css.properties.display."; Hole "value"];
    [Text "css.at-rules."; Hole "property"];
    [Text "css.at-rules."; Hole "property"; Text "."; Hole "value"];
    [Text "css.selectors."; Hole "property"];
    [Text "css.selectors."; Hole "property"; Text "."; Hole "value"];
    [Text "css.types."; Hole "property"];
    [Text "css.types."; Hole "property"; Text "."; Hole "value"] ].

Definition JS_PIECES : list (list piece) :=
  [ [Text "api."; Hole "apiName"];
    [Text "api."; Hole "apiName"; Text "."; Hole "apiName"];
    [Text "javascript.builtins."; Hole "apiName"];
    [Text "javascript.builtins."; Hole "apiName"; Text "."; Hole "apiName"];
    [Text "javascript.statements."; Hole "apiName"];
    [Text "javascript.operators."; Hole "apiName"];
    [Text "javascript.functions."; Hole "apiName"];
    [Text "javascript.classes."; Hole "apiName"];
    [Text "javascript.grammar."; Hole "apiName"];
    [Text "javascript.builtins.globalThis."; Hole "apiName"];
    [Text "webapi."; Hole "apiName"] ].

Definition HTML_PIECES : list (list piece) :=
  [ [Text "html.elements."; Hole "elementName"];
    [Text "html.elements."; Hole "elementName"; Text "."; Hole "attribute"];
    [Text "html.global_attributes."; Hole "attribute"] ].

(** What [convertToFeatureResult] keeps of a detected feature. *)
Definition converted (d : DetectedFeature) (r : FeatureResult) : Prop :=
  feature r = df_name d /\
  fr_line r = Some (df_line d) /\ fr_column r = Some (df_column d) /\
  severity r = severity_of (fr_status r) /\
  fixable r = Some false.

(** The counts and the verdict of a file result agree with its feature
    list ([strict] is [options.strict]). *)
Definition counted (strict : bool) (r : BaselineResult) : Prop :=
  br_errors r = length (filter (fun f => is_error f = true) (br_features r)) /\
  br_warnings r = length (filter (fun f => is_warn f = true) (br_features r)) /\
  br_passed r
  = Nat.eqb (br_errors r) 0 && (if strict then Nat.eqb (br_warnings r) 0 else true).

(** [parseCheckOptions] of the compiled copy of the check command: as
    the source, but without the skip of the format value, which is read
    again as an argument of its own. *)
Fixpoint parseCheckOptionsCompiledFrom (args : list string) (o : ParsedOptions)
  : ParsedOptions :=
  match args with
  | [] => o
  | arg :: rest =>
      if String.eqb arg "--strict" then
        parseCheckOptionsCompiledFrom rest
          (mkParsed (opt_path o) true (opt_format o) (opt_quiet o) (opt_verbose o))
      else if String.eqb arg "--format" then
        match rest with
        | value :: _ =>
            match valid_format value with
            | Some f =>
                parseCheckOptionsCompiledFrom rest
                  (mkParsed (opt_path o) (opt_strict o) f (opt_quiet o) (opt_verbose o))
            | None => parseCheckOptionsCompiledFrom rest o
            end
        | [] => o
        end
      else if String.eqb arg "--quiet" then
        parseCheckOptionsCompiledFrom rest
          (mkParsed (opt_path o) (opt_strict o) (opt_format o) true (opt_verbose o))
      else if String.eqb arg "--verbose" then
        parseCheckOptionsCompiledFrom rest
          (mkParsed (opt_path o) (opt_strict o) (opt_format o) (opt_quiet o) true)
      else if negb (Js.startsWith arg "--") && path_unset o then
        parseCheckOptionsCompiledFrom rest
          (mkParsed (Some arg) (opt_strict o) (opt_format o) (opt_quiet o) (opt_verbose o))
      else parseCheckOptionsCompiledFrom rest o
  end.

Definition parseCheckOptionsCompiled (args : list string) : ParsedOptions :=
  parseCheckOptionsCompiledFrom args defaultParsed.

(** [options.path || process.cwd()] *)
Definition targetPath (o : ParsedOptions) (cwd : string) : string :=
  match opt_path o with
  | Some p => if Js.truthy p then p else cwd
  | None => cwd
  end.

(** an argument that can become the path: non-empty and not starting
    with two dashes *)
Definition is_operand (arg : string) : bool :=
  negb (Js.startsWith arg "--") && Js.truthy arg.

(** the two option records agree on the switches and on the format *)
Definition same_switches (o o' : ParsedOptions) : Prop :=
  opt_strict o = opt_strict o' /\ opt_format o = opt_format o' /\
  opt_quiet o = opt_quiet o' /\ opt_verbose o = opt_verbose o'.

(** the compat key [cf] is listed by some entry of the dataset *)
Definition listed (features : Dataset) (cf : string) : Prop :=
  exists id f cfs, (id, f) ∈ features /\ compat_features f = Some cfs /\ cf ∈ cfs.

(** the entry [id] of the dataset lists a key [css.properties.*] that
    [buildCSSMappings] stores under the name [property] *)
Definition css_property_of (features : Dataset) (property id : string) : Prop :=
  exists f cfs cf,
    (id, f) ∈ features /\ compat_features f = Some cfs /\ cf ∈ cfs /\
    Js.startsWith cf "css.properties." = true /\
    property = Js.underscores_to_dashes (Js.remove_first cf "css.properties.").

(* ================================================================== *)
(** * The key generator on an arbitrary substitution record *)
(* ================================================================== *)

(** [generatePatterns] splices the key into the pattern source as it is:
    [new RegExp(`\\$\\{${key}\\}`, 'g')].  For a key of word characters
    the pattern matches exactly the text of the placeholder, which is
    what [replacePlaceholder] computes.  Any other key is read as pattern
    source; what the engine then does is a parameter, except where the
    constructor is known to throw. *)








(* ================================================================== *)
(** * Sample data *)
(* ================================================================== *)

(** A small dataset in the shape of the [web-features] package. *)
Definition sampleDataset : Dataset :=
  [ ("container-queries",
     mkFeature (Some "Container queries") (Some Low)
       (Some ["css.at-rules.container"; "css.properties.container-name"]));
    ("backdrop-filter",
     mkFeature (Some "backdrop-filter") (Some Low)
       (Some ["css.properties.backdrop-filter"]));
    ("appearance",
     mkFeature (Some "appearance") (Some High)
       (Some ["css.properties.appearance"]));
    ("fetch-api",
     mkFeature (Some "Fetch") (Some High) (Some ["api.fetch"; "api.Response"]));
    ("has",
     mkFeature (Some ":has()") (Some Low) (Some ["css.selectors.has"]));
    ("dialog",
     mkFeature (Some "<dialog>") (Some High)
       (Some ["html.elements.dialog"; "css.selectors.backdrop"]));
    ("accent-color",
     mkFeature (Some "accent-color") (Some NotBaseline)
       (Some ["css.properties.accent-color"])) ].

(** The mapper after [await mapper.initialize()] on the sample dataset. *)
Definition sampleMapper : WebFeaturesMapper :=
  match initialize sampleDataset newMapper with
  | Some (m, _) => m
  | None => newMapper
  end.

(** Scenario F of the design document: the rule for [fetch] is [off]. *)
Definition sampleConfig : BaselineConfig :=
  mkConfig {[ "fetch" := RuleOff ]} TargetHigh.

Definition sampleResults : list FeatureResult :=
  [ mkResult "fetch" High SevInfo (Some 4) (Some 9)
      "fetch() - fetch is fully baseline" (Some false);
    mkResult "has" Low SevWarn (Some 7) (Some 1)
      "CSS Selector: a:has(b) - has is newly baseline" (Some false) ].

(** A directory with one style sheet of 10 MiB + 1 byte and one small
    one. *)
Definition sampleFs (filePath : string) : option FileEntry :=
  if String.eqb filePath "big.css" then Some (mkFile 10485761 (inl ""))
  else if String.eqb filePath "ok.css"
  then Some (mkFile 25 (inl "a:has(b) { color: red; }"))
  else None.

(** A language server that finds one [:has()] selector in every
    non-empty style sheet. *)
Definition sampleParser (language : Language) (content filePath : string)
  : ParseResult + string :=
  inl (mkParseResult
         (if Js.truthy content
          then [mkDetected "has" language 1 1 "CSS Selector: a:has(b)" ConfHigh]
          else [])
         []).

Definition sampleOptions : CheckOptions := mkOptions false false false.

(* ================================================================== *)
(** * Facts about the string primitives *)
(* ================================================================== *)

(** [t] occurs in [s] *)
Definition occurs_in (t s : string) : Prop :=
  exists a b : string, s = a +:+ t +:+ b.

Lemma startsWith_true (s p : string) :
  Js.startsWith s p = true <-> exists b, s = p +:+ b.
Proof.
  revert s. induction p as [|a p IH]; intros s; simpl.
  - split; [intros _; exists s; reflexivity | reflexivity].
  - destruct s as [|c s].
    + split; [discriminate | intros [b Hb]; discriminate].
    + rewrite andb_true_iff, Ascii.eqb_eq, IH. split.
      * intros [-> [b ->]]. exists b. reflexivity.
      * intros [b Hb]. injection Hb as -> ->. split; [reflexivity | eauto].
Qed.

Lemma includes_true (s t : string) :
  Js.includes s t = true <-> occurs_in t s.
Proof.
  unfold occurs_in. induction s as [|c s IH]; simpl.
  - rewrite orb_false_r, startsWith_true. split.
    + intros [b Hb]. exists EmptyString, b. exact Hb.
    + intros [a [b Hab]]. destruct a; simpl in Hab.
      * exists b. exact Hab.
      * discriminate.
  - rewrite orb_true_iff, IH, startsWith_true. split.
    + intros [[b Hb] | [a [b Hab]]].
      * exists EmptyString, b. exact Hb.
      * exists (String c a), b. simpl. rewrite Hab. reflexivity.
    + intros [a [b Hab]]. destruct a as [|c' a]; simpl in Hab.
      * left. exists b. exact Hab.
      * right. injection Hab as -> ->. exists a, b. reflexivity.
Qed.

Lemma includes_false (s t : string) :
  Js.includes s t = false <-> ~ occurs_in t s.
Proof.
  rewrite <- includes_true. destruct (Js.includes s t); split; intros H;
    try reflexivity; try discriminate; try (intros H'; discriminate).
  exfalso. apply H. reflexivity.
Qed.

Lemma elem_of_set_spread (l : list string) (x : string) :
  x ∈ Js.set_spread l <-> x ∈ l.
Proof.
  induction l as [|y l IH]; simpl.
  - reflexivity.
  - rewrite !elem_of_cons, list_elem_of_filter, IH.
    destruct (decide (x = y)) as [->|Hne]; [tauto|].
    split; [intros [?|[_ ?]]; auto | intros [?|?]; auto].
Qed.

Lemma NoDup_set_spread (l : list string) : NoDup (Js.set_spread l).
Proof.
  induction l as [|y l IH]; simpl.
  - constructor.
  - constructor.
    + rewrite list_elem_of_filter. intros [Hne _]. apply Hne. reflexivity.
    + apply NoDup_filter. exact IH.
Qed.

Lemma get_truthy_None (m : gmap string string) (k : string) :
  m !! k = None -> Js.get_truthy m k = None.
Proof. unfold Js.get_truthy. intros ->. reflexivity. Qed.

(* ================================================================== *)
(** * The feature mapper *)
(* ================================================================== *)

(** The capture functions agree with the patterns they stand for on
    whether there is a match, and pick the leftmost, longest path. *)
Example match_method_call_samples :
  map RegExp.match_method_call
    ["fetch(url)"; "x = window.navigator.share (data)"; "a.b. (x) c.d  ("; "a..b("; "f ."; ""]
  = [Some "fetch"; Some "window.navigator.share"; Some "c.d"; Some "b"; None; None] /\
  map (RegExp.test pat_method_call)
    ["fetch(url)"; "x = window.navigator.share (data)"; "a.b. (x) c.d  ("; "a..b("; "f ."; ""]
  = [true; true; true; true; false; false].
Proof. split; vm_compute; reflexivity. Qed.

Example match_new_call_samples :
  map RegExp.match_new_call
    ["new ResizeObserver(cb)"; "renew   Map()"; "newMap()"; "new (x)"; "x = new  Foo.Bar"]
  = [Some "ResizeObserver"; Some "Map"; None; None; Some "Foo"] /\
  map (RegExp.test pat_new_call)
    ["new ResizeObserver(cb)"; "renew   Map()"; "newMap()"; "new (x)"; "x = new  Foo.Bar"]
  = [true; true; false; false; true].
Proof. split; vm_compute; reflexivity. Qed.

Lemma strip_vendor_prefix_webkit (u : string) :
  strip_vendor_prefix ("-webkit-" +:+ u) = u.
Proof. reflexivity. Qed.

Lemma strip_vendor_prefix_moz (u : string) :
  strip_vendor_prefix ("-moz-" +:+ u) = u.
Proof. reflexivity. Qed.

Lemma strip_vendor_prefix_ms (u : string) :
  strip_vendor_prefix ("-ms-" +:+ u) = u.
Proof. reflexivity. Qed.

Lemma strip_vendor_prefix_o (u : string) :
  strip_vendor_prefix ("-o-" +:+ u) = u.
Proof. reflexivity. Qed.

(** A property name without an entry of its own resolves like the name
    with one vendor prefix stripped. *)
Lemma mapCSSProperty_absent (m : WebFeaturesMapper) (p : string) :
  initialized m = true ->
  cssProperties (mappings m) !! p = None ->
  mapCSSProperty m p =
  silent (Js.get_truthy (cssProperties (mappings m)) (strip_vendor_prefix p)).
Proof.
  intros Hi Hp. unfold mapCSSProperty. rewrite Hi. simpl.
  rewrite (get_truthy_None _ _ Hp). reflexivity.
Qed.

(** A property name that carries no vendor prefix resolves by its own
    entry alone. *)
Lemma mapCSSProperty_unprefixed (m : WebFeaturesMapper) (u : string) :
  initialized m = true ->
  strip_vendor_prefix u = u ->
  mapCSSProperty m u = silent (Js.get_truthy (cssProperties (mappings m)) u).
Proof.
  intros Hi Hu. unfold mapCSSProperty. rewrite Hi, Hu. simpl.
  destruct (Js.get_truthy (cssProperties (mappings m)) u); reflexivity.
Qed.

(** Every query of an uninitialized mapper answers "no match"; only
    [mapCSSProperty] writes a warning. *)
Lemma uninitialized_queries (m : WebFeaturesMapper) (token : string) :
  initialized m = false ->
  mapCSSProperty m token = (None, [ConsoleWarn "WebFeaturesMapper not initialized"]) /\
  mapCSSSelector m token = ([], []) /\
  mapCSSAtRule m token = (None, []) /\
  mapJSProperty m token = (None, []) /\
  mapJSMethod m token = (None, []) /\
  mapJSConstructor m token = (None, []) /\
  mapHTMLElement m token = (None, []) /\
  mapHTMLAttribute m token = (None, []).
Proof.
  intros Hi.
  unfold mapCSSProperty, mapCSSSelector, mapCSSAtRule, mapJSProperty, mapJSMethod,
    mapJSConstructor, mapHTMLElement, mapHTMLAttribute.
  rewrite Hi. simpl. repeat split.
Qed.

(** C1, as amended.  On an initialized mapper, [mapCSSProperty],
    [mapJSProperty], [mapJSMethod], [mapJSConstructor] and
    [mapHTMLElement] return the direct match [d] whenever there is one,
    whatever the enhanced table holds, and [mapCSSSelector] lists it.
    [mapCSSAtRule] goes the other way round: it returns the first entry
    that the enhanced table has under the key ["@" + atRule], and falls
    back on the direct at-rule index only when there is no such entry. *)
Theorem C1_direct_match_precedence (m : WebFeaturesMapper) (token d : string) :
  initialized m = true ->
  (Js.get_truthy (cssProperties (mappings m)) token = Some d ->
   (mapCSSProperty m token).1 = Some d) /\
  (Js.get_truthy (jsAPIs (mappings m)) (Js.toLowerCase token) = Some d ->
   (mapJSProperty m token).1 = Some d) /\
  (directJSMethod m token = Some d -> (mapJSMethod m token).1 = Some d) /\
  (directJSConstructor m token = Some d -> (mapJSConstructor m token).1 = Some d) /\
  (Js.get_truthy (htmlElements (mappings m)) (Js.toLowerCase token) = Some d ->
   (mapHTMLElement m token).1 = Some d) /\
  (Js.get_truthy (cssSelectors (mappings m)) token = Some d ->
   d ∈ (mapCSSSelector m token).1) /\
  (forall e es,
     OrderedMap.get ("@" +:+ token) (enhancedMappings m) = Some (e :: es) ->
     (mapCSSAtRule m token).1 = Some (compatFeature e)) /\
  (OrderedMap.get ("@" +:+ token) (enhancedMappings m) = None \/
   OrderedMap.get ("@" +:+ token) (enhancedMappings m) = Some [] ->
   (mapCSSAtRule m token).1 = Js.get_truthy (cssAtRules (mappings m)) token).
Proof.
  intros Hi.
  unfold mapCSSProperty, mapJSProperty, mapJSMethod, mapJSConstructor,
    mapHTMLElement, mapCSSSelector, mapCSSAtRule.
  rewrite Hi. simpl.
  repeat split.
  - intros ->. reflexivity.
  - intros ->. reflexivity.
  - intros ->. reflexivity.
  - intros ->. reflexivity.
  - intros ->. reflexivity.
  - intros ->. simpl. apply elem_of_set_spread, elem_of_app. right.
    apply list_elem_of_singleton. reflexivity.
  - intros e es ->. reflexivity.
  - intros [-> | ->]; reflexivity.
Qed.

(** An instance of C1 on the sample mapper: the call [fetch(url)] has the
    direct match [fetch-api] (key [fetch] of the API table) and matches
    the enhanced [fetch] pattern; the direct match is returned. *)
Lemma C1_direct_match_precedence_witness :
  findEnhancedJSMapping (enhancedMappings sampleMapper) "fetch(url)" = Some "fetch" /\
  (mapJSMethod sampleMapper "fetch(url)").1 = Some "fetch-api".
Proof.
  split.
  - vm_compute. reflexivity.
  - apply (C1_direct_match_precedence sampleMapper "fetch(url)" "fetch-api").
    + vm_compute. reflexivity.
    + vm_compute. reflexivity.
Defined.

(** C1 as stated fails for [mapCSSAtRule]: on the sample mapper the
    at-rule [container] has the direct match [container-queries] and an
    entry in the enhanced table, and the call returns the enhanced
    feature, not the direct match. *)
Lemma C1_counterexample :
  initialized sampleMapper = true /\
  Js.get_truthy (cssAtRules (mappings sampleMapper)) "container"
    = Some "container-queries" /\
  (exists e, OrderedMap.get "@container" (enhancedMappings sampleMapper) = Some [e] /\
             compatFeature e = "css-container-queries" /\
             pattern_matches e "@container" = true) /\
  (mapCSSAtRule sampleMapper "container").1 = Some "css-container-queries" /\
  (mapCSSAtRule sampleMapper "container").1 <> Some "container-queries".
Proof.
  split; [vm_compute; reflexivity|].
  split; [vm_compute; reflexivity|].
  split.
  - eexists. split; [vm_compute; reflexivity|]. split; vm_compute; reflexivity.
  - split; [vm_compute; reflexivity|]. vm_compute. discriminate.
Qed.

(** C2, as amended.  For a property name [prefix + u], with [prefix] one
    of the four vendor prefixes, that has no entry of its own in the
    property index and whose remainder [u] does not itself start with a
    vendor prefix, [mapCSSProperty] gives the same result on the prefixed
    and on the unprefixed name. *)
Theorem C2_vendor_prefix_equivalence (m : WebFeaturesMapper) (prefix u : string) :
  prefix ∈ ["-webkit-"; "-moz-"; "-ms-"; "-o-"] ->
  cssProperties (mappings m) !! (prefix +:+ u) = None ->
  strip_vendor_prefix u = u ->
  mapCSSProperty m (prefix +:+ u) = mapCSSProperty m u.
Proof.
  intros Hp Hnone Hu.
  destruct (initialized m) eqn:Hi.
  - rewrite (mapCSSProperty_absent m _ Hi Hnone).
    rewrite (mapCSSProperty_unprefixed m u Hi Hu).
    f_equal. f_equal.
    repeat (apply elem_of_cons in Hp as [-> | Hp]); [reflexivity ..|].
    apply elem_of_nil in Hp. contradiction.
  - destruct (uninitialized_queries m (prefix +:+ u) Hi) as [-> _].
    destruct (uninitialized_queries m u Hi) as [-> _].
    reflexivity.
Qed.

(** The instance of C2 that the design document names, on the sample
    mapper: [-webkit-backdrop-filter] and [backdrop-filter] resolve to the
    same feature. *)
Lemma C2_vendor_prefix_equivalence_witness :
  mapCSSProperty sampleMapper "-webkit-backdrop-filter" =
  mapCSSProperty sampleMapper "backdrop-filter" /\
  (mapCSSProperty sampleMapper "backdrop-filter").1 = Some "backdrop-filter".
Proof.
  split.
  - apply (C2_vendor_prefix_equivalence sampleMapper "-webkit-" "backdrop-filter").
    + apply elem_of_cons. left. reflexivity.
    + vm_compute. reflexivity.
    + vm_compute. reflexivity.
  - vm_compute. reflexivity.
Defined.

(** C2 as stated fails when the remainder carries a vendor prefix of its
    own: [-webkit--moz-appearance] has the prefix [-webkit-] and no entry
    in the index; on it [mapCSSProperty] finds nothing, while on the
    unprefixed name [-moz-appearance] it finds [appearance]. *)
Lemma C2_counterexample :
  cssProperties (mappings sampleMapper) !! "-webkit--moz-appearance" = None /\
  (mapCSSProperty sampleMapper "-webkit--moz-appearance").1 = None /\
  (mapCSSProperty sampleMapper "-moz-appearance").1 = Some "appearance".
Proof. repeat split; vm_compute; reflexivity. Qed.

(** C7 at the failing input.  On a fresh, uninitialized mapper every
    query answers "no match", but only [mapCSSProperty] writes the
    warning: the other seven queries write nothing to the console. *)
Theorem C7_uninitialized_warning_only_for_css_property :
  initialized newMapper = false /\
  mapCSSProperty newMapper "display"
    = (None, [ConsoleWarn "WebFeaturesMapper not initialized"]) /\
  mapCSSSelector newMapper "a:has(b)" = ([], []) /\
  mapCSSAtRule newMapper "container" = (None, []) /\
  mapJSProperty newMapper "navigator.clipboard" = (None, []) /\
  mapJSMethod newMapper "fetch(url)" = (None, []) /\
  mapJSConstructor newMapper "new ResizeObserver(cb)" = (None, []) /\
  mapHTMLElement newMapper "dialog" = (None, []) /\
  mapHTMLAttribute newMapper "popover" = (None, []).
Proof.
  split; [reflexivity|].
  pose proof (fun t => uninitialized_queries newMapper t eq_refl) as H.
  destruct (H "display") as (-> & _).
  destruct (H "a:has(b)") as (_ & -> & _).
  destruct (H "container") as (_ & _ & -> & _).
  destruct (H "navigator.clipboard") as (_ & _ & _ & -> & _).
  destruct (H "fetch(url)") as (_ & _ & _ & _ & -> & _).
  destruct (H "new ResizeObserver(cb)") as (_ & _ & _ & _ & _ & -> & _).
  destruct (H "dialog") as (_ & _ & _ & _ & _ & _ & -> & _).
  destruct (H "popover") as (_ & _ & _ & _ & _ & _ & _ & ->).
  repeat split.
Qed.

(** C10.  The list that [mapCSSSelector] returns has no duplicates,
    whatever the tables of the mapper hold. *)
Theorem C10_mapCSSSelector_NoDup (m : WebFeaturesMapper) (selector : string) :
  NoDup (mapCSSSelector m selector).1.
Proof.
  unfold mapCSSSelector.
  destruct (negb (initialized m)); simpl.
  - constructor.
  - apply NoDup_set_spread.
Qed.

(** An instance of C10 where the same feature is pushed twice (by the
    [::backdrop] pattern and by the [<dialog] pattern) and listed once. *)
Example mapCSSSelector_dedupes :
  enhancedFeatures (enhancedMappings sampleMapper) "<dialog>::backdrop"
    = ["dialog"; "dialog"] /\
  (mapCSSSelector sampleMapper "<dialog>::backdrop").1 = ["dialog"].
Proof. split; vm_compute; reflexivity. Qed.

(* ================================================================== *)
(** * The key generator *)
(* ================================================================== *)










(** The filter drops nothing else: a substituted template free of both
    texts is returned. *)
Lemma generatePatterns_keeps (templates : list string)
    (replacements : list (string * string)) (t : string) :
  t ∈ templates ->
  ~ occurs_in "${" (substitute replacements t) ->
  ~ occurs_in "undefined" (substitute replacements t) ->
  substitute replacements t ∈ generatePatterns templates replacements.
Proof.
  intros Ht H1 H2. unfold generatePatterns.
  apply list_elem_of_filter. split.
  - apply includes_false in H1, H2. rewrite H1, H2. reflexivity.
  - apply list_elem_of_fmap. exists t. split; [reflexivity | exact Ht].
Qed.

(** A value that brings the placeholder text back in (the replacement
    pattern for "the matched text") leaves only the templates that do not
    use it. *)
Example generatePatterns_value_with_placeholder :
  generatePatterns CSS_PATTERN_TEMPLATES [("property", "$&"); ("value", "grid")]
    = ["css.properties.display.grid"].
Proof. vm_compute. reflexivity. Qed.

Example generatePatterns_display_grid :
  generatePatterns CSS_PATTERN_TEMPLATES [("property", "display"); ("value", "grid")]
    = [ "css.properties.display"; "css.properties.display.grid";
        "css.properties.display.grid"; "css.at-rules.display";
        "css.at-rules.display.grid"; "css.selectors.display";
        "css.selectors.display.grid"; "css.types.display";
        "css.types.display.grid" ].
Proof. vm_compute. reflexivity. Qed.

(* ================================================================== *)
(** * The dataset index *)
(* ================================================================== *)

Lemma setCompatFeatures_lookup (r : IndexRecord) (cfs : list string) (idx : Index)
    (k : string) :
  setCompatFeatures r cfs idx !! k = if decide (k ∈ cfs) then Some r else idx !! k.
Proof.
  unfold setCompatFeatures. revert idx.
  induction cfs as [|cf cfs IH]; intros idx; simpl.
  - destruct (decide (k ∈ [])) as [H|_]; [|reflexivity].
    apply elem_of_nil in H. contradiction.
  - rewrite IH. destruct (decide (k ∈ cfs)) as [Hin|Hnin].
    + rewrite decide_True; [reflexivity | apply elem_of_cons; auto].
    + destruct (decide (k = cf)) as [->|Hne].
      * rewrite decide_True; [apply lookup_insert_eq | apply elem_of_cons; auto].
      * rewrite decide_False.
        -- apply lookup_insert_ne. congruence.
        -- rewrite elem_of_cons. tauto.
Qed.

(** An entry leaves alone every key that is not one of its own. *)
Lemma indexEntry_other (idx : Index) (entry : string * Feature) (k : string) :
  k ∉ entry_keys entry -> indexEntry idx entry !! k = idx !! k.
Proof.
  destruct entry as [id f]. unfold entry_keys, indexEntry. simpl.
  destruct (status f) as [st|]; [|reflexivity].
  destruct (status_truthy st); [|reflexivity].
  rewrite elem_of_cons. intros Hk.
  destruct (compat_features f) as [cfs|]; simpl in Hk.
  - rewrite setCompatFeatures_lookup, decide_False by tauto.
    apply lookup_insert_ne. intros ->. tauto.
  - apply lookup_insert_ne. intros ->. tauto.
Qed.

(** An entry with baseline status ['high'] or ['low'] binds each of its
    keys to its own record. *)
Lemma indexEntry_own (idx : Index) (id : string) (f : Feature)
    (st : BaselineStatus) (k : string) :
  status f = Some st ->
  status_truthy st = true ->
  k ∈ id :: default [] (compat_features f) ->
  indexEntry idx (id, f) !! k = Some (mkIndexRecord st (name_or_id f id) id).
Proof.
  intros Hst Ht Hk. unfold indexEntry. rewrite Hst, Ht.
  destruct (compat_features f) as [cfs|]; simpl in Hk.
  - rewrite setCompatFeatures_lookup.
    destruct (decide (k ∈ cfs)) as [_|Hnin]; [reflexivity|].
    apply elem_of_cons in Hk as [->|Hk]; [apply lookup_insert_eq | contradiction].
  - apply elem_of_cons in Hk as [->|Hk]; [apply lookup_insert_eq|].
    apply elem_of_nil in Hk. contradiction.
Qed.

Lemma foldl_indexEntry_other (features : Dataset) (idx : Index) (k : string) :
  (forall e, e ∈ features -> k ∉ entry_keys e) ->
  foldl indexEntry idx features !! k = idx !! k.
Proof.
  revert idx. induction features as [|e features IH]; intros idx H; simpl.
  - reflexivity.
  - rewrite IH.
    + apply indexEntry_other. apply H. apply elem_of_cons. auto.
    + intros e' He'. apply H. apply elem_of_cons. auto.
Qed.

(** The index is built on the first call and handed back unchanged on
    every later one. *)
Lemma getCompatFeaturesIndex_memo (features : Dataset) (cell : IndexCell) :
  let '(idx, cell1) := getCompatFeaturesIndex features cell in
  cell1 = Some idx /\
  getCompatFeaturesIndex features cell1 = (idx, cell1).
Proof.
  unfold getCompatFeaturesIndex. destruct cell; simpl; split; reflexivity.
Qed.

(** C4, as amended.  After the index is built: (1) for every dataset
    entry whose baseline status is ['high'] or ['low'], the index maps the
    entry's id and each of its compat keys to the entry's record, unless
    a later entry writes the same key (the last write wins); (2) a key
    that no entry with status ['high'] or ['low'] writes is absent, so an
    entry whose status is [false] is not inserted. *)
Theorem C4_index_built (features : Dataset) (k : string) :
  (forall pre post id f st,
     features = pre ++ (id, f) :: post ->
     status f = Some st ->
     status_truthy st = true ->
     k ∈ id :: default [] (compat_features f) ->
     (forall e, e ∈ post -> k ∉ entry_keys e) ->
     (getCompatFeaturesIndex features None).1 !! k
       = Some (mkIndexRecord st (name_or_id f id) id)) /\
  ((forall e, e ∈ features -> k ∉ entry_keys e) ->
   (getCompatFeaturesIndex features None).1 !! k = None).
Proof.
  unfold getCompatFeaturesIndex, buildIndex. simpl. split.
  - intros pre post id f st -> Hst Ht Hk Hpost.
    rewrite foldl_app. simpl.
    rewrite (foldl_indexEntry_other post _ k Hpost).
    apply indexEntry_own; assumption.
  - intros H. rewrite (foldl_indexEntry_other features ∅ k H).
    apply lookup_empty.
Qed.

(** An instance of C4 on the sample dataset: the compat key of the
    container at-rule is bound to the record of [container-queries], and
    the id of the entry whose status is [false] is bound to nothing. *)
Lemma C4_index_built_witness :
  (getCompatFeaturesIndex sampleDataset None).1 !! "css.at-rules.container"
    = Some (mkIndexRecord Low "Container queries" "container-queries") /\
  (getCompatFeaturesIndex sampleDataset None).1 !! "accent-color" = None.
Proof.
  split.
  - apply (proj1 (C4_index_built sampleDataset "css.at-rules.container")
             [] (tail sampleDataset) "container-queries"
             (mkFeature (Some "Container queries") (Some Low)
                (Some ["css.at-rules.container"; "css.properties.container-name"]))
             Low).
    + reflexivity.
    + reflexivity.
    + reflexivity.
    + apply elem_of_cons. right. apply elem_of_cons. left. reflexivity.
    + apply Forall_forall. compute_done.
  - apply (proj2 (C4_index_built sampleDataset "accent-color")).
    apply Forall_forall. compute_done.
Defined.

(** C4 as stated fails for an entry whose defined status is [false]: the
    sample dataset has the entry [accent-color] with baseline status
    [false] and one compat key, and the built index binds neither the id
    nor the compat key. *)
Lemma C4_counterexample :
  ("accent-color",
   mkFeature (Some "accent-color") (Some NotBaseline)
     (Some ["css.properties.accent-color"])) ∈ sampleDataset /\
  (getCompatFeaturesIndex sampleDataset None).1 !! "accent-color" = None /\
  (getCompatFeaturesIndex sampleDataset None).1 !! "css.properties.accent-color" = None.
Proof.
  split.
  - unfold sampleDataset. do 6 (apply elem_of_cons; right).
    apply elem_of_cons. left. reflexivity.
  - split; vm_compute; reflexivity.
Qed.

(* ================================================================== *)
(** * The result classifier *)
(* ================================================================== *)

(** C5.  The status of a converted feature is the status found in the
    index under the feature's name, [false] when the name is absent; its
    severity is [error] for status [false], [warn] for ['low'] and [info]
    for ['high']. *)
Theorem C5_severity_derivation (dataset : Dataset) (d : DetectedFeature)
    (cell : IndexCell) :
  let r := (convertToFeatureResult dataset d cell).1 in
  feature r = df_name d /\
  fr_status r =
    match (getCompatFeaturesIndex dataset cell).1 !! df_name d with
    | Some record => ir_status record
    | None => NotBaseline
    end /\
  severity r =
    match fr_status r with
    | NotBaseline => SevError
    | Low => SevWarn
    | High => SevInfo
    end.
Proof.
  unfold convertToFeatureResult, checkBaselineStatus.
  destruct (getCompatFeaturesIndex dataset cell) as [index cell1]. simpl.
  destruct (index !! df_name d) as [record|]; simpl.
  - destruct (ir_status record); simpl; repeat split.
  - repeat split.
Qed.

(** The three severities, on the sample dataset: a ['high'] feature, a
    ['low'] feature, and a name that the index does not know. *)
Example convertToFeatureResult_samples :
  map (fun n => let r := (convertToFeatureResult sampleDataset
                            (mkDetected n CSS 3 1 "display: grid" ConfHigh) None).1 in
                (fr_status r, severity r))
      ["appearance"; "backdrop-filter"; "css-grid"; "accent-color"]
  = [(High, SevInfo); (Low, SevWarn); (NotBaseline, SevError); (NotBaseline, SevError)].
Proof. vm_compute. reflexivity. Qed.

Lemma elem_of_filter_not_null {A} (l : list (option A)) (x : A) :
  x ∈ filter_not_null l <-> Some x ∈ l.
Proof.
  induction l as [|[y|] l IH]; simpl.
  - rewrite !elem_of_nil. reflexivity.
  - rewrite !elem_of_cons, IH. split; intros [H|H]; auto.
    + left. congruence.
    + left. congruence.
  - rewrite elem_of_cons, IH. split; [auto | intros [H|H]; [discriminate | auto]].
Qed.

(** What [applyConfigRules] returns: the features whose rule is not
    [off], each with the severity its rule forces, if any. *)
Lemma elem_of_applyConfigRules (features : list FeatureResult)
    (config : BaselineConfig) (r : FeatureResult) :
  r ∈ applyConfigRules features config <->
  exists f, f ∈ features /\
    match rules config !! feature f with
    | Some RuleOff => False
    | Some RuleError => r = with_severity f SevError
    | Some RuleWarn => r = with_severity f SevWarn
    | None => r = f
    end.
Proof.
  unfold applyConfigRules. rewrite elem_of_filter_not_null, list_elem_of_fmap.
  split; intros [f [H1 H2]]; exists f.
  - split; [exact H2|].
    destruct (rules config !! feature f) as [[]|]; congruence.
  - split; [|exact H1].
    destruct (rules config !! feature f) as [[]|]; try contradiction; congruence.
Qed.

(** C6.  A feature whose configured rule is [off] does not occur in the
    list that [applyConfigRules] returns, whatever the input list and the
    configuration are. *)
Theorem C6_rule_off_removed (features : list FeatureResult)
    (config : BaselineConfig) (name : string) :
  rules config !! name = Some RuleOff ->
  Forall (fun r => feature r <> name) (applyConfigRules features config).
Proof.
  intros Hoff. apply Forall_forall. intros r Hr Heq.
  apply elem_of_applyConfigRules in Hr as [f [_ Hf]].
  destruct (rules config !! feature f) as [[]|] eqn:Hrule;
    try contradiction; subst r; simpl in Heq; congruence.
Qed.

(** [applyTargetBaseline] changes severities only. *)
Lemma applyTargetBaseline_names (features : list FeatureResult) (target : Target) :
  map feature (applyTargetBaseline features target) = map feature features.
Proof.
  destruct target; simpl; [reflexivity|].
  induction features as [|f features IH]; simpl; [reflexivity|].
  rewrite IH. destruct (is_low (fr_status f) && is_warn f); reflexivity.
Qed.

(** The features kept are the input features in their order, so nothing
    but the [off] features is removed. *)
Lemma applyConfigRules_names (features : list FeatureResult) (config : BaselineConfig) :
  map feature (applyConfigRules features config) =
  filter (fun n => rules config !! n <> Some RuleOff) (map feature features).
Proof.
  unfold applyConfigRules.
  induction features as [|f features IH]; simpl; [reflexivity|].
  destruct (rules config !! feature f) as [[]|] eqn:Hrule; simpl.
  - rewrite filter_cons_True by (rewrite Hrule; discriminate).
    rewrite IH. reflexivity.
  - rewrite filter_cons_True by (rewrite Hrule; discriminate).
    rewrite IH. reflexivity.
  - rewrite filter_cons_False by (rewrite Hrule; auto).
    exact IH.
  - rewrite filter_cons_True by (rewrite Hrule; discriminate).
    rewrite IH. reflexivity.
Qed.

(** Scenario F of the design document, as an instance of C6: with the
    rule for [fetch] set to [off], no result for [fetch] is left. *)
Lemma C6_rule_off_removed_witness :
  Forall (fun r => feature r <> "fetch") (applyConfigRules sampleResults sampleConfig) /\
  map feature (applyConfigRules sampleResults sampleConfig) = ["has"].
Proof.
  split.
  - apply (C6_rule_off_removed sampleResults sampleConfig "fetch").
    vm_compute. reflexivity.
  - vm_compute. reflexivity.
Defined.

(* ================================================================== *)
(** * The file loop of the check command *)
(* ================================================================== *)

Section CheckFacts.

Variable dataset : Dataset.
Variable fs : string -> option FileEntry.
Variable parser : Language -> string -> string -> ParseResult + string.
Variable relative : string -> string.
Variable options : CheckOptions.
Variable config : BaselineConfig.

(** A parser rethrows an input error as it is, before it reads or
    parses anything. *)
Lemma parseWith_input_error (language : Language) (filePath : string)
    (e : JsError) (cell : IndexCell) :
  input_error fs filePath = Some e ->
  parseWith dataset fs parser language filePath cell = (Thrown e, cell, []).
Proof.
  unfold input_error, parseWith, try_catch. intros H.
  destruct (fs filePath) as [stats|].
  - destruct (MAX_FILE_SIZE <? size stats)%N; [|discriminate].
    injection H as <-. reflexivity.
  - injection H as <-. reflexivity.
Qed.

Lemma parseFile_input_error (filePath : string) (e : JsError) (cell : IndexCell) :
  has_parser filePath = true ->
  input_error fs filePath = Some e ->
  parseFile dataset fs parser filePath cell = (Thrown e, cell, []).
Proof.
  intros Hext He. unfold parseFile, parseCSS, parseJS, parseHTML.
  unfold has_parser in Hext.
  set (ext := Js.toLowerCase (last_segment filePath)) in *.
  unfold is_one_of in *. simpl in *.
  repeat match goal with
         | |- context [String.eqb ext ?s] => destruct (String.eqb ext s); simpl
         end;
    try (apply parseWith_input_error; exact He).
  discriminate.
Qed.

(** The iteration for a file with an input error prints at most the
    progress line and throws. *)
Lemma checkOne_input_error (total i : nat) (filePath : string) (e : JsError)
    (acc : LoopState) (cell : IndexCell) :
  has_parser filePath = true ->
  input_error fs filePath = Some e ->
  checkOne dataset fs parser relative options config total i filePath acc cell
  = (Thrown e, cell,
     if quiet options then [] else [Checking (i + 1) total (relative filePath)]).
Proof.
  intros Hext He. unfold checkOne, bind.
  destruct (quiet options); simpl;
    rewrite (parseFile_input_error filePath e cell Hext He); reflexivity.
Qed.

(** The loop over [pre ++ rest] is the loop over [pre] followed, if it
    did not throw, by the loop over [rest]. *)
Lemma checkLoop_app (total : nat) (pre rest : list string) (i : nat)
    (acc : LoopState) (cell : IndexCell) :
  checkLoop dataset fs parser relative options config total i (pre ++ rest) acc cell
  = match checkLoop dataset fs parser relative options config total i pre acc cell with
    | (Normal acc1, cell1, out1) =>
        let '(r, cell2, out2) :=
          checkLoop dataset fs parser relative options config total
            (i + length pre) rest acc1 cell1 in
        (r, cell2, out1 ++ out2)
    | (Thrown e, cell1, out1) => (Thrown e, cell1, out1)
    end.
Proof.
  revert i acc cell. induction pre as [|file pre IH]; intros i acc cell; simpl.
  - rewrite Nat.add_0_r.
    destruct (checkLoop dataset fs parser relative options config total i rest acc cell)
      as [[r c] o]. reflexivity.
  - unfold bind.
    destruct (checkOne dataset fs parser relative options config total i file acc cell)
      as [[[acc1|e] cell1] out1]; [|reflexivity].
    rewrite IH.
    destruct (checkLoop dataset fs parser relative options config total (S i) pre acc1 cell1)
      as [[[acc2|e] cell2] out2]; [|reflexivity].
    replace (i + S (length pre)) with (S i + length pre) by lia.
    destruct (checkLoop dataset fs parser relative options config total
                (S i + length pre) rest acc2 cell2) as [[r c] o].
    rewrite app_assoc. reflexivity.
Qed.

(** From a file with an input error on, the loop does nothing more:
    whatever files follow it. *)
Lemma checkLoop_input_error (total i : nat) (filePath : string)
    (post : list string) (e : JsError) (acc : LoopState) (cell : IndexCell) :
  has_parser filePath = true ->
  input_error fs filePath = Some e ->
  checkLoop dataset fs parser relative options config total i (filePath :: post) acc cell
  = (Thrown e, cell,
     if quiet options then [] else [Checking (i + 1) total (relative filePath)]).
Proof.
  intros Hext He. simpl. unfold bind.
  rewrite (checkOne_input_error total i filePath e acc cell Hext He). reflexivity.
Qed.

(** The loop records and prints only the list that [applyConfigRules]
    returned: the result pushed for a file holds no feature whose rule is
    [off]. *)
Lemma checkOne_without_off (total i : nat) (file name : string)
    (acc acc1 : LoopState) (cell cell1 : IndexCell) (out : list check_event) :
  rules config !! name = Some RuleOff ->
  checkOne dataset fs parser relative options config total i file acc cell
    = (Normal acc1, cell1, out) ->
  exists r, results acc1 = results acc ++ [r] /\
            br_file r = relative file /\
            name ∉ map feature (br_features r).
Proof.
  intros Hoff. unfold checkOne, bind, say, ret.
  destruct (quiet options); simpl;
    destruct (parseFile dataset fs parser file cell) as [[[features|e] c] o];
    simpl; try discriminate;
    match goal with
    | |- context [if ?b then _ else _] => destruct b
    end; simpl; intros H; injection H as <- _ _;
    eexists; (split; [reflexivity|]); (split; [reflexivity|]); simpl;
    rewrite applyTargetBaseline_names, applyConfigRules_names;
    rewrite list_elem_of_filter; intros [Hne _]; apply Hne; exact Hoff.
Qed.

(** C8, as amended.  When the files before [filePath] are processed
    without an exception and [filePath] raises an input error (it does
    not exist, or it is larger than 10 MiB), the error is thrown before
    any read or parse, reaches the handler of the whole command, its
    message is printed and the run ends with exit code 1: the output is
    that of the files before it, the progress line of the file, and the
    error message; there is no summary, and the files after it are not
    processed. *)
Theorem C8_input_error_ends_run (pre post : list string) (filePath : string)
    (e : JsError) (acc : LoopState) (cell cell1 : IndexCell)
    (out : list check_event) :
  has_parser filePath = true ->
  input_error fs filePath = Some e ->
  checkLoop dataset fs parser relative options config
    (length (pre ++ filePath :: post)) 0 pre (mkLoop [] 0 0) cell
    = (Normal acc, cell1, out) ->
  checkFiles dataset fs parser relative options config (pre ++ filePath :: post) cell
  = (Exited 1, cell1,
     [FoundFiles (length (pre ++ filePath :: post))] ++
     (out ++
      if quiet options then []
      else [Checking (length pre + 1) (length (pre ++ filePath :: post))
              (relative filePath)]) ++
     [ErrorPrinted ("Error: " +:+ error_message e)]).
Proof.
  intros Hext He Hpre. unfold checkFiles.
  destruct (pre ++ filePath :: post) as [|f0 l0] eqn:Hfiles.
  - destruct pre; discriminate.
  - rewrite <- Hfiles in *. rewrite checkLoop_app, Hpre.
    rewrite (checkLoop_input_error _ _ filePath post e acc cell1 Hext He).
    reflexivity.
Qed.

End CheckFacts.

(** An instance of C8 on the sample directory: the second of three files
    is larger than 10 MiB; the run prints its error and exits with code
    1 without a summary, and the third file is never looked at. *)
Lemma C8_input_error_ends_run_witness :
  checkFiles sampleDataset sampleFs sampleParser id sampleOptions sampleConfig
    (["ok.css"] ++ "big.css" :: ["ok.css"]) None
  = (Exited 1, Some (buildIndex sampleDataset),
     [ FoundFiles 3;
       Checking 1 3 "ok.css"; Parsed "ok.css" 1;
       Checking 2 3 "big.css";
       ErrorPrinted "Error: File size (10.00MB) exceeds maximum allowed size (10.00MB)" ]).
Proof.
  eapply eq_trans.
  - apply (C8_input_error_ends_run sampleDataset sampleFs sampleParser id
             sampleOptions sampleConfig ["ok.css"] ["ok.css"] "big.css"
             (FileSizeError "big.css" 10485761 MAX_FILE_SIZE)
             (mkLoop
                [mkBaselineResult "ok.css"
                   [mkResult "has" Low SevWarn (Some 1) (Some 1)
                      "CSS Selector: a:has(b) - has is newly baseline" (Some false)]
                   0 1 true]
                0 1)
             None (Some (buildIndex sampleDataset))
             [Checking 1 3 "ok.css"; Parsed "ok.css" 1]).
    + vm_compute. reflexivity.
    + vm_compute. reflexivity.
    + vm_compute. reflexivity.
  - vm_compute. reflexivity.
Defined.

(** C8 as stated fails: in a batch of two files whose first is larger
    than 10 MiB, the run ends with exit code 1 right after the error
    message; the second file, which on its own is checked and passes, is
    not processed. *)
Lemma C8_counterexample :
  checkFiles sampleDataset sampleFs sampleParser id sampleOptions sampleConfig
    ["big.css"; "ok.css"] None
  = (Exited 1, None,
     [ FoundFiles 2;
       Checking 1 2 "big.css";
       ErrorPrinted "Error: File size (10.00MB) exceeds maximum allowed size (10.00MB)" ]) /\
  checkFiles sampleDataset sampleFs sampleParser id sampleOptions sampleConfig
    ["ok.css"] None
  = (Returned, Some (buildIndex sampleDataset),
     [ FoundFiles 1; Checking 1 1 "ok.css"; Parsed "ok.css" 1;
       Summary 1 0 1 1 0; AllPassed ]).
Proof. split; vm_compute; reflexivity. Qed.

(* ================================================================== *)
(** * The mapper singleton *)
(* ================================================================== *)

Section SingletonFacts.

Variable dataset : Dataset.

(** Only [callInitialize] prints, and only [callGet] sets the
    singleton. *)
Lemma awaitBuilder_keeps build next this caller (w : World) :
  console (awaitBuilder dataset build next this caller w) = console w /\
  mapperInstance (awaitBuilder dataset build next this caller w) = mapperInstance w.
Proof.
  unfold awaitBuilder.
  destruct (heap w !! this) as [m|]; [|split; reflexivity].
  destruct (build dataset (mappings m)); split; reflexivity.
Qed.

Lemma runJob_keeps (j : Job) (w : World) :
  console (runJob dataset j w) = console w /\
  mapperInstance (runJob dataset j w) = mapperInstance w.
Proof.
  destruct j as [stage this caller | caller ok | caller value]; simpl.
  - destruct stage;
      first [ apply awaitBuilder_keeps
            | destruct (heap w !! this); split; reflexivity
            | split; reflexivity ].
  - destruct ok; split; reflexivity.
  - destruct value as [a|]; [|split; reflexivity].
    destruct (heap w !! a); split; reflexivity.
Qed.

Lemma tick_keeps (w : World) :
  console (tick dataset w) = console w /\
  mapperInstance (tick dataset w) = mapperInstance w.
Proof.
  unfold tick. destruct (jobs w) as [|j rest]; [split; reflexivity|].
  exact (runJob_keeps j (mkWorld (heap w) (mapperInstance w) rest (console w) (received w))).
Qed.

Lemma callGet_once (caller : nat) (w : World) : once w -> once (callGet dataset caller w).
Proof.
  unfold once, callGet, initializations.
  destruct (mapperInstance w) as [a|] eqn:Hinst; simpl.
  - rewrite Hinst. auto.
  - intros Hzero. unfold callInitialize. simpl.
    rewrite lookup_app_r by lia. rewrite Nat.sub_diag. simpl.
    match goal with
    | |- context [awaitBuilder dataset ?b ?n ?t ?c ?w0] =>
        destruct (awaitBuilder_keeps b n t c w0) as [-> ->]
    end.
    simpl. rewrite filter_app, length_app, Hzero. simpl. lia.
Qed.

Lemma act_once (a : Action) (w : World) : once w -> once (act dataset w a).
Proof.
  destruct a as [caller|]; simpl.
  - apply callGet_once.
  - unfold once, initializations.
    destruct (tick_keeps w) as [-> ->]. auto.
Qed.

(** Whatever the callers do and however the job queue turns in between,
    the body of [initialize] runs at most once in a process. *)
Lemma initialize_at_most_once (schedule : list Action) :
  initializations (runSchedule dataset schedule startWorld) <= 1.
Proof.
  assert (H : forall w, once w -> once (runSchedule dataset schedule w)).
  { unfold runSchedule. induction schedule as [|a schedule IH]; intros w Hw; simpl.
    - exact Hw.
    - apply IH, act_once, Hw. }
  specialize (H startWorld eq_refl). unfold once in H.
  destruct (mapperInstance (runSchedule dataset schedule startWorld)); lia.
Qed.

End SingletonFacts.

(** C9 at the failing input.  Two callers ask for the mapper one after
    the other, before the job queue turns.  The body of [initialize]
    runs once, but the second caller receives the singleton while its
    [initialized] flag is still false; the first caller receives it
    initialized. *)
Theorem C9_second_caller_before_initialized :
  let w := drain sampleDataset 8
             (runSchedule sampleDataset [Request 0; Request 1] startWorld) in
  jobs w = [] /\
  initializations w = 1 /\
  received w = [(1, GotMapper 0 false); (0, GotMapper 0 true)].
Proof. vm_compute. repeat split. Qed.

(** The order of the jobs in that run: the continuation of the second
    caller is queued during its call, behind the first continuation of
    [initialize] and ahead of all the later ones. *)
Example jobs_after_two_requests :
  jobs (runSchedule sampleDataset [Request 0; Request 1] startWorld)
  = [ResumeInitialize AfterCSS 0 0; ResumeCaller 1 (Some 0)].
Proof. vm_compute. reflexivity. Qed.

(** A caller that asks after the queue has drained receives the
    initialized singleton, and no second initialization runs. *)
Example late_caller_receives_initialized :
  let w := drain sampleDataset 8
             (runSchedule sampleDataset [Request 1]
                (drain sampleDataset 8 (runSchedule sampleDataset [Request 0] startWorld))) in
  jobs w = [] /\
  initializations w = 1 /\
  received w = [(0, GotMapper 0 true); (1, GotMapper 0 true)].
Proof. vm_compute. repeat split. Qed.

(** The job queue run for a single caller does what [initialize] does
    when run to completion: the caller receives the mapper that
    [initialize] builds, with the same console output. *)
Lemma single_caller_receives_initialize (dataset : Dataset)
    (m : WebFeaturesMapper) (out : list console_event) :
  initialize dataset newMapper = Some (m, out) ->
  drain dataset 6 (runSchedule dataset [Request 0] startWorld)
  = mkWorld [m] (Some 0) [] out [(0, GotMapper 0 true)].
Proof.
  intros Hm. unfold initialize in Hm. simpl in Hm.
  destruct (buildCSSMappings dataset emptyMapping) as [t1|] eqn:H1; [|discriminate].
  simpl in Hm.
  destruct (buildJSMappings dataset t1) as [t2|] eqn:H2; [|discriminate].
  simpl in Hm.
  destruct (buildHTMLMappings dataset t2) as [t3|] eqn:H3; [|discriminate].
  simpl in Hm. injection Hm as <- <-.
  set (say := [ConsoleLog "Initializing web-features mappings..."]).
  assert (Hcall : runSchedule dataset [Request 0] startWorld
                  = mkWorld [mkMapper t1 [] false] (Some 0)
                      [ResumeInitialize AfterCSS 0 0] say []).
  { unfold runSchedule, act, callGet, callInitialize, awaitBuilder. simpl.
    rewrite H1. reflexivity. }
  rewrite Hcall. clear Hcall.
  assert (Hjs : tick dataset
                  (mkWorld [mkMapper t1 [] false] (Some 0)
                     [ResumeInitialize AfterCSS 0 0] say [])
                = mkWorld [mkMapper t2 [] false] (Some 0)
                    [ResumeInitialize AfterJS 0 0] say []).
  { unfold tick, runJob, awaitBuilder. simpl. rewrite H2. reflexivity. }
  assert (Hhtml : tick dataset
                    (mkWorld [mkMapper t2 [] false] (Some 0)
                       [ResumeInitialize AfterJS 0 0] say [])
                  = mkWorld [mkMapper t3 [] false] (Some 0)
                      [ResumeInitialize AfterHTML 0 0] say []).
  { unfold tick, runJob, awaitBuilder. simpl. rewrite H3. reflexivity. }
  change (drain dataset 6 ?w) with (drain dataset 5 (tick dataset w)).
  rewrite Hjs.
  change (drain dataset 5 ?w) with (drain dataset 4 (tick dataset w)).
  rewrite Hhtml.
  reflexivity.
Qed.

(* ================================================================== *)
(** * Further properties of the dataset index *)
(* ================================================================== *)

Lemma indexEntry_is_Some (idx : Index) (entry : string * Feature) (k : string) :
  is_Some (indexEntry idx entry !! k) <-> is_Some (idx !! k) \/ k ∈ entry_keys entry.
Proof.
  destruct (decide (k ∈ entry_keys entry)) as [Hin|Hnin].
  - split; [auto|]. intros _.
    destruct entry as [id f]. unfold entry_keys in Hin. simpl in Hin.
    destruct (status f) as [st|] eqn:Hst; [|by apply elem_of_nil in Hin].
    destruct (status_truthy st) eqn:Ht; [|by apply elem_of_nil in Hin].
    rewrite (indexEntry_own idx id f st k Hst Ht Hin). eauto.
  - rewrite (indexEntry_other idx entry k Hnin). tauto.
Qed.

Lemma foldl_indexEntry_is_Some (features : Dataset) (idx : Index) (k : string) :
  is_Some (foldl indexEntry idx features !! k) <->
  is_Some (idx !! k) \/ exists e, e ∈ features /\ k ∈ entry_keys e.
Proof.
  revert idx. induction features as [|e features IH]; intros idx; simpl.
  - split; [auto | intros [H|[e [He _]]]; [exact H | by apply elem_of_nil in He]].
  - rewrite IH, indexEntry_is_Some. split.
    + intros [[H|H]|[e' [He' Hk]]]; [auto| |].
      * right. exists e. split; [apply elem_of_cons; auto | exact H].
      * right. exists e'. split; [apply elem_of_cons; auto | exact Hk].
    + intros [H|[e' [He' Hk]]]; [auto|].
      apply elem_of_cons in He' as [->|He']; [auto|].
      right. exists e'. auto.
Qed.

(** A key is bound in the built index exactly when some dataset entry
    with baseline status ['high'] or ['low'] has it as its id or lists
    it as a compat key. *)
Lemma buildIndex_domain (features : Dataset) (k : string) :
  is_Some (buildIndex features !! k) <->
  exists e, e ∈ features /\ k ∈ entry_keys e.
Proof.
  unfold buildIndex.
  rewrite foldl_indexEntry_is_Some, lookup_empty. split.
  - intros [[x Hx]|H]; [discriminate | exact H].
  - auto.
Qed.

Lemma indexEntry_lookup_Some (idx : Index) (id : string) (f : Feature)
    (k : string) (r : IndexRecord) :
  indexEntry idx (id, f) !! k = Some r ->
  idx !! k = Some r \/ record_of k r [(id, f)].
Proof.
  intros H.
  destruct (decide (k ∈ entry_keys (id, f))) as [Hin|Hnin].
  - right. unfold entry_keys in Hin. simpl in Hin.
    destruct (status f) as [st|] eqn:Hst; [|by apply elem_of_nil in Hin].
    destruct (status_truthy st) eqn:Ht; [|by apply elem_of_nil in Hin].
    rewrite (indexEntry_own idx id f st k Hst Ht Hin) in H. injection H as <-.
    exists id, f, st. repeat split; try assumption.
    apply elem_of_cons. left. reflexivity.
  - left. rewrite (indexEntry_other idx (id, f) k Hnin) in H. exact H.
Qed.

Lemma foldl_indexEntry_lookup_Some (features : Dataset) (idx : Index)
    (k : string) (r : IndexRecord) :
  foldl indexEntry idx features !! k = Some r ->
  idx !! k = Some r \/ record_of k r features.
Proof.
  revert idx. induction features as [|[id f] features IH]; intros idx H; simpl in H.
  - auto.
  - apply IH in H as [H|(id' & f' & st & Hin & Hrest)].
    + apply indexEntry_lookup_Some in H as [H|(id' & f' & st & Hin & Hrest)]; [auto|].
      right. exists id', f', st. split; [|exact Hrest].
      apply elem_of_cons. left. apply list_elem_of_singleton in Hin. exact Hin.
    + right. exists id', f', st. split; [|exact Hrest].
      apply elem_of_cons. right. exact Hin.
Qed.

Lemma buildIndex_bindings (features : Dataset) (k : string) (r : IndexRecord) :
  buildIndex features !! k = Some r ->
  record_of k r features /\ ir_status r <> NotBaseline.
Proof.
  unfold buildIndex. intros H.
  apply foldl_indexEntry_lookup_Some in H as [H|H].
  - rewrite lookup_empty in H. discriminate.
  - split; [exact H|].
    destruct H as (id & f & st & _ & _ & Ht & _ & ->). simpl.
    destruct st; [discriminate | discriminate | discriminate Ht].
Qed.

(** X1.  Every binding of the built index comes from the dataset: the
    record under a key is the record of a dataset entry that has the key
    as its id or among its compat keys, and its status is ['high'] or
    ['low'], never [false]. *)
Theorem X1_index_bindings_from_dataset (features : Dataset) :
  map_Forall
    (fun k r => record_of k r features /\ ir_status r <> NotBaseline)
    (getCompatFeaturesIndex features None).1.
Proof.
  intros k r H. exact (buildIndex_bindings features k r H).
Qed.

(** X2.  On a fresh index cell, [checkBaselineStatus] answers [false]
    exactly for the keys that no ['high'] or ['low'] entry of the dataset
    has as id or compat key; the id of an entry whose own status is
    [false] is answered [false] through the same absence. *)
Theorem X2_checkBaselineStatus_false_iff_absent (features : Dataset) (k : string) :
  (checkBaselineStatus features k None).1 = NotBaseline <->
  forall e, e ∈ features -> k ∉ entry_keys e.
Proof.
  unfold checkBaselineStatus, getCompatFeaturesIndex.
  pose proof (buildIndex_domain features k) as Hdom.
  pose proof (buildIndex_bindings features k) as Hrec.
  destruct (buildIndex features !! k) as [r|] eqn:Hk; simpl.
  - split.
    + intros Hnb. destruct (Hrec r eq_refl) as [_ Hne]. contradiction.
    + intros Habs. destruct (proj1 Hdom (mk_is_Some _ _ eq_refl)) as [e [He Hin]].
      exfalso. exact (Habs e He Hin).
  - split; [|reflexivity]. intros _ e He Hin.
    assert (Hs : is_Some (@None IndexRecord)) by (apply Hdom; eauto).
    destruct Hs as [x Hx]. discriminate.
Qed.

(* ================================================================== *)
(** * Placeholder substitution *)
(* ================================================================== *)

(* ================================================================== *)
(** * Further properties of the key generator *)
(* ================================================================== *)

Lemma append_cons (c : ascii) (a b : string) :
  String c a +:+ b = String c (a +:+ b).
Proof. reflexivity. Qed.

Lemma append_nil_r (s : string) : s +:+ EmptyString = s.
Proof.
  induction s as [|c s IH]; [reflexivity|].
  rewrite append_cons, IH. reflexivity.
Qed.

Lemma append_assoc (a b c : string) : (a +:+ b) +:+ c = a +:+ (b +:+ c).
Proof.
  induction a as [|x a IH]; [reflexivity|].
  rewrite !append_cons, IH. reflexivity.
Qed.

Lemma startsWith_append (a s : string) : Js.startsWith (a +:+ s) a = true.
Proof. apply startsWith_true. exists s. reflexivity. Qed.

Lemma drop_append (a s : string) : Js.drop (String.length a) (a +:+ s) = s.
Proof.
  induction a as [|c a IH]; [destruct s; reflexivity|].
  rewrite append_cons. simpl. exact IH.
Qed.

Lemma is_word_not_dollar (c : ascii) : Js.is_word c = true -> Ascii.eqb c "$" = false.
Proof.
  destruct c as [[] [] [] [] [] [] [] []]; vm_compute; intros H;
    first [reflexivity | discriminate H].
Qed.

Lemma is_word_not_brace (c : ascii) : Js.is_word c = true -> c <> "}"%char.
Proof.
  destruct c as [[] [] [] [] [] [] [] []]; vm_compute; intros H;
    first [discriminate H | discriminate].
Qed.

Lemma word_string_dollar_free (k : string) : word_string k = true -> dollar_free k = true.
Proof.
  induction k as [|c k IH]; simpl; [reflexivity|].
  intros H. apply andb_true_iff in H as [Hc Hk].
  rewrite (is_word_not_dollar c Hc), (IH Hk). reflexivity.
Qed.

Lemma dollar_free_append (a b : string) :
  dollar_free (a +:+ b) = dollar_free a && dollar_free b.
Proof.
  induction a as [|c a IH]; [reflexivity|].
  rewrite append_cons. simpl. rewrite IH. apply andb_assoc.
Qed.

(** A string without a dollar sign has no unresolved placeholder. *)
Lemma dollar_free_no_placeholder (s : string) :
  dollar_free s = true -> Js.includes s "${" = false.
Proof.
  induction s as [|c s IH]; [reflexivity|].
  intros H. cbn [dollar_free] in H. apply andb_true_iff in H as [Hc Hs].
  apply negb_true_iff in Hc. rewrite Ascii.eqb_sym in Hc.
  cbn [Js.includes Js.startsWith]. rewrite Hc. cbn [andb orb]. apply IH, Hs.
Qed.

(** Word names that are followed by a closing brace at the same place
    are the same name. *)
Lemma word_before_brace (k k' x y : string) :
  word_string k = true -> word_string k' = true ->
  k +:+ String "}" x = k' +:+ String "}" y -> k = k'.
Proof.
  revert k'. induction k as [|c k IH]; intros [|c' k'] Hk Hk' H.
  - reflexivity.
  - rewrite append_cons in H. change (EmptyString +:+ String "}" x) with (String "}" x) in H.
    injection H as Hc _. simpl in Hk'. apply andb_true_iff in Hk' as [Hw _].
    exfalso. apply (is_word_not_brace c' Hw). congruence.
  - rewrite append_cons in H. change (EmptyString +:+ String "}" y) with (String "}" y) in H.
    injection H as Hc _. simpl in Hk. apply andb_true_iff in Hk as [Hw _].
    exfalso. apply (is_word_not_brace c Hw). congruence.
  - rewrite !append_cons in H. injection H as -> H.
    simpl in Hk, Hk'.
    apply andb_true_iff in Hk as [_ Hk]. apply andb_true_iff in Hk' as [_ Hk'].
    f_equal. exact (IH k' Hk Hk' H).
Qed.

Lemma placeholder_cons (k : string) :
  placeholder k = String "$" (String "{" (k +:+ "}")).
Proof. reflexivity. Qed.

Lemma placeholder_other (k k' rest : string) :
  word_string k = true -> word_string k' = true -> k' <> k ->
  Js.startsWith (placeholder k' +:+ rest) (placeholder k) = false.
Proof.
  intros Hk Hk' Hne.
  destruct (Js.startsWith (placeholder k' +:+ rest) (placeholder k)) eqn:H;
    [|reflexivity].
  apply startsWith_true in H as [b Hb]. exfalso. apply Hne.
  rewrite !placeholder_cons, !append_cons in Hb. injection Hb as Hb.
  rewrite !append_assoc in Hb.
  exact (word_before_brace k' k _ _ Hk' Hk Hb).
Qed.

(** The replacement text of a value without a dollar sign is the value. *)
Lemma getSubstitution_plain (value before matched after : string) :
  dollar_free value = true ->
  getSubstitution value before matched after = value.
Proof.
  induction value as [|c value IH]; simpl; [reflexivity|].
  intros H. apply andb_true_iff in H as [Hc Hv].
  apply negb_true_iff in Hc. rewrite Hc, (IH Hv). reflexivity.
Qed.

Section Replace.

Variables needle value : string.

Lemma replaceAllFrom_skip (x s before : string) :
  replaceAllFrom needle value (String.length x) before (x +:+ s)
  = replaceAllFrom needle value 0 (before +:+ x) s.
Proof.
  revert before. induction x as [|c x IH]; intros before.
  - rewrite append_nil_r. reflexivity.
  - rewrite append_cons. cbn [String.length replaceAllFrom].
    rewrite IH, append_assoc. reflexivity.
Qed.

(** Text without a dollar sign is copied. *)
Lemma replaceAllFrom_plain (a s before rest : string) :
  needle = String "$" rest ->
  dollar_free a = true ->
  replaceAllFrom needle value 0 before (a +:+ s)
  = a +:+ replaceAllFrom needle value 0 (before +:+ a) s.
Proof.
  intros Hneedle. revert before. induction a as [|c a IH]; intros before Ha.
  - rewrite append_nil_r. reflexivity.
  - simpl in Ha. apply andb_true_iff in Ha as [Hc Ha].
    apply negb_true_iff in Hc. rewrite Ascii.eqb_sym in Hc.
    rewrite !append_cons. cbn [replaceAllFrom].
    assert (Hs : Js.startsWith (String c (a +:+ s)) needle = false).
    { rewrite Hneedle. cbn [Js.startsWith]. rewrite Hc. reflexivity. }
    rewrite Hs, (IH _ Ha), append_assoc. reflexivity.
Qed.

(** An occurrence of the needle is replaced, and the scan goes on behind
    it. *)
Lemma replaceAllFrom_needle (s before : string) :
  needle <> EmptyString ->
  replaceAllFrom needle value 0 before (needle +:+ s)
  = getSubstitution value before needle s
    +:+ replaceAllFrom needle value 0 (before +:+ needle) s.
Proof.
  intros Hne. destruct needle as [|n0 nrest] eqn:Hneedle; [contradiction|].
  rewrite <- Hneedle.
  assert (Hs : needle +:+ s = String n0 (nrest +:+ s)) by (rewrite Hneedle; reflexivity).
  rewrite Hs at 1. cbn [replaceAllFrom]. rewrite <- Hs.
  rewrite startsWith_append, drop_append. f_equal.
  replace (String.length needle - 1) with (String.length nrest)
    by (rewrite Hneedle; simpl; lia).
  rewrite replaceAllFrom_skip. f_equal.
  rewrite Hneedle, append_assoc. reflexivity.
Qed.

(** A text in which the needle does not occur is left as it is. *)
Lemma replaceAllFrom_absent (s before : string) :
  Js.includes s needle = false ->
  replaceAllFrom needle value 0 before s = s.
Proof.
  revert before. induction s as [|c s IH]; intros before H; [reflexivity|].
  cbn [Js.includes] in H. apply orb_false_iff in H as [H1 H2].
  cbn [replaceAllFrom]. rewrite H1, (IH _ H2). reflexivity.
Qed.

End Replace.

Lemma render_cons (p : piece) (ps : list piece) :
  render (p :: ps) = render_piece p +:+ render ps.
Proof. reflexivity. Qed.

Lemma replaceAllFrom_cons (needle value before : string) (c : ascii) (s : string) :
  replaceAllFrom needle value 0 before (String c s)
  = if Js.startsWith (String c s) needle
    then getSubstitution value before needle
           (Js.drop (String.length needle) (String c s))
         +:+ replaceAllFrom needle value (String.length needle - 1)
               (before +:+ String c EmptyString) s
    else String c (replaceAllFrom needle value 0 (before +:+ String c EmptyString) s).
Proof. reflexivity. Qed.

(** One replacement on a rendered template fills the placeholders of its
    key. *)
Lemma replaceAllFrom_render (k v : string) (ps : list piece) (before : string) :
  word_string k = true ->
  dollar_free v = true ->
  forallb clean_piece ps = true ->
  replaceAllFrom (placeholder k) v 0 before (render ps) = render (fill k v ps).
Proof.
  intros Hk Hv. revert before.
  induction ps as [|p ps IH]; intros before Hps; [reflexivity|].
  cbn [forallb] in Hps. apply andb_true_iff in Hps as [Hp Hps].
  cbn [fill map]. rewrite !render_cons. fold (fill k v ps).
  destruct p as [s|k']; cbn [render_piece clean_piece] in *.
  - rewrite (replaceAllFrom_plain _ _ s _ before _ (placeholder_cons k) Hp).
    rewrite (IH _ Hps). reflexivity.
  - destruct (String.eqb k' k) eqn:Heq.
    + apply String.eqb_eq in Heq. subst k'. cbn [render_piece].
      rewrite replaceAllFrom_needle by (rewrite placeholder_cons; discriminate).
      rewrite (getSubstitution_plain _ _ _ _ Hv), (IH _ Hps). reflexivity.
    + apply String.eqb_neq in Heq. cbn [render_piece].
      pose proof (placeholder_other k k' (render ps) Hk Hp Heq) as Hother.
      rewrite (placeholder_cons k') in *. rewrite !append_cons in *.
      rewrite replaceAllFrom_cons, Hother. f_equal.
      rewrite <- append_cons.
      rewrite (replaceAllFrom_plain _ _ (String "{" (k' +:+ "}")) _ _ _
                 (placeholder_cons k)).
      * rewrite (IH _ Hps). reflexivity.
      * cbn [dollar_free]. rewrite dollar_free_append.
        rewrite (word_string_dollar_free k' Hp). reflexivity.
Qed.

Lemma fill_clean (k v : string) (ps : list piece) :
  dollar_free v = true ->
  forallb clean_piece ps = true ->
  forallb clean_piece (fill k v ps) = true.
Proof.
  intros Hv. induction ps as [|p ps IH]; [reflexivity|].
  cbn [forallb fill map]. fold (fill k v ps).
  intros H. apply andb_true_iff in H as [Hp Hps].
  rewrite (IH Hps), andb_true_r.
  destruct p as [s|k']; [exact Hp|].
  destruct (String.eqb k' k); [exact Hv | exact Hp].
Qed.

Lemma substitute_render_clean (replacements : list (string * string))
    (ps : list piece) :
  forallb clean_replacement replacements = true ->
  forallb clean_piece ps = true ->
  substitute replacements (render ps) = render (fillAll replacements ps) /\
  forallb clean_piece (fillAll replacements ps) = true.
Proof.
  unfold substitute, fillAll. revert ps.
  induction replacements as [|[k v] rs IH]; intros ps Hrs Hps; [split; [reflexivity | exact Hps]|].
  cbn [forallb] in Hrs. apply andb_true_iff in Hrs as [Hr Hrs].
  unfold clean_replacement in Hr. simpl in Hr. apply andb_true_iff in Hr as [Hk Hv].
  cbn [foldl]. unfold replacePlaceholder.
  change ("${" +:+ k +:+ "}") with (placeholder k).
  rewrite (replaceAllFrom_render k v ps _ Hk Hv Hps).
  apply IH; [exact Hrs | apply fill_clean; assumption].
Qed.

(** X3.  Substitution on a template made of text without dollar signs
    and of placeholders with word names, by a record with word keys and
    values without dollar signs: every placeholder of every supplied key
    is replaced by its value, and text and the other placeholders are
    kept. *)
Theorem X3_substitute_fills_placeholders (replacements : list (string * string))
    (ps : list piece) :
  forallb clean_replacement replacements = true ->
  forallb clean_piece ps = true ->
  substitute replacements (render ps) = render (fillAll replacements ps).
Proof.
  intros Hrs Hps. exact (proj1 (substitute_render_clean replacements ps Hrs Hps)).
Qed.

Lemma X3_substitute_fills_placeholders_witness :
  substitute [("property", "gap"); ("value", "")]
    "css.properties.${property}.${value}.${other}"
  = "css.properties.gap..${other}".
Proof.
  apply (X3_substitute_fills_placeholders [("property", "gap"); ("value", "")]
           [Text "css.properties."; Hole "property"; Text "."; Hole "value";
            Text "."; Hole "other"]).
  - reflexivity.
  - reflexivity.
Defined.

(* ================================================================== *)
(** * The candidate keys of the lookups *)
(* ================================================================== *)

Lemma prefix_before_char (c : ascii) (t a b y : string) :
  char_in c t = false ->
  a +:+ String c b = t +:+ y ->
  exists y', a = t +:+ y'.
Proof.
  revert a. induction t as [|d t IH]; intros a Hc H.
  - exists a. reflexivity.
  - cbn [char_in] in Hc. apply orb_false_iff in Hc as [Hd Hc].
    destruct a as [|e a].
    + change (EmptyString +:+ String c b) with (String c b) in H.
      rewrite append_cons in H. injection H as He _.
      subst d. rewrite Ascii.eqb_refl in Hd. discriminate.
    + rewrite !append_cons in H. injection H as -> H.
      destruct (IH a Hc H) as [y' ->]. exists y'. reflexivity.
Qed.

(** A text without the character [c] that occurs in [a + c + b] occurs
    in [a] or in [b]. *)
Lemma occurs_in_split (c : ascii) (t a b : string) :
  char_in c t = false ->
  occurs_in t (a +:+ String c b) ->
  occurs_in t a \/ occurs_in t b.
Proof.
  intros Hc [x [y H]]. revert x H.
  induction a as [|d a IH]; intros x H.
  - change (EmptyString +:+ String c b) with (String c b) in H.
    destruct x as [|e x].
    + change (EmptyString +:+ t +:+ y) with (t +:+ y) in H.
      destruct (prefix_before_char c t EmptyString b y Hc H) as [y' Hy'].
      left. exists EmptyString, y'. exact Hy'.
    + rewrite append_cons in H. injection H as _ H.
      right. exists x, y. exact H.
  - rewrite append_cons in H. destruct x as [|e x].
    + change (EmptyString +:+ t +:+ y) with (t +:+ y) in H.
      rewrite <- append_cons in H.
      destruct (prefix_before_char c t (String d a) b y Hc H) as [y' Hy'].
      left. exists EmptyString, y'. exact Hy'.
    + rewrite append_cons in H. injection H as -> H.
      destruct (IH x H) as [[x' [y' ->]] | Hb]; [|auto].
      left. exists (String e x'), y'. reflexivity.
Qed.

(** The text [undefined] does not arise across a dot. *)
Lemma no_undefined_across_dot (a b : string) :
  ~ occurs_in "undefined" a -> ~ occurs_in "undefined" b ->
  ~ occurs_in "undefined" (a +:+ String "." b).
Proof.
  intros Ha Hb H.
  apply (occurs_in_split "." "undefined" a b eq_refl) in H as [H|H]; auto.
Qed.

Lemma fill_no_hole (k v : string) (ps : list piece) (k' : string) :
  Hole k' ∈ fill k v ps <-> Hole k' ∈ ps /\ k' <> k.
Proof.
  unfold fill. rewrite list_elem_of_fmap. split.
  - intros [[s|k0] [Heq Hin]].
    + discriminate.
    + destruct (String.eqb k0 k) eqn:E; [discriminate|].
      injection Heq as ->. apply String.eqb_neq in E. auto.
  - intros [Hin Hne]. exists (Hole k'). split; [|exact Hin].
    apply String.eqb_neq in Hne. rewrite Hne. reflexivity.
Qed.

Lemma fillAll_hole (replacements : list (string * string)) (ps : list piece)
    (k' : string) :
  Hole k' ∈ fillAll replacements ps <-> Hole k' ∈ ps /\ k' ∉ map fst replacements.
Proof.
  unfold fillAll. revert ps.
  induction replacements as [|[k v] rs IH]; intros ps; cbn [foldl map fst].
  - rewrite elem_of_nil. tauto.
  - rewrite IH, fill_no_hole, elem_of_cons. tauto.
Qed.

Lemma hole_occurs (ps : list piece) (k : string) :
  Hole k ∈ ps -> occurs_in "${" (render ps).
Proof.
  induction ps as [|p ps IH]; intros H; [by apply elem_of_nil in H|].
  rewrite render_cons. apply elem_of_cons in H as [<-|H].
  - exists EmptyString, (k +:+ "}" +:+ render ps).
    cbn [render_piece]. rewrite placeholder_cons, !append_cons, append_assoc.
    reflexivity.
  - destruct (IH H) as [a [b ->]]. exists (render_piece p +:+ a), b.
    rewrite append_assoc. reflexivity.
Qed.

Lemma no_hole_dollar_free (ps : list piece) :
  forallb clean_piece ps = true ->
  (forall k, Hole k ∉ ps) ->
  dollar_free (render ps) = true.
Proof.
  induction ps as [|p ps IH]; intros Hc Hn; [reflexivity|].
  cbn [forallb] in Hc. apply andb_true_iff in Hc as [Hp Hc].
  rewrite render_cons, dollar_free_append.
  rewrite IH; [|exact Hc|intros k Hk; apply (Hn k); apply elem_of_cons; auto].
  rewrite andb_true_r. destruct p as [s|k]; [exact Hp|].
  exfalso. apply (Hn k). apply elem_of_cons. auto.
Qed.

Lemma elem_of_holes (ps : list piece) (k : string) : k ∈ holes ps <-> Hole k ∈ ps.
Proof.
  unfold holes. rewrite list_elem_of_omap. split.
  - intros [[s|k0] [Hin Heq]]; [discriminate|]. injection Heq as ->. exact Hin.
  - intros H. exists (Hole k). auto.
Qed.

Lemma supplied_true (replacements : list (string * string)) (k : string) :
  supplied replacements k = true <-> k ∈ map fst replacements.
Proof.
  unfold supplied. rewrite existsb_exists, list_elem_of_In. split.
  - intros [x [Hin Heq]]. apply String.eqb_eq in Heq. subst x. exact Hin.
  - intros H. exists k. split; [exact H | apply String.eqb_refl].
Qed.

Lemma forallb_false_exists {A} (f : A -> bool) (l : list A) :
  forallb f l = false -> exists x, x ∈ l /\ f x = false.
Proof.
  induction l as [|x l IH]; [discriminate|].
  cbn [forallb]. intros H. apply andb_false_iff in H as [H|H].
  - exists x. split; [apply elem_of_cons; auto | exact H].
  - destruct (IH H) as [y [Hy Hf]]. exists y. split; [apply elem_of_cons; auto | exact Hf].
Qed.

Lemma generatePatterns_render (replacements : list (string * string))
    (ps : list piece) :
  forallb clean_replacement replacements = true ->
  forallb clean_piece ps = true ->
  generatePatterns [render ps] replacements =
  if forallb (supplied replacements) (holes ps)
     && negb (Js.includes (render (fillAll replacements ps)) "undefined")
  then [render (fillAll replacements ps)]
  else [].
Proof.
  intros Hrs Hps.
  destruct (substitute_render_clean replacements ps Hrs Hps) as [Hsub Hclean].
  unfold generatePatterns. cbn [map]. rewrite Hsub.
  set (key := render (fillAll replacements ps)) in *.
  destruct (forallb (supplied replacements) (holes ps)) eqn:Hall.
  - assert (Hfree : Js.includes key "${" = false).
    { apply dollar_free_no_placeholder, no_hole_dollar_free; [exact Hclean|].
      intros k Hk. apply fillAll_hole in Hk as [Hin Hnot].
      apply Hnot, supplied_true.
      rewrite forallb_forall in Hall. apply Hall, list_elem_of_In, elem_of_holes, Hin. }
    cbn [andb]. destruct (Js.includes key "undefined") eqn:Hu; cbn [negb].
    + rewrite filter_cons_False; [reflexivity|]. rewrite Hfree, Hu. discriminate.
    + rewrite filter_cons_True; [reflexivity|]. rewrite Hfree, Hu. reflexivity.
  - cbn [andb]. rewrite filter_cons_False; [reflexivity|].
    assert (Hhole : Js.includes key "${" = true).
    { apply includes_true.
      destruct (forallb_false_exists _ _ Hall) as [k [Hk Hnot]].
      apply (hole_occurs _ k), fillAll_hole.
      split; [apply elem_of_holes, Hk|].
      intros Hin. apply supplied_true in Hin. congruence. }
    rewrite Hhole. discriminate.
Qed.

(** X4.  For a clean template and a clean substitution record,
    [generatePatterns] keeps the template exactly when a value is supplied
    for each of its placeholders and the resulting key does not contain
    [undefined]; the key kept is the template with its placeholders
    filled. *)
Theorem X4_generatePatterns_one_template (replacements : list (string * string))
    (ps : list piece) :
  forallb clean_replacement replacements = true ->
  forallb clean_piece ps = true ->
  generatePatterns [render ps] replacements =
  if forallb (supplied replacements) (holes ps)
     && negb (Js.includes (render (fillAll replacements ps)) "undefined")
  then [render (fillAll replacements ps)]
  else [].
Proof. apply generatePatterns_render. Qed.

Lemma X4_generatePatterns_one_template_witness :
  generatePatterns ["html.elements.${elementName}.${attribute}"]
    [("elementName", "dialog")]
  = [].
Proof.
  apply (X4_generatePatterns_one_template [("elementName", "dialog")]
           [Text "html.elements."; Hole "elementName"; Text "."; Hole "attribute"]).
  - reflexivity.
  - reflexivity.
Defined.

Lemma templates_pieces :
  CSS_PATTERN_TEMPLATES = map render CSS_PIECES /\
  JS_PATTERN_TEMPLATES = map render JS_PIECES /\
  HTML_PATTERN_TEMPLATES = map render HTML_PIECES.
Proof. repeat split. Qed.

Lemma generatePatterns_cons (t t' : string) (ts : list string)
    (replacements : list (string * string)) :
  generatePatterns (t :: t' :: ts) replacements
  = generatePatterns [t] replacements ++ generatePatterns (t' :: ts) replacements.
Proof.
  unfold generatePatterns. cbn [map].
  change (substitute replacements t :: substitute replacements t'
            :: map (substitute replacements) ts)
    with ([substitute replacements t]
            ++ substitute replacements t' :: map (substitute replacements) ts).
  apply filter_app.
Qed.

Lemma concrete_no_undefined (s : string) :
  Js.includes s "undefined" = false -> ~ occurs_in "undefined" s.
Proof. apply includes_false. Qed.

Lemma no_undefined_after (t a : string) :
  Js.includes t "undefined" = false ->
  ~ occurs_in "undefined" a ->
  ~ occurs_in "undefined" (t +:+ String "." a).
Proof.
  intros Ht Ha. apply no_undefined_across_dot; [|exact Ha].
  apply includes_false, Ht.
Qed.

Lemma includes_undefined_after (t a : string) :
  Js.includes t "undefined" = false ->
  ~ occurs_in "undefined" a ->
  Js.includes (t +:+ String "." a) "undefined" = false.
Proof. intros Ht Ha. apply includes_false, no_undefined_after; assumption. Qed.

(** X5.  The candidate keys of a CSS property [P] and value [V] that
    contain neither a dollar sign nor [undefined]: the nine keys below,
    in this order.  (An absent value is passed as the empty text, and the
    keys that take a value then end in a dot.) *)
Theorem X5_generatePatterns_css (P V : string) :
  dollar_free P = true -> dollar_free V = true ->
  ~ occurs_in "undefined" P -> ~ occurs_in "undefined" V ->
  generatePatterns CSS_PATTERN_TEMPLATES [("property", P); ("value", V)]
  = [ "css.properties." +:+ P;
      "css.properties." +:+ P +:+ "." +:+ V;
      "css.properties.display." +:+ V;
      "css.at-rules." +:+ P;
      "css.at-rules." +:+ P +:+ "." +:+ V;
      "css.selectors." +:+ P;
      "css.selectors." +:+ P +:+ "." +:+ V;
      "css.types." +:+ P;
      "css.types." +:+ P +:+ "." +:+ V ].
Proof.
  intros HP HV HuP HuV.
  assert (Hrs : forallb clean_replacement [("property", P); ("value", V)] = true).
  { cbn [forallb]. unfold clean_replacement. cbn [fst snd]. rewrite HP, HV. reflexivity. }
  rewrite (proj1 templates_pieces). unfold CSS_PIECES. cbn [map].
  rewrite !generatePatterns_cons.
  rewrite !(generatePatterns_render _ _ Hrs) by reflexivity.
  cbn -[Js.includes]. rewrite !append_nil_r.
  assert (HPV : ~ occurs_in "undefined" (P +:+ "." +:+ V))
    by (apply no_undefined_across_dot; assumption).
  rewrite (includes_undefined_after "css.properties" P eq_refl HuP
           : Js.includes ("css.properties." +:+ P) "undefined" = false).
  rewrite (includes_undefined_after "css.properties" _ eq_refl HPV
           : Js.includes ("css.properties." +:+ (P +:+ "." +:+ V)) "undefined" = false).
  rewrite (includes_undefined_after "css.properties.display" V eq_refl HuV
           : Js.includes ("css.properties.display." +:+ V) "undefined" = false).
  rewrite (includes_undefined_after "css.at-rules" P eq_refl HuP
           : Js.includes ("css.at-rules." +:+ P) "undefined" = false).
  rewrite (includes_undefined_after "css.at-rules" _ eq_refl HPV
           : Js.includes ("css.at-rules." +:+ (P +:+ "." +:+ V)) "undefined" = false).
  rewrite (includes_undefined_after "css.selectors" P eq_refl HuP
           : Js.includes ("css.selectors." +:+ P) "undefined" = false).
  rewrite (includes_undefined_after "css.selectors" _ eq_refl HPV
           : Js.includes ("css.selectors." +:+ (P +:+ "." +:+ V)) "undefined" = false).
  rewrite (includes_undefined_after "css.types" P eq_refl HuP
           : Js.includes ("css.types." +:+ P) "undefined" = false).
  rewrite (includes_undefined_after "css.types" _ eq_refl HPV
           : Js.includes ("css.types." +:+ (P +:+ "." +:+ V)) "undefined" = false).
  reflexivity.
Qed.


Lemma X5_generatePatterns_css_witness :
  generatePatterns CSS_PATTERN_TEMPLATES [("property", "display"); ("value", "grid")]
  = [ "css.properties.display"; "css.properties.display.grid";
      "css.properties.display.grid"; "css.at-rules.display";
      "css.at-rules.display.grid"; "css.selectors.display";
      "css.selectors.display.grid"; "css.types.display";
      "css.types.display.grid" ].
Proof.
  apply (X5_generatePatterns_css "display" "grid").
  - reflexivity.
  - reflexivity.
  - apply includes_false. reflexivity.
  - apply includes_false. reflexivity.
Defined.

(* ================================================================== *)
(** * Key lookup by candidate keys *)
(* ================================================================== *)

Lemma firstIndexed_Some (index : Index) (patterns : list string) (ff : FoundFeature) :
  firstIndexed index patterns = Some ff ->
  found_key ff ∈ patterns /\ index !! found_key ff = Some (found ff).
Proof.
  induction patterns as [|p patterns IH]; simpl; [discriminate|].
  destruct (index !! p) as [m|] eqn:Hp.
  - intros [= <-]. simpl. split; [apply elem_of_cons; auto | exact Hp].
  - intros H. destruct (IH H) as [Hin Hk]. split; [apply elem_of_cons; auto | exact Hk].
Qed.

Lemma firstIndexed_None (index : Index) (patterns : list string) :
  firstIndexed index patterns = None <-> Forall (fun k => index !! k = None) patterns.
Proof.
  induction patterns as [|p patterns IH]; simpl.
  - split; [constructor | reflexivity].
  - destruct (index !! p) as [m|] eqn:Hp.
    + split; [discriminate|]. intros H. apply Forall_cons in H as [H _]. congruence.
    + rewrite IH. split; [intros H; constructor; assumption|].
      intros H. apply Forall_cons in H as [_ H]. exact H.
Qed.

Lemma findCSSFeature_fresh (features : Dataset) (property : string)
    (value : option string) :
  findCSSFeature features property value None
  = (firstIndexed (buildIndex features)
       (generatePatterns CSS_PATTERN_TEMPLATES
          [("property", property); ("value", or_empty value)]),
     Some (buildIndex features)).
Proof. reflexivity. Qed.

Lemma findHTMLFeature_fresh (features : Dataset) (elementName : string)
    (attribute : option string) :
  findHTMLFeature features elementName attribute None
  = (firstIndexed (buildIndex features)
       (generatePatterns HTML_PATTERN_TEMPLATES
          [("elementName", elementName); ("attribute", or_empty attribute)]),
     Some (buildIndex features)).
Proof. reflexivity. Qed.

Lemma findJSFeatureExact_fresh (features : Dataset) (apiName : string) :
  findJSFeatureExact features apiName None
  = (firstIndexed (buildIndex features)
       (generatePatterns JS_PATTERN_TEMPLATES [("apiName", apiName)]),
     Some (buildIndex features)).
Proof. reflexivity. Qed.

Lemma fst_pair_eq {A B : Type} (a x : A) (b : B) : (a, b).1 = x -> a = x.
Proof. exact id. Qed.

(** X9.  What [findCSSFeature], [findHTMLFeature] and the exact-match
    phase of [findJSFeature] return on a fresh index cell is a record of
    the dataset, written under the key returned with it, and its status
    is ['high'] or ['low']. *)
Theorem X9_found_features_from_dataset (features : Dataset) :
  (forall property value ff,
     (findCSSFeature features property value None).1 = Some ff ->
     record_of (found_key ff) (found ff) features /\
     ir_status (found ff) <> NotBaseline) /\
  (forall elementName attribute ff,
     (findHTMLFeature features elementName attribute None).1 = Some ff ->
     record_of (found_key ff) (found ff) features /\
     ir_status (found ff) <> NotBaseline) /\
  (forall apiName ff,
     (findJSFeatureExact features apiName None).1 = Some ff ->
     record_of (found_key ff) (found ff) features /\
     ir_status (found ff) <> NotBaseline).
Proof.
  assert (Hgen : forall patterns ff,
            firstIndexed (buildIndex features) patterns = Some ff ->
            record_of (found_key ff) (found ff) features /\
            ir_status (found ff) <> NotBaseline).
  { intros patterns ff H. apply firstIndexed_Some in H as [_ H].
    apply buildIndex_bindings in H. exact H. }
  split; [|split].
  - intros property value ff H. rewrite findCSSFeature_fresh in H.
    apply fst_pair_eq in H. exact (Hgen _ ff H).
  - intros elementName attribute ff H. rewrite findHTMLFeature_fresh in H.
    apply fst_pair_eq in H. exact (Hgen _ ff H).
  - intros apiName ff H. rewrite findJSFeatureExact_fresh in H.
    apply fst_pair_eq in H. exact (Hgen _ ff H).
Qed.

Lemma occurs_in_prefix (a b s : string) : occurs_in (a +:+ b) s -> occurs_in a s.
Proof.
  intros [x [y ->]]. exists x, (b +:+ y). rewrite append_assoc. reflexivity.
Qed.

Lemma includes_longer (s a b : string) :
  Js.includes s a = false -> Js.includes s (a +:+ b) = false.
Proof.
  rewrite !includes_false. intros H Hab. apply H. exact (occurs_in_prefix a b s Hab).
Qed.

Lemma replacePlaceholder_absent (s key value : string) :
  dollar_free s = true -> replacePlaceholder s key value = s.
Proof.
  intros Hs. unfold replacePlaceholder. apply replaceAllFrom_absent.
  apply includes_longer. apply dollar_free_no_placeholder, Hs.
Qed.

Lemma generatePatterns_keep_one (t k : string) (replacements : list (string * string)) :
  substitute replacements t = k ->
  dollar_free k = true ->
  Js.includes k "undefined" = false ->
  generatePatterns [t] replacements = [k].
Proof.
  intros Hsub Hk Hu. unfold generatePatterns. cbn [map]. rewrite Hsub.
  rewrite filter_cons_True; [reflexivity|].
  rewrite (dollar_free_no_placeholder k Hk), Hu. reflexivity.
Qed.

Lemma substitute_one_hole (prefix key P : string) (later : list (string * string)) :
  word_string key = true ->
  dollar_free prefix = true -> dollar_free P = true ->
  substitute ((key, P) :: later) (prefix +:+ placeholder key) = prefix +:+ P.
Proof.
  intros Hkey Hpre HP. unfold substitute. cbn [foldl]. unfold replacePlaceholder at 2.
  change ("${" +:+ key +:+ "}") with (placeholder key).
  replace (prefix +:+ placeholder key) with (render [Text prefix; Hole key])
    by (cbn [render render_piece]; rewrite append_nil_r; reflexivity).
  rewrite replaceAllFrom_render;
    [| exact Hkey | exact HP | cbn [forallb clean_piece]; rewrite Hpre, Hkey; reflexivity].
  cbn [fill map render render_piece]. rewrite String.eqb_refl.
  cbn [render_piece]. rewrite append_nil_r.
  assert (Hclean : dollar_free (prefix +:+ P) = true)
    by (rewrite dollar_free_append, Hpre, HP; reflexivity).
  induction later as [|[k v] later IH]; [reflexivity|].
  cbn [foldl]. rewrite (replacePlaceholder_absent _ k v Hclean). exact IH.
Qed.

Lemma pair_fst_eq {A B : Type} (a x : A) (b : B) : a = x -> (a, b).1 = x.
Proof. exact id. Qed.

Lemma generatePatterns_css_head (P : string) (later : list (string * string)) :
  dollar_free P = true ->
  ~ occurs_in "undefined" P ->
  exists rest,
    generatePatterns CSS_PATTERN_TEMPLATES (("property", P) :: later)
    = ("css.properties." +:+ P) :: rest.
Proof.
  intros HP Hu. unfold CSS_PATTERN_TEMPLATES. rewrite generatePatterns_cons.
  rewrite (generatePatterns_keep_one _ ("css.properties." +:+ P)).
  - eexists. reflexivity.
  - exact (substitute_one_hole "css.properties." "property" P later eq_refl eq_refl HP).
  - rewrite dollar_free_append, HP. reflexivity.
  - exact (includes_undefined_after "css.properties" P eq_refl Hu).
Qed.

(** X8.  For a property name without dollar sign and without
    [undefined]: when the key [css.properties.<property>] is in the
    index, [findCSSFeature] returns its record under that key, whatever
    the value and whatever else is indexed. *)
Theorem X8_findCSSFeature_property_key_first (features : Dataset) (property : string)
    (value : option string) (cell : IndexCell) (r : IndexRecord) :
  dollar_free property = true ->
  ~ occurs_in "undefined" property ->
  (getCompatFeaturesIndex features cell).1 !! ("css.properties." +:+ property) = Some r ->
  (findCSSFeature features property value cell).1
  = Some (mkFound r ("css.properties." +:+ property)).
Proof.
  intros HP Hu. unfold findCSSFeature.
  destruct (getCompatFeaturesIndex features cell) as [index cell'].
  intros Hk. cbn [fst] in Hk. apply pair_fst_eq.
  destruct (generatePatterns_css_head property [("value", or_empty value)] HP Hu)
    as [rest ->].
  cbn [firstIndexed]. rewrite Hk. reflexivity.
Qed.


Lemma X8_findCSSFeature_property_key_first_witness :
  (findCSSFeature sampleDataset "appearance" (Some "none") None).1
  = Some (mkFound (mkIndexRecord High "appearance" "appearance")
            "css.properties.appearance").
Proof.
  apply (X8_findCSSFeature_property_key_first sampleDataset "appearance" (Some "none") None).
  - reflexivity.
  - apply includes_false. reflexivity.
  - reflexivity.
Defined.

(** X7.  The candidate keys of an HTML element [E] and attribute [A]
    that contain neither a dollar sign nor [undefined]: the three keys
    below, in this order. *)
Theorem X7_generatePatterns_html (E A : string) :
  dollar_free E = true -> dollar_free A = true ->
  ~ occurs_in "undefined" E -> ~ occurs_in "undefined" A ->
  generatePatterns HTML_PATTERN_TEMPLATES [("elementName", E); ("attribute", A)]
  = [ "html.elements." +:+ E;
      "html.elements." +:+ E +:+ "." +:+ A;
      "html.global_attributes." +:+ A ].
Proof.
  intros HE HA HuE HuA.
  assert (Hrs : forallb clean_replacement [("elementName", E); ("attribute", A)] = true).
  { cbn [forallb]. unfold clean_replacement. cbn [fst snd]. rewrite HE, HA. reflexivity. }
  rewrite (proj2 (proj2 templates_pieces)). unfold HTML_PIECES. cbn [map].
  rewrite !generatePatterns_cons.
  rewrite !(generatePatterns_render _ _ Hrs) by reflexivity.
  cbn -[Js.includes]. rewrite !append_nil_r.
  assert (HEA : ~ occurs_in "undefined" (E +:+ "." +:+ A))
    by (apply no_undefined_across_dot; assumption).
  rewrite (includes_undefined_after "html.elements" E eq_refl HuE
           : Js.includes ("html.elements." +:+ E) "undefined" = false).
  rewrite (includes_undefined_after "html.elements" _ eq_refl HEA
           : Js.includes ("html.elements." +:+ E +:+ "." +:+ A) "undefined" = false).
  rewrite (includes_undefined_after "html.global_attributes" A eq_refl HuA
           : Js.includes ("html.global_attributes." +:+ A) "undefined" = false).
  reflexivity.
Qed.

Lemma X7_generatePatterns_html_witness :
  generatePatterns HTML_PATTERN_TEMPLATES [("elementName", "dialog"); ("attribute", "")]
  = [ "html.elements.dialog"; "html.elements.dialog."; "html.global_attributes." ].
Proof.
  apply (X7_generatePatterns_html "dialog" "").
  - reflexivity.
  - reflexivity.
  - apply includes_false. reflexivity.
  - apply includes_false. reflexivity.
Defined.

(** X6.  The candidate keys of a JavaScript name [N] that contains
    neither a dollar sign nor [undefined]: the eleven keys below, in this
    order. *)
Theorem X6_generatePatterns_js (N : string) :
  dollar_free N = true ->
  ~ occurs_in "undefined" N ->
  generatePatterns JS_PATTERN_TEMPLATES [("apiName", N)]
  = [ "api." +:+ N;
      "api." +:+ N +:+ "." +:+ N;
      "javascript.builtins." +:+ N;
      "javascript.builtins." +:+ N +:+ "." +:+ N;
      "javascript.statements." +:+ N;
      "javascript.operators." +:+ N;
      "javascript.functions." +:+ N;
      "javascript.classes." +:+ N;
      "javascript.grammar." +:+ N;
      "javascript.builtins.globalThis." +:+ N;
      "webapi." +:+ N ].
Proof.
  intros HN Hu.
  assert (Hrs : forallb clean_replacement [("apiName", N)] = true).
  { cbn [forallb]. unfold clean_replacement. cbn [fst snd]. rewrite HN. reflexivity. }
  rewrite (proj1 (proj2 templates_pieces)). unfold JS_PIECES. cbn [map].
  rewrite !generatePatterns_cons.
  rewrite !(generatePatterns_render _ _ Hrs) by reflexivity.
  cbn -[Js.includes]. rewrite !append_nil_r.
  assert (HNN : ~ occurs_in "undefined" (N +:+ "." +:+ N))
    by (apply no_undefined_across_dot; assumption).
  rewrite (includes_undefined_after "api" N eq_refl Hu
           : Js.includes ("api." +:+ N) "undefined" = false).
  rewrite (includes_undefined_after "api" _ eq_refl HNN
           : Js.includes ("api." +:+ N +:+ "." +:+ N) "undefined" = false).
  rewrite (includes_undefined_after "javascript.builtins" N eq_refl Hu
           : Js.includes ("javascript.builtins." +:+ N) "undefined" = false).
  rewrite (includes_undefined_after "javascript.builtins" _ eq_refl HNN
           : Js.includes ("javascript.builtins." +:+ N +:+ "." +:+ N) "undefined" = false).
  rewrite (includes_undefined_after "javascript.statements" N eq_refl Hu
           : Js.includes ("javascript.statements." +:+ N) "undefined" = false).
  rewrite (includes_undefined_after "javascript.operators" N eq_refl Hu
           : Js.includes ("javascript.operators." +:+ N) "undefined" = false).
  rewrite (includes_undefined_after "javascript.functions" N eq_refl Hu
           : Js.includes ("javascript.functions." +:+ N) "undefined" = false).
  rewrite (includes_undefined_after "javascript.classes" N eq_refl Hu
           : Js.includes ("javascript.classes." +:+ N) "undefined" = false).
  rewrite (includes_undefined_after "javascript.grammar" N eq_refl Hu
           : Js.includes ("javascript.grammar." +:+ N) "undefined" = false).
  rewrite (includes_undefined_after "javascript.builtins.globalThis" N eq_refl Hu
           : Js.includes ("javascript.builtins.globalThis." +:+ N) "undefined" = false).
  rewrite (includes_undefined_after "webapi" N eq_refl Hu
           : Js.includes ("webapi." +:+ N) "undefined" = false).
  reflexivity.
Qed.

Lemma X6_generatePatterns_js_witness :
  generatePatterns JS_PATTERN_TEMPLATES [("apiName", "fetch")]
  = [ "api.fetch"; "api.fetch.fetch"; "javascript.builtins.fetch";
      "javascript.builtins.fetch.fetch"; "javascript.statements.fetch";
      "javascript.operators.fetch"; "javascript.functions.fetch";
      "javascript.classes.fetch"; "javascript.grammar.fetch";
      "javascript.builtins.globalThis.fetch"; "webapi.fetch" ].
Proof.
  apply (X6_generatePatterns_js "fetch").
  - reflexivity.
  - apply includes_false. reflexivity.
Defined.

(* ================================================================== *)
(** * Further properties of the parsers *)
(* ================================================================== *)

Section ParserFacts.

Variable dataset : Dataset.
Variable fs : string -> option FileEntry.
Variable parser : Language -> string -> string -> ParseResult + string.

Lemma convertToFeatureResult_converted (d : DetectedFeature) (cell : IndexCell) :
  converted d (convertToFeatureResult dataset d cell).1.
Proof.
  unfold convertToFeatureResult.
  destruct (checkBaselineStatus dataset (df_name d) cell) as [st cell'].
  repeat split.
Qed.

Lemma mapRun_convert (ds : list DetectedFeature) (cell : IndexCell) :
  exists results cell',
    mapRun (fun d => with_cell (convertToFeatureResult dataset d)) ds cell
    = (Normal results, cell', []) /\
    Forall2 converted ds results.
Proof.
  revert cell. induction ds as [|d ds IH]; intros cell.
  - exists [], cell. split; [reflexivity | constructor].
  - cbn [mapRun]. unfold bind at 1. unfold with_cell at 1.
    pose proof (convertToFeatureResult_converted d cell) as Hd.
    destruct (convertToFeatureResult dataset d cell) as [r cell1].
    destruct (IH cell1) as (rs & cell2 & Hrun & Hall).
    unfold bind. rewrite Hrun. exists (r :: rs), cell2.
    split; [reflexivity | constructor; assumption].
Qed.

(** X10.  A file that exists, is not larger than the maximum, can be
    read and is parsed without error: the parser returns one result for
    each detected feature, in order, with the name and the position of
    the feature, the severity that belongs to its status and
    [fixable: false]; it prints the parsing warnings, if there are any,
    and then the count of the detected features. *)
Theorem X10_parse_results_follow_detection (language : Language) (filePath : string)
    (stats : FileEntry) (content : string) (parseResult : ParseResult)
    (cell : IndexCell) :
  fs filePath = Some stats ->
  (size stats <= MAX_FILE_SIZE)%N ->
  read stats = inl content ->
  parser language content filePath = inl parseResult ->
  exists results cell',
    parseWith dataset fs parser language filePath cell
    = (Normal results, cell',
       (if bool_decide (pr_errors parseResult = []) then []
        else [ParsingWarnings filePath (pr_errors parseResult)])
       ++ [Parsed filePath (length (pr_features parseResult))]) /\
    Forall2 converted (pr_features parseResult) results.
Proof.
  intros Hfs Hsize Hread Hparse. unfold parseWith, try_catch.
  rewrite Hfs. apply N.ltb_ge in Hsize. rewrite Hsize, Hread, Hparse.
  destruct (mapRun_convert (pr_features parseResult) cell)
    as (results & cell' & Hrun & Hall).
  exists results, cell'. split; [|exact Hall].
  unfold bind. rewrite Hrun.
  rewrite <- (Forall2_length _ _ _ Hall).
  destruct (bool_decide (pr_errors parseResult = [])); reflexivity.
Qed.

(** X11.  What a parser throws: it leaves the index cell as it was, and
    the error is either the input error of the file (not found, or too
    large), rethrown as it is before anything is printed, or a
    [ParsingError] that carries the path and the language and wraps the
    message of a failed read, again before anything is printed, or of a
    failed parse, of a file that exists and is not too large.  No other
    error leaves a parser. *)
Theorem X11_parse_errors_classified (language : Language) (filePath : string)
    (cell cell' : IndexCell) (e : JsError) (out : list check_event) :
  parseWith dataset fs parser language filePath cell = (Thrown e, cell', out) ->
  cell' = cell /\
  (input_error fs filePath = Some e /\ out = [] \/
   exists stats msg,
     fs filePath = Some stats /\ (size stats <= MAX_FILE_SIZE)%N /\
     (read stats = inr msg /\ out = [] \/
      exists content,
        read stats = inl content /\ parser language content filePath = inr msg) /\
     e = ParsingError
           ("Failed to parse " +:+ language_name language +:+ " file: " +:+ msg)
           filePath language).
Proof.
  unfold parseWith, try_catch, input_error.
  destruct (fs filePath) as [stats|] eqn:Hfs.
  - destruct (MAX_FILE_SIZE <? size stats)%N eqn:Hsize.
    + intros [= <- <- <-]. auto.
    + apply N.ltb_ge in Hsize.
      destruct (read stats) as [content|msg] eqn:Hread.
      * destruct (parser language content filePath) as [parseResult|msg] eqn:Hparse.
        -- destruct (mapRun_convert (pr_features parseResult) cell)
             as (results & cell1 & Hrun & _).
           unfold bind. rewrite Hrun.
           destruct (bool_decide (pr_errors parseResult = [])); discriminate.
        -- intros [= <- <- <-]. split; [reflexivity|].
           right. exists stats, msg. eauto 10.
      * intros [= <- <- <-]. split; [reflexivity|].
        right. exists stats, msg. eauto 10.
  - intros [= <- <- <-]. auto.
Qed.

(** the text after the last dot *)
Lemma last_segment_no_dot (s : string) :
  Js.includes s "." = false -> last_segment s = s.
Proof.
  destruct s as [|c s]; [reflexivity|].
  cbn [Js.includes last_segment]. intros H.
  apply orb_false_iff in H as [Hc Hs]. rewrite Hs.
  cbn [Js.startsWith] in Hc. rewrite andb_true_r in Hc.
  rewrite Ascii.eqb_sym, Hc. reflexivity.
Qed.

Lemma includes_dot_append (base ext : string) :
  Js.includes (base +:+ String "." ext) "." = true.
Proof.
  apply includes_true. exists base, ext. reflexivity.
Qed.

Lemma last_segment_after_dot (base ext : string) :
  Js.includes ext "." = false -> last_segment (base +:+ String "." ext) = ext.
Proof.
  intros Hext. induction base as [|c base IH].
  - change (EmptyString +:+ String "." ext) with (String "." ext).
    cbn [last_segment]. rewrite Hext. reflexivity.
  - rewrite append_cons. cbn [last_segment].
    rewrite includes_dot_append. exact IH.
Qed.

(** X12.  The extension that [parseFile] dispatches on is the text after
    the last dot of the path, and the whole path when it has no dot. *)
Theorem X12_extension_is_text_after_last_dot :
  (forall base ext : string,
     Js.includes ext "." = false ->
     last_segment (base +:+ "." +:+ ext) = ext) /\
  (forall s : string, Js.includes s "." = false -> last_segment s = s).
Proof.
  split.
  - intros base ext H. exact (last_segment_after_dot base ext H).
  - exact last_segment_no_dot.
Qed.

(** X13.  For a path whose extension has no parser, [parseFile] returns
    the empty list, prints nothing and leaves the index cell as it was,
    whatever the file system holds: a missing or oversized file of such
    a name raises no input error. *)
Theorem X13_parseFile_without_parser (filePath : string) (cell : IndexCell) :
  has_parser filePath = false ->
  parseFile dataset fs parser filePath cell = (Normal [], cell, []).
Proof.
  unfold has_parser, parseFile.
  set (ext := Js.toLowerCase (last_segment filePath)).
  unfold is_one_of. cbn [existsb]. intros H.
  repeat (apply orb_false_iff in H as [-> H]). reflexivity.
Qed.

End ParserFacts.

Lemma X10_parse_results_follow_detection_witness :
  exists results cell',
    parseWith sampleDataset sampleFs sampleParser CSS "ok.css" None
    = (Normal results, cell', [Parsed "ok.css" 1]) /\
    Forall2 converted
      [mkDetected "has" CSS 1 1 "CSS Selector: a:has(b)" ConfHigh] results.
Proof.
  apply (X10_parse_results_follow_detection sampleDataset sampleFs sampleParser
           CSS "ok.css" (mkFile 25 (inl "a:has(b) { color: red; }"))
           "a:has(b) { color: red; }"
           (mkParseResult [mkDetected "has" CSS 1 1 "CSS Selector: a:has(b)" ConfHigh] [])
           None).
  - reflexivity.
  - vm_compute. discriminate.
  - reflexivity.
  - reflexivity.
Defined.

Lemma X11_parse_errors_classified_witness :
  @None Index = None /\
  (input_error sampleFs "missing.css"
   = Some (FileSystemError "File not found: missing.css" "missing.css")
   /\ @nil check_event = [] \/
   exists stats msg,
     sampleFs "missing.css" = Some stats /\ (size stats <= MAX_FILE_SIZE)%N /\
     (read stats = inr msg /\ @nil check_event = [] \/
      exists content,
        read stats = inl content /\ sampleParser CSS content "missing.css" = inr msg) /\
     FileSystemError "File not found: missing.css" "missing.css"
     = ParsingError
         ("Failed to parse " +:+ language_name CSS +:+ " file: " +:+ msg)
         "missing.css" CSS).
Proof.
  apply (X11_parse_errors_classified sampleDataset sampleFs sampleParser CSS
           "missing.css" None None
           (FileSystemError "File not found: missing.css" "missing.css") []).
  reflexivity.
Defined.

Lemma X13_parseFile_without_parser_witness :
  parseFile sampleDataset sampleFs sampleParser "missing.txt" None
  = (Normal [], None, []).
Proof.
  apply (X13_parseFile_without_parser sampleDataset sampleFs sampleParser
           "missing.txt" None).
  reflexivity.
Defined.

(** [toFixed(2)] of a size that exceeds 10 MiB by less than half a
    hundredth of a megabyte *)
Lemma megabytes_just_over (fileSize : N) :
  (MAX_FILE_SIZE <= fileSize <= MAX_FILE_SIZE + 5242)%N ->
  megabytes fileSize = "10.00".
Proof.
  unfold MAX_FILE_SIZE. intros H. unfold megabytes.
  assert (Hh : ((fileSize * 200 + 1048576) / 2097152 = 1000)%N).
  { symmetry.
    apply (N.div_unique _ _ _ (fileSize * 200 + 1048576 - 1000 * 2097152)%N); lia. }
  rewrite Hh. reflexivity.
Qed.

(** X24.  For a file that exceeds the maximum size by at most 5242
    bytes, the message of the [FileSizeError] gives the same rounded
    size for the file and for the maximum. *)
Theorem X24_size_message_just_over_limit (filePath : string) (fileSize : N) :
  (MAX_FILE_SIZE < fileSize <= MAX_FILE_SIZE + 5242)%N ->
  error_message (FileSizeError filePath fileSize MAX_FILE_SIZE)
  = "File size (10.00MB) exceeds maximum allowed size (10.00MB)".
Proof.
  intros H. cbn [error_message].
  rewrite (megabytes_just_over fileSize) by lia.
  rewrite (megabytes_just_over MAX_FILE_SIZE) by (unfold MAX_FILE_SIZE; lia).
  reflexivity.
Qed.

Lemma X24_size_message_just_over_limit_witness :
  error_message (FileSizeError "big.css" 10485761 MAX_FILE_SIZE)
  = "File size (10.00MB) exceeds maximum allowed size (10.00MB)".
Proof.
  apply (X24_size_message_just_over_limit "big.css" 10485761).
  unfold MAX_FILE_SIZE. lia.
Defined.

(* ================================================================== *)
(** * Rules, target and verdict of the check command *)
(* ================================================================== *)

(** X14.  Under the target ['low'], [applyTargetBaseline] leaves no
    warning on a feature of status ['low'], leaves the errors as they
    are, and the warnings that remain are those of the features whose
    status is not ['low']. *)
Theorem X14_target_low_spares_low_status (features : list FeatureResult) :
  Forall (fun f => fr_status f = Low -> severity f <> SevWarn)
    (applyTargetBaseline features TargetLow) /\
  filter (fun f => is_error f = true) (applyTargetBaseline features TargetLow)
  = filter (fun f => is_error f = true) features /\
  length (filter (fun f => is_warn f = true) (applyTargetBaseline features TargetLow))
  = length (filter (fun f => is_warn f && negb (is_low (fr_status f)) = true) features).
Proof.
  cbn [applyTargetBaseline].
  induction features as [|f features (IH1 & IH2 & IH3)]; [repeat split; constructor|].
  cbn [map]. unfold is_error, is_warn in *.
  destruct f as [n st sev l c m fx]; cbn [fr_status severity with_severity] in *.
  destruct st, sev; cbn [is_low andb negb with_severity fr_status severity feature
                        fr_line fr_column message fixable];
    (split; [constructor; [cbn; intros; discriminate || congruence | exact IH1]|]);
    (split;
     [ first [ rewrite !filter_cons_True by reflexivity; f_equal; exact IH2
             | rewrite !filter_cons_False by discriminate; exact IH2 ]
     | first [ rewrite !filter_cons_True by reflexivity; cbn [length]; f_equal; exact IH3
             | rewrite !filter_cons_False by discriminate; exact IH3
             | rewrite filter_cons_False by discriminate;
               rewrite filter_cons_False by discriminate; exact IH3 ] ]).
Qed.

Lemma applyConfigRules_severity (features : list FeatureResult)
    (config : BaselineConfig) :
  Forall
    (fun g =>
       match rules config !! feature g with
       | Some RuleError => severity g = SevError
       | Some RuleWarn => severity g = SevWarn
       | Some RuleOff => False
       | None => True
       end)
    (applyConfigRules features config).
Proof.
  apply Forall_forall. intros g Hg.
  apply elem_of_applyConfigRules in Hg as [f [_ Hf]].
  destruct (rules config !! feature f) as [[]|] eqn:Hrule.
  - subst g. cbn [with_severity feature severity]. rewrite Hrule. reflexivity.
  - subst g. cbn [with_severity feature severity]. rewrite Hrule. reflexivity.
  - contradiction.
  - subst g. rewrite Hrule. exact I.
Qed.

Lemma applyConfigRules_idempotent (features : list FeatureResult)
    (config : BaselineConfig) :
  applyConfigRules (applyConfigRules features config) config
  = applyConfigRules features config.
Proof.
  unfold applyConfigRules.
  induction features as [|f features IH]; [reflexivity|].
  cbn [map].
  destruct (rules config !! feature f) as [[]|] eqn:Hrule; cbn [filter_not_null map].
  - cbn [with_severity feature]. rewrite Hrule. cbn [filter_not_null].
    rewrite IH. reflexivity.
  - cbn [with_severity feature]. rewrite Hrule. cbn [filter_not_null].
    rewrite IH. reflexivity.
  - exact IH.
  - rewrite Hrule. cbn [filter_not_null]. rewrite IH. reflexivity.
Qed.

(** X15.  After [applyConfigRules], the severity of every feature that
    has a rule is the severity of its rule, no feature with the rule
    ['off'] is left, and applying the rules a second time changes
    nothing. *)
Theorem X15_rules_decide_severity (features : list FeatureResult)
    (config : BaselineConfig) :
  Forall
    (fun g =>
       match rules config !! feature g with
       | Some RuleError => severity g = SevError
       | Some RuleWarn => severity g = SevWarn
       | Some RuleOff => False
       | None => True
       end)
    (applyConfigRules features config) /\
  applyConfigRules (applyConfigRules features config) config
  = applyConfigRules features config.
Proof.
  split; [apply applyConfigRules_severity | apply applyConfigRules_idempotent].
Qed.

(** X16.  The rules followed by the target ['low'], as the file loop
    applies them: a feature with the rule ['error'] is an error; a
    feature with the rule ['warn'] is a warning unless its status is
    ['low'], in which case the target turns the warning of the rule into
    an info. *)
Theorem X16_rules_then_target_low (features : list FeatureResult) (config : BaselineConfig) :
  Forall
    (fun g =>
       match rules config !! feature g with
       | Some RuleError => severity g = SevError
       | Some RuleWarn =>
           severity g = if is_low (fr_status g) then SevInfo else SevWarn
       | Some RuleOff => False
       | None => True
       end)
    (applyTargetBaseline (applyConfigRules features config) TargetLow).
Proof.
  pose proof (applyConfigRules_severity features config) as H.
  cbn [applyTargetBaseline].
  induction H as [|g gs Hg _ IH]; [constructor|].
  cbn [map]. constructor; [|exact IH].
  destruct g as [n st sev l c m fx]. unfold is_warn.
  cbn [feature fr_status severity] in *.
  assert (Hname : forall sev',
            feature (if is_low st && match sev with SevWarn => true | _ => false end
                     then with_severity (mkResult n st sev l c m fx) sev'
                     else mkResult n st sev l c m fx) = n)
    by (intros sev'; destruct (is_low st && _); reflexivity).
  rewrite Hname.
  destruct (rules config !! n) as [[]|]; cbv beta iota in Hg |- *;
    try exact I; try contradiction; subst sev;
    destruct st; reflexivity.
Qed.

Section LoopFacts.

Variable dataset : Dataset.
Variable fs : string -> option FileEntry.
Variable parser : Language -> string -> string -> ParseResult + string.
Variable relative : string -> string.
Variable options : CheckOptions.
Variable config : BaselineConfig.

Lemma checkOne_normal (total i : nat) (file : string)
    (acc acc1 : LoopState) (cell cell1 : IndexCell) (out : list check_event) :
  checkOne dataset fs parser relative options config total i file acc cell
    = (Normal acc1, cell1, out) ->
  exists r, results acc1 = results acc ++ [r] /\
            br_file r = relative file /\
            counted (strict options) r /\
            totalErrors acc1 = totalErrors acc + br_errors r /\
            totalWarnings acc1 = totalWarnings acc + br_warnings r.
Proof.
  unfold checkOne, bind.
  destruct (if quiet options then ret tt else say _) as [[[[]|e0] c0] o0] eqn:Hq.
  2:{ destruct (quiet options); discriminate Hq. }
  destruct (parseFile dataset fs parser file c0) as [[[features|e] c1] o1];
    [|discriminate].
  set (fs' := applyTargetBaseline (applyConfigRules features config)
                (targets_baseline config)).
  destruct (if verbose options && negb (Nat.eqb (length fs') 0) then _ else _)
    as [[[[]|e2] c2] o2] eqn:Hv.
  2:{ destruct (verbose options && negb (Nat.eqb (length fs') 0)); discriminate Hv. }
  unfold ret. intros [= <- _ _].
  eexists. cbn [results totalErrors totalWarnings].
  split; [reflexivity|]. repeat split.
Qed.

Lemma checkLoop_normal (total : nat) (files : list string) (i : nat)
    (acc acc1 : LoopState) (cell cell1 : IndexCell) (out : list check_event) :
  checkLoop dataset fs parser relative options config total i files acc cell
    = (Normal acc1, cell1, out) ->
  exists rs, results acc1 = results acc ++ rs /\
             map br_file rs = map relative files /\
             Forall (counted (strict options)) rs /\
             totalErrors acc1 = totalErrors acc + sum_list_with br_errors rs /\
             totalWarnings acc1 = totalWarnings acc + sum_list_with br_warnings rs.
Proof.
  revert i acc cell out acc1 cell1.
  induction files as [|file files IH]; intros i acc cell out acc1 cell1.
  - cbn [checkLoop]. unfold ret. intros [= <- _ _]. exists [].
    rewrite app_nil_r. cbn. repeat split; [constructor | lia | lia].
  - cbn [checkLoop]. unfold bind.
    destruct (checkOne dataset fs parser relative options config total i file acc cell)
      as [[[acc0|e] c0] o0] eqn:Hone; [|discriminate].
    destruct (checkLoop dataset fs parser relative options config total (S i) files acc0 c0)
      as [[[acc2|e] c2] o2] eqn:Hloop; [|discriminate].
    intros [= <- _ _].
    destruct (checkOne_normal _ _ _ _ _ _ _ _ Hone) as (r & Hr & Hfile & Hcnt & He & Hw).
    destruct (IH _ _ _ _ _ _ Hloop) as (rs & Hrs & Hfiles & Hall & Hes & Hws).
    exists (r :: rs). rewrite Hrs, Hr, <- app_assoc. cbn [map sum_list_with].
    rewrite Hfile, Hfiles, Hes, Hws, He, Hw.
    repeat split; [constructor; assumption | lia | lia].
Qed.

Lemma sum_zero_iff {A} (f : A -> nat) (l : list A) :
  Nat.eqb (sum_list_with f l) 0 = forallb (fun x => Nat.eqb (f x) 0) l.
Proof.
  induction l as [|x l IH]; [reflexivity|].
  cbn [sum_list_with forallb]. rewrite <- IH.
  destruct (f x), (sum_list_with f l); reflexivity.
Qed.

Lemma verdict_agrees (rs : list BaselineResult) :
  Forall (counted (strict options)) rs ->
  negb (Nat.eqb (sum_list_with br_errors rs) 0)
  || strict options && negb (Nat.eqb (sum_list_with br_warnings rs) 0)
  = negb (forallb br_passed rs).
Proof.
  rewrite !sum_zero_iff.
  induction 1 as [|r rs (_ & _ & Hp) _ IH]; [destruct (strict options); reflexivity|].
  cbn [forallb]. rewrite Hp.
  destruct (strict options); cbn [andb] in *;
    destruct (Nat.eqb (br_errors r) 0), (Nat.eqb (br_warnings r) 0);
    cbn [andb orb negb] in *; try reflexivity; try exact IH.
  - destruct (forallb (fun x => Nat.eqb (br_errors x) 0) rs); reflexivity.
Qed.

(** X17.  When the loop over a non-empty list of files completes, it has
    one result for each file; the command then prints the summary, with
    the failed files being those that did not pass, and its verdict
    follows the per-file verdicts: it returns after [AllPassed] when
    every file passed, and exits with code 1 after [CheckFailed] as soon
    as one file did not. *)
Theorem X17_checkFiles_verdict (files : list string) (acc : LoopState)
    (cell cell' : IndexCell) (out : list check_event) :
  files <> [] ->
  checkLoop dataset fs parser relative options config (length files) 0 files
    (mkLoop [] 0 0) cell = (Normal acc, cell', out) ->
  let passed := length (filter (fun r => br_passed r = true) (results acc)) in
  let ok := forallb br_passed (results acc) in
  length (results acc) = length files /\
  checkFiles dataset fs parser relative options config files cell
  = (if ok then Returned else Exited 1, cell',
     [FoundFiles (length files)] ++ out
     ++ [Summary (length files) (totalErrors acc) (totalWarnings acc)
           passed (length files - passed)]
     ++ [if ok then AllPassed else CheckFailed]).
Proof.
  intros Hne Hloop passed ok.
  destruct (checkLoop_normal _ _ _ _ _ _ _ _ Hloop) as (rs & Hrs & Hfiles & Hall & He & Hw).
  cbn [results totalErrors totalWarnings app Nat.add] in Hrs, He, Hw.
  assert (Hlen : length (results acc) = length files).
  { rewrite Hrs, <- (length_map br_file), Hfiles, length_map. reflexivity. }
  split; [exact Hlen|].
  unfold checkFiles. destruct files as [|file files]; [contradiction|].
  rewrite Hloop. cbv zeta. rewrite Hlen.
  pose proof (verdict_agrees rs Hall) as Hv.
  rewrite <- He, <- Hw, <- Hrs in Hv. rewrite Hv. fold ok. fold passed.
  destruct ok; cbn [negb]; rewrite <- !app_assoc; reflexivity.
Qed.

End LoopFacts.

Lemma X17_checkFiles_verdict_witness :
  checkFiles sampleDataset sampleFs sampleParser id (mkOptions true false false)
    sampleConfig ["ok.css"] None
  = (Exited 1, Some (buildIndex sampleDataset),
     [ FoundFiles 1; Checking 1 1 "ok.css"; Parsed "ok.css" 1;
       Summary 1 0 1 0 1; CheckFailed ]).
Proof.
  refine (proj2 (X17_checkFiles_verdict sampleDataset sampleFs sampleParser id
                   (mkOptions true false false) sampleConfig ["ok.css"]
                   (mkLoop
                      [mkBaselineResult "ok.css"
                         [mkResult "has" Low SevWarn (Some 1) (Some 1)
                            "CSS Selector: a:has(b) - has is newly baseline"
                            (Some false)]
                         0 1 false]
                      0 1)
                   None (Some (buildIndex sampleDataset))
                   [Checking 1 1 "ok.css"; Parsed "ok.css" 1] _ _)).
  - discriminate.
  - reflexivity.
Defined.

(* ================================================================== *)
(** * The options of the check command *)
(* ================================================================== *)

(** Induction over an argument list two arguments at a time. *)
Lemma list_pair_ind {A} (P : list A -> Prop) :
  P [] -> (forall x, P [x]) ->
  (forall x y l, P l -> P (y :: l) -> P (x :: y :: l)) ->
  forall l, P l.
Proof.
  intros H0 H1 H2 l.
  assert (H : P l /\ forall x, P (x :: l)).
  { induction l as [|y l [IH1 IH2]]; [split; [exact H0 | exact H1]|].
    split; [apply IH2|]. intros x. apply H2; [exact IH1 | apply IH2]. }
  exact (proj1 H).
Qed.

Lemma valid_format_values (v : string) (f : Format) :
  valid_format v = Some f ->
  v = "json" \/ v = "html" \/ v = "text" \/ v = "console".
Proof.
  unfold valid_format.
  destruct (String.eqb v "json") eqn:H1; [apply String.eqb_eq in H1; auto|].
  destruct (String.eqb v "html") eqn:H2; [apply String.eqb_eq in H2; auto|].
  destruct (String.eqb v "text") eqn:H3; [apply String.eqb_eq in H3; auto|].
  destruct (String.eqb v "console") eqn:H4; [apply String.eqb_eq in H4; auto|].
  discriminate.
Qed.

Ltac rewrite_flags IH :=
  match goal with
  | |- context [parseCheckOptionsFrom _ ?o'] =>
      rewrite (proj1 (IH o')), (proj1 (proj2 (IH o'))), (proj2 (proj2 (IH o')))
  end.

(** The three switches, generalized over the options so far. *)
Lemma parseCheckOptionsFrom_flags (args : list string) :
  forall o,
    (opt_strict (parseCheckOptionsFrom args o) = true
       <-> opt_strict o = true \/ "--strict" ∈ args) /\
    (opt_quiet (parseCheckOptionsFrom args o) = true
       <-> opt_quiet o = true \/ "--quiet" ∈ args) /\
    (opt_verbose (parseCheckOptionsFrom args o) = true
       <-> opt_verbose o = true \/ "--verbose" ∈ args).
Proof.
  induction args as [| x | x y l IHl IHyl] using list_pair_ind; intros o.
  - cbn [parseCheckOptionsFrom]. rewrite !elem_of_nil. tauto.
  - cbn [parseCheckOptionsFrom]. rewrite !list_elem_of_singleton.
    destruct (String.eqb x "--strict") eqn:E1;
      [apply String.eqb_eq in E1; subst x; cbn; intuition congruence|].
    destruct (String.eqb x "--format") eqn:E2;
      [apply String.eqb_eq in E2; subst x; cbn; intuition congruence|].
    destruct (String.eqb x "--quiet") eqn:E3;
      [apply String.eqb_eq in E3; subst x; cbn; intuition congruence|].
    destruct (String.eqb x "--verbose") eqn:E4;
      [apply String.eqb_eq in E4; subst x; cbn; intuition congruence|].
    apply String.eqb_neq in E1, E3, E4.
    destruct (negb (Js.startsWith x "--") && path_unset o); cbn;
      intuition congruence.
  - change (parseCheckOptionsFrom (x :: y :: l) o) with
      (if String.eqb x "--strict" then
         parseCheckOptionsFrom (y :: l)
           (mkParsed (opt_path o) true (opt_format o) (opt_quiet o) (opt_verbose o))
       else if String.eqb x "--format" then
         match valid_format y with
         | Some f =>
             parseCheckOptionsFrom l
               (mkParsed (opt_path o) (opt_strict o) f (opt_quiet o) (opt_verbose o))
         | None => parseCheckOptionsFrom (y :: l) o
         end
       else if String.eqb x "--quiet" then
         parseCheckOptionsFrom (y :: l)
           (mkParsed (opt_path o) (opt_strict o) (opt_format o) true (opt_verbose o))
       else if String.eqb x "--verbose" then
         parseCheckOptionsFrom (y :: l)
           (mkParsed (opt_path o) (opt_strict o) (opt_format o) (opt_quiet o) true)
       else if negb (Js.startsWith x "--") && path_unset o then
         parseCheckOptionsFrom (y :: l)
           (mkParsed (Some x) (opt_strict o) (opt_format o) (opt_quiet o) (opt_verbose o))
       else parseCheckOptionsFrom (y :: l) o).
    rewrite !(elem_of_cons (y :: l) _ x).
    destruct (String.eqb x "--strict") eqn:E1.
    { apply String.eqb_eq in E1; subst x. rewrite_flags IHyl. cbn.
      intuition congruence. }
    destruct (String.eqb x "--format") eqn:E2.
    { apply String.eqb_eq in E2; subst x.
      destruct (valid_format y) as [f|] eqn:Hf.
      - rewrite_flags IHl. cbn. rewrite !(elem_of_cons l).
        apply valid_format_values in Hf.
        intuition (try congruence; subst; try discriminate; auto).
      - rewrite_flags IHyl. intuition congruence. }
    destruct (String.eqb x "--quiet") eqn:E3.
    { apply String.eqb_eq in E3; subst x. rewrite_flags IHyl. cbn.
      intuition congruence. }
    destruct (String.eqb x "--verbose") eqn:E4.
    { apply String.eqb_eq in E4; subst x. rewrite_flags IHyl. cbn.
      intuition congruence. }
    apply String.eqb_neq in E1, E3, E4.
    destruct (negb (Js.startsWith x "--") && path_unset o); rewrite_flags IHyl; cbn;
      intuition congruence.
Qed.

Lemma path_unset_false (o : ParsedOptions) :
  path_unset o = false -> forall cwd, exists p, opt_path o = Some p /\ targetPath o cwd = p.
Proof.
  unfold path_unset, targetPath. destruct (opt_path o) as [p|]; [|discriminate].
  destruct (Js.truthy p); [|discriminate]. intros _ cwd. exists p. auto.
Qed.

Lemma path_unset_true (o : ParsedOptions) (cwd : string) :
  path_unset o = true -> targetPath o cwd = cwd.
Proof.
  unfold path_unset, targetPath. destruct (opt_path o) as [p|]; [|reflexivity].
  destruct (Js.truthy p); [discriminate | reflexivity].
Qed.

Lemma switch_not_operand (arg : string) :
  Js.startsWith arg "--" = true -> is_operand arg = false.
Proof. unfold is_operand. intros ->. reflexivity. Qed.

Lemma parseCheckOptionsFrom_targetPath (cwd : string) (args : list string) :
  "--format" ∉ args ->
  forall o,
    targetPath (parseCheckOptionsFrom args o) cwd
    = if path_unset o
      then default cwd (head (filter (fun a => is_operand a = true) args))
      else targetPath o cwd.
Proof.
  induction args as [|arg rest IH]; intros Hnf o.
  - cbn [parseCheckOptionsFrom filter head default].
    destruct (path_unset o) eqn:Hu; [apply path_unset_true, Hu | reflexivity].
  - apply not_elem_of_cons in Hnf as [Hne Hnf]. specialize (IH Hnf).
    cbn [parseCheckOptionsFrom].
    destruct (String.eqb arg "--strict") eqn:E1.
    { apply String.eqb_eq in E1; subst arg. rewrite IH.
      rewrite filter_cons_False by (cbn; discriminate). reflexivity. }
    destruct (String.eqb arg "--format") eqn:E2.
    { apply String.eqb_eq in E2. congruence. }
    destruct (String.eqb arg "--quiet") eqn:E3.
    { apply String.eqb_eq in E3; subst arg. rewrite IH.
      rewrite filter_cons_False by (cbn; discriminate). reflexivity. }
    destruct (String.eqb arg "--verbose") eqn:E4.
    { apply String.eqb_eq in E4; subst arg. rewrite IH.
      rewrite filter_cons_False by (cbn; discriminate). reflexivity. }
    destruct (Js.startsWith arg "--") eqn:Hd; cbn [negb andb].
    { rewrite IH, filter_cons_False; [reflexivity|].
      rewrite (switch_not_operand arg Hd). discriminate. }
    destruct (path_unset o) eqn:Hu.
    + rewrite IH. unfold path_unset at 1, targetPath at 1. cbn [opt_path].
      assert (Hop : is_operand arg = Js.truthy arg)
        by (unfold is_operand; rewrite Hd; reflexivity).
      destruct (Js.truthy arg) eqn:Ht; cbn [negb].
      * rewrite filter_cons_True by exact Hop. reflexivity.
      * rewrite filter_cons_False by (rewrite Hop; discriminate). reflexivity.
    + rewrite IH, Hu. reflexivity.
Qed.

Lemma valid_format_not_switch (v : string) (f : Format) :
  valid_format v = Some f ->
  String.eqb v "--strict" = false /\ String.eqb v "--format" = false /\
  String.eqb v "--quiet" = false /\ String.eqb v "--verbose" = false /\
  Js.startsWith v "--" = false /\ Js.truthy v = true.
Proof.
  intros H. apply valid_format_values in H as [-> | [-> | [-> | ->]]]; repeat split.
Qed.

Lemma compiled_same_switches (args : list string) :
  forall o o',
    same_switches o o' ->
    same_switches (parseCheckOptionsCompiledFrom args o) (parseCheckOptionsFrom args o').
Proof.
  induction args as [| x | x y l IHl IHyl] using list_pair_ind; intros o o' Hs.
  - exact Hs.
  - destruct Hs as (H1 & H2 & H3 & H4).
    cbn [parseCheckOptionsCompiledFrom parseCheckOptionsFrom].
    repeat match goal with
           | |- context [if ?b then _ else _] => destruct b
           end; repeat split; cbn; assumption.
  - assert (Hstep : forall p p', same_switches p p' ->
              same_switches (parseCheckOptionsCompiledFrom (y :: l) p)
                (parseCheckOptionsFrom (y :: l) p')) by exact IHyl.
    destruct Hs as (H1 & H2 & H3 & H4).
    change (parseCheckOptionsFrom (x :: y :: l) o') with
      (if String.eqb x "--strict" then
         parseCheckOptionsFrom (y :: l)
           (mkParsed (opt_path o') true (opt_format o') (opt_quiet o') (opt_verbose o'))
       else if String.eqb x "--format" then
         match valid_format y with
         | Some f =>
             parseCheckOptionsFrom l
               (mkParsed (opt_path o') (opt_strict o') f (opt_quiet o') (opt_verbose o'))
         | None => parseCheckOptionsFrom (y :: l) o'
         end
       else if String.eqb x "--quiet" then
         parseCheckOptionsFrom (y :: l)
           (mkParsed (opt_path o') (opt_strict o') (opt_format o') true (opt_verbose o'))
       else if String.eqb x "--verbose" then
         parseCheckOptionsFrom (y :: l)
           (mkParsed (opt_path o') (opt_strict o') (opt_format o') (opt_quiet o') true)
       else if negb (Js.startsWith x "--") && path_unset o' then
         parseCheckOptionsFrom (y :: l)
           (mkParsed (Some x) (opt_strict o') (opt_format o') (opt_quiet o') (opt_verbose o'))
       else parseCheckOptionsFrom (y :: l) o').
    change (parseCheckOptionsCompiledFrom (x :: y :: l) o) with
      (if String.eqb x "--strict" then
         parseCheckOptionsCompiledFrom (y :: l)
           (mkParsed (opt_path o) true (opt_format o) (opt_quiet o) (opt_verbose o))
       else if String.eqb x "--format" then
         match valid_format y with
         | Some f =>
             parseCheckOptionsCompiledFrom (y :: l)
               (mkParsed (opt_path o) (opt_strict o) f (opt_quiet o) (opt_verbose o))
         | None => parseCheckOptionsCompiledFrom (y :: l) o
         end
       else if String.eqb x "--quiet" then
         parseCheckOptionsCompiledFrom (y :: l)
           (mkParsed (opt_path o) (opt_strict o) (opt_format o) true (opt_verbose o))
       else if String.eqb x "--verbose" then
         parseCheckOptionsCompiledFrom (y :: l)
           (mkParsed (opt_path o) (opt_strict o) (opt_format o) (opt_quiet o) true)
       else if negb (Js.startsWith x "--") && path_unset o then
         parseCheckOptionsCompiledFrom (y :: l)
           (mkParsed (Some x) (opt_strict o) (opt_format o) (opt_quiet o) (opt_verbose o))
       else parseCheckOptionsCompiledFrom (y :: l) o).
    destruct (String.eqb x "--strict");
      [apply Hstep; repeat split; cbn; assumption|].
    destruct (String.eqb x "--format").
    { destruct (valid_format y) as [f|] eqn:Hf;
        [|apply Hstep; repeat split; assumption].
      destruct (valid_format_not_switch y f Hf) as (E1 & E2 & E3 & E4 & Hd & Ht).
      cbn [parseCheckOptionsCompiledFrom]. rewrite E1, E2, E3, E4, Hd.
      destruct (negb false && path_unset _);
        apply IHl; repeat split; cbn; assumption. }
    destruct (String.eqb x "--quiet");
      [apply Hstep; repeat split; cbn; assumption|].
    destruct (String.eqb x "--verbose");
      [apply Hstep; repeat split; cbn; assumption|].
    destruct (negb (Js.startsWith x "--") && path_unset o),
             (negb (Js.startsWith x "--") && path_unset o');
      apply Hstep; repeat split; cbn; assumption.
Qed.

Lemma compiled_without_format (args : list string) :
  "--format" ∉ args ->
  forall o, parseCheckOptionsCompiledFrom args o = parseCheckOptionsFrom args o.
Proof.
  induction args as [|arg rest IH]; intros Hnf o; [reflexivity|].
  apply not_elem_of_cons in Hnf as [Hne Hnf]. specialize (IH Hnf).
  cbn [parseCheckOptionsCompiledFrom parseCheckOptionsFrom].
  destruct (String.eqb arg "--strict"); [apply IH|].
  destruct (String.eqb arg "--format") eqn:E2;
    [apply String.eqb_eq in E2; congruence|].
  destruct (String.eqb arg "--quiet"); [apply IH|].
  destruct (String.eqb arg "--verbose"); [apply IH|].
  destruct (negb (Js.startsWith arg "--") && path_unset o); apply IH.
Qed.

Lemma compiled_path_kept (args : list string) :
  forall o, path_unset o = false ->
            opt_path (parseCheckOptionsCompiledFrom args o) = opt_path o.
Proof.
  induction args as [|arg rest IH]; intros o Hu; [reflexivity|].
  cbn [parseCheckOptionsCompiledFrom].
  destruct (String.eqb arg "--strict"); [rewrite IH; [reflexivity | exact Hu]|].
  destruct (String.eqb arg "--format").
  { destruct rest as [|value rest']; [reflexivity|].
    destruct (valid_format value); rewrite IH; (reflexivity || exact Hu). }
  destruct (String.eqb arg "--quiet"); [rewrite IH; [reflexivity | exact Hu]|].
  destruct (String.eqb arg "--verbose"); [rewrite IH; [reflexivity | exact Hu]|].
  rewrite Hu, andb_false_r. apply IH, Hu.
Qed.

Lemma compiled_format_value_is_path (v : string) (f : Format) (rest : list string) :
  valid_format v = Some f ->
  opt_path (parseCheckOptionsCompiled ("--format" :: v :: rest)) = Some v.
Proof.
  intros Hf. destruct (valid_format_not_switch v f Hf) as (E1 & E2 & E3 & E4 & Hd & Ht).
  unfold parseCheckOptionsCompiled.
  cbn [parseCheckOptionsCompiledFrom String.eqb Ascii.eqb Bool.eqb].
  rewrite Hf. cbn [parseCheckOptionsCompiledFrom]. rewrite E1, E2, E3, E4, Hd.
  cbn [negb andb path_unset opt_path defaultParsed].
  rewrite compiled_path_kept; [reflexivity|].
  unfold path_unset. cbn [opt_path]. rewrite Ht. reflexivity.
Qed.

Lemma source_path_only (args : list string) :
  forall o o', opt_path o = opt_path o' ->
    opt_path (parseCheckOptionsFrom args o) = opt_path (parseCheckOptionsFrom args o').
Proof.
  induction args as [| x | x y l IHl IHyl] using list_pair_ind; intros o o' Hp.
  - exact Hp.
  - cbn [parseCheckOptionsFrom]. unfold path_unset. rewrite Hp.
    repeat match goal with
           | |- context [if ?b then _ else _] => destruct b
           end; cbn; congruence.
  - assert (Hu : path_unset o = path_unset o') by (unfold path_unset; rewrite Hp; reflexivity).
    change (parseCheckOptionsFrom (x :: y :: l) o') with
      (if String.eqb x "--strict" then
         parseCheckOptionsFrom (y :: l)
           (mkParsed (opt_path o') true (opt_format o') (opt_quiet o') (opt_verbose o'))
       else if String.eqb x "--format" then
         match valid_format y with
         | Some f =>
             parseCheckOptionsFrom l
               (mkParsed (opt_path o') (opt_strict o') f (opt_quiet o') (opt_verbose o'))
         | None => parseCheckOptionsFrom (y :: l) o'
         end
       else if String.eqb x "--quiet" then
         parseCheckOptionsFrom (y :: l)
           (mkParsed (opt_path o') (opt_strict o') (opt_format o') true (opt_verbose o'))
       else if String.eqb x "--verbose" then
         parseCheckOptionsFrom (y :: l)
           (mkParsed (opt_path o') (opt_strict o') (opt_format o') (opt_quiet o') true)
       else if negb (Js.startsWith x "--") && path_unset o' then
         parseCheckOptionsFrom (y :: l)
           (mkParsed (Some x) (opt_strict o') (opt_format o') (opt_quiet o') (opt_verbose o'))
       else parseCheckOptionsFrom (y :: l) o').
    change (parseCheckOptionsFrom (x :: y :: l) o) with
      (if String.eqb x "--strict" then
         parseCheckOptionsFrom (y :: l)
           (mkParsed (opt_path o) true (opt_format o) (opt_quiet o) (opt_verbose o))
       else if String.eqb x "--format" then
         match valid_format y with
         | Some f =>
             parseCheckOptionsFrom l
               (mkParsed (opt_path o) (opt_strict o) f (opt_quiet o) (opt_verbose o))
         | None => parseCheckOptionsFrom (y :: l) o
         end
       else if String.eqb x "--quiet" then
         parseCheckOptionsFrom (y :: l)
           (mkParsed (opt_path o) (opt_strict o) (opt_format o) true (opt_verbose o))
       else if String.eqb x "--verbose" then
         parseCheckOptionsFrom (y :: l)
           (mkParsed (opt_path o) (opt_strict o) (opt_format o) (opt_quiet o) true)
       else if negb (Js.startsWith x "--") && path_unset o then
         parseCheckOptionsFrom (y :: l)
           (mkParsed (Some x) (opt_strict o) (opt_format o) (opt_quiet o) (opt_verbose o))
       else parseCheckOptionsFrom (y :: l) o).
    rewrite Hu.
    destruct (String.eqb x "--strict"); [apply IHyl; exact Hp|].
    destruct (String.eqb x "--format").
    { destruct (valid_format y); [apply IHl | apply IHyl]; exact Hp. }
    destruct (String.eqb x "--quiet"); [apply IHyl; exact Hp|].
    destruct (String.eqb x "--verbose"); [apply IHyl; exact Hp|].
    destruct (negb (Js.startsWith x "--") && path_unset o'); apply IHyl;
      [reflexivity | exact Hp].
Qed.

Lemma source_skips_format_value (v : string) (f : Format) (rest : list string) :
  valid_format v = Some f ->
  opt_path (parseCheckOptions ("--format" :: v :: rest))
  = opt_path (parseCheckOptions rest).
Proof.
  intros Hf. unfold parseCheckOptions.
  cbn [parseCheckOptionsFrom String.eqb Ascii.eqb Bool.eqb]. rewrite Hf.
  apply source_path_only. reflexivity.
Qed.

(** X18.  Each of the three switches is set exactly when its flag is
    among the arguments, wherever it stands. *)
Theorem X18_switches_iff_listed (args : list string) :
  (opt_strict (parseCheckOptions args) = true <-> "--strict" ∈ args) /\
  (opt_quiet (parseCheckOptions args) = true <-> "--quiet" ∈ args) /\
  (opt_verbose (parseCheckOptions args) = true <-> "--verbose" ∈ args).
Proof.
  unfold parseCheckOptions.
  destruct (parseCheckOptionsFrom_flags args defaultParsed) as (Hs & Hq & Hv).
  cbn [defaultParsed opt_strict opt_quiet opt_verbose] in Hs, Hq, Hv.
  rewrite Hs, Hq, Hv. intuition discriminate.
Qed.

(** X19.  Without [--format] among the arguments, the path that the
    command scans is the first argument that is not empty and does not
    start with two dashes, and the working directory when there is
    none. *)
Theorem X19_target_path_is_first_operand (cwd : string) (args : list string) :
  "--format" ∉ args ->
  targetPath (parseCheckOptions args) cwd
  = default cwd (head (filter (fun a => is_operand a = true) args)).
Proof.
  intros H. unfold parseCheckOptions.
  exact (parseCheckOptionsFrom_targetPath cwd args H defaultParsed).
Qed.

Lemma X19_target_path_is_first_operand_witness :
  targetPath (parseCheckOptions ["--strict"; ""; "src"; "lib"]) "/work" = "src".
Proof.
  apply (X19_target_path_is_first_operand "/work" ["--strict"; ""; "src"; "lib"]).
  compute_done.
Defined.

(** X20.  The compiled copy of [parseCheckOptions] against the source:
    the two always agree on the switches and on the format; they return
    the same options when [--format] is not among the arguments; and
    where the source skips a valid format value, the compiled copy reads
    it again and takes it as the path. *)
Theorem X20_compiled_copy_takes_format_value_as_path :
  (forall args,
     same_switches (parseCheckOptionsCompiled args) (parseCheckOptions args)) /\
  (forall args,
     "--format" ∉ args -> parseCheckOptionsCompiled args = parseCheckOptions args) /\
  (forall v f rest,
     valid_format v = Some f ->
     opt_path (parseCheckOptionsCompiled ("--format" :: v :: rest)) = Some v /\
     opt_path (parseCheckOptions ("--format" :: v :: rest))
     = opt_path (parseCheckOptions rest)).
Proof.
  split; [|split].
  - intros args. apply compiled_same_switches. repeat split.
  - intros args H. apply compiled_without_format, H.
  - intros v f rest Hf. split.
    + exact (compiled_format_value_is_path v f rest Hf).
    + exact (source_skips_format_value v f rest Hf).
Qed.

(* ================================================================== *)
(** * The table builders of the mapper *)
(* ================================================================== *)

Lemma forEachCompat_None {S : Type} (step : string -> string -> S -> option S)
    (bad : string -> Prop) (id : string) (cfs : list string) :
  (forall cf s, step id cf s = None <-> bad cf) ->
  forall s, forEachCompat step id cfs s = None <-> exists cf, cf ∈ cfs /\ bad cf.
Proof.
  intros Hstep. induction cfs as [|cf cfs IH]; intros s; cbn [forEachCompat].
  - split; [discriminate | intros [cf [Hin _]]; by apply elem_of_nil in Hin].
  - destruct (step id cf s) as [s'|] eqn:Hs.
    + rewrite IH. split.
      * intros [cf' [Hin Hbad]]. exists cf'. split; [apply elem_of_cons; auto | exact Hbad].
      * intros [cf' [Hin Hbad]]. apply elem_of_cons in Hin as [->|Hin].
        -- apply Hstep with (s := s) in Hbad. congruence.
        -- exists cf'. auto.
    + split; [|reflexivity]. intros _. exists cf.
      split; [apply elem_of_cons; auto | apply (Hstep cf s), Hs].
Qed.

Lemma forEachFeature_None {S : Type} (step : string -> string -> S -> option S)
    (bad : string -> Prop) (features : Dataset) :
  (forall id cf s, step id cf s = None <-> bad cf) ->
  forall s,
    forEachFeature step features s = None <->
    exists cf, listed features cf /\ bad cf.
Proof.
  intros Hstep. induction features as [|[id f] features IH]; intros s;
    cbn [forEachFeature].
  - split; [discriminate|]. intros (cf & (id & f & cfs & Hin & _) & _).
    by apply elem_of_nil in Hin.
  - assert (Hlater : forall cf, listed features cf -> listed ((id, f) :: features) cf).
    { intros cf (id' & f' & cfs' & Hin & Hc & Hcf). exists id', f', cfs'.
      split; [apply elem_of_cons; auto | auto]. }
    destruct (compat_features f) as [cfs|] eqn:Hcfs.
    + destruct (forEachCompat step id cfs s) as [s'|] eqn:Hs.
      * rewrite IH. split.
        -- intros (cf & Hl & Hbad). exists cf. auto.
        -- intros (cf & (id' & f' & cfs' & Hin & Hc & Hcf) & Hbad).
           apply elem_of_cons in Hin as [[= -> ->]|Hin].
           ++ assert (Hnone : forEachCompat step id cfs s = None).
              { apply (forEachCompat_None step bad id cfs (Hstep id)).
                exists cf. split; [congruence | exact Hbad]. }
              congruence.
           ++ exists cf. split; [exists id', f', cfs'; auto | exact Hbad].
      * split; [|reflexivity]. intros _.
        apply (forEachCompat_None step bad id cfs (Hstep id)) in Hs as [cf [Hin Hbad]].
        exists cf. split; [|exact Hbad]. exists id, f, cfs.
        split; [apply elem_of_cons; auto | auto].
    + rewrite IH. split.
      * intros (cf & Hl & Hbad). exists cf. auto.
      * intros (cf & (id' & f' & cfs' & Hin & Hc & Hcf) & Hbad).
        apply elem_of_cons in Hin as [[= -> ->]|Hin]; [congruence|].
        exists cf. split; [exists id', f', cfs'; auto | exact Hbad].
Qed.

Lemma forEachFeature_total {S : Type} (step : string -> string -> S -> option S)
    (features : Dataset) :
  (forall id cf s, is_Some (step id cf s)) ->
  forall s, is_Some (forEachFeature step features s).
Proof.
  intros Hstep s.
  destruct (forEachFeature step features s) as [s'|] eqn:H; [eauto|].
  apply (forEachFeature_None step (fun _ => False) features) in H as (cf & _ & []).
  intros id cf s0. split; [|contradiction].
  intros Hn. destruct (Hstep id cf s0) as [x Hx]. congruence.
Qed.

Lemma remove_first_prefix (p b : string) : Js.remove_first (p +:+ b) p = b.
Proof.
  destruct (p +:+ b) as [|c s] eqn:Hs.
  - destruct p; [|rewrite append_cons in Hs; discriminate].
    change (b = EmptyString) in Hs. subst b. reflexivity.
  - cbn [Js.remove_first]. rewrite <- Hs, startsWith_append, drop_append. reflexivity.
Qed.

Lemma cut_empty (p : string) : p <> EmptyString -> Js.cut EmptyString p = None.
Proof. destruct p; [contradiction | reflexivity]. Qed.

Lemma jsStep_None (id cf : string) (m : FeatureMapping) :
  jsStep id cf m = None <-> cf = "api.".
Proof.
  split.
  - unfold jsStep. destruct (Js.startsWith cf "api.") eqn:Hs; [|discriminate].
    apply startsWith_true in Hs as [b ->]. rewrite remove_first_prefix.
    destruct (Js.cut b ".") as [[object member]|]; [discriminate|].
    destruct b as [|c b]; [reflexivity|].
    destruct (Ascii.eqb c (Js.upper_char c)); discriminate.
  - intros ->. reflexivity.
Qed.

Lemma buildCSSMappings_total (features : Dataset) (m : FeatureMapping) :
  is_Some (buildCSSMappings features m).
Proof. apply forEachFeature_total. intros id cf s. unfold cssStep. eauto. Qed.

Lemma buildHTMLMappings_total (features : Dataset) (m : FeatureMapping) :
  is_Some (buildHTMLMappings features m).
Proof. apply forEachFeature_total. intros id cf s. unfold htmlStep. eauto. Qed.

(** X21.  [initialize] fails exactly on a mapper that is not yet
    initialized and a dataset in which some entry lists the bare compat
    key [api.]: the name after the prefix is then empty, and the test of
    its first letter throws. *)
Theorem X21_initialize_fails_iff_bare_api_key (features : Dataset) (m : WebFeaturesMapper) :
  initialize features m = None <->
  initialized m = false /\ listed features "api.".
Proof.
  unfold initialize. destruct (initialized m); [split; [discriminate | intros [? _]; discriminate]|].
  destruct (buildCSSMappings_total features (mappings m)) as [t1 ->]. cbn [mbind option_bind].
  destruct (buildJSMappings features t1) as [t2|] eqn:Hjs; cbn [mbind option_bind].
  - destruct (buildHTMLMappings_total features t2) as [t3 ->]. cbn [mbind option_bind].
    split; [discriminate|]. intros [_ Hl].
    assert (Hn : buildJSMappings features t1 = None).
    { apply (forEachFeature_None jsStep (fun cf => cf = "api.") features jsStep_None).
      exists "api.". auto. }
    congruence.
  - split; [|reflexivity]. intros _. split; [reflexivity|].
    apply (forEachFeature_None jsStep (fun cf => cf = "api.") features jsStep_None) in Hjs
      as (cf & Hl & ->). exact Hl.
Qed.

Lemma forEachCompat_invariant {S : Type} (step : string -> string -> S -> option S)
    (P : S -> Prop) (id : string) (all : list string) :
  (forall cf s s', cf ∈ all -> P s -> step id cf s = Some s' -> P s') ->
  forall cfs, (forall cf, cf ∈ cfs -> cf ∈ all) ->
  forall s s', P s -> forEachCompat step id cfs s = Some s' -> P s'.
Proof.
  intros Hstep. induction cfs as [|cf cfs IH]; intros Hsub s s' Hs; cbn [forEachCompat].
  - intros [= <-]. exact Hs.
  - destruct (step id cf s) as [s1|] eqn:H1; [|discriminate].
    apply IH.
    + intros cf' Hin. apply Hsub, elem_of_cons. auto.
    + apply (Hstep cf s s1); [apply Hsub, elem_of_cons; auto | exact Hs | exact H1].
Qed.

Lemma forEachFeature_invariant {S : Type} (step : string -> string -> S -> option S)
    (P : S -> Prop) (all : Dataset) :
  (forall id f cfs cf s s',
     (id, f) ∈ all -> compat_features f = Some cfs -> cf ∈ cfs ->
     P s -> step id cf s = Some s' -> P s') ->
  forall features, (forall e, e ∈ features -> e ∈ all) ->
  forall s s', P s -> forEachFeature step features s = Some s' -> P s'.
Proof.
  intros Hstep. induction features as [|[id f] features IH]; intros Hsub s s' Hs;
    cbn [forEachFeature].
  - intros [= <-]. exact Hs.
  - assert (Hin : (id, f) ∈ all) by (apply Hsub, elem_of_cons; auto).
    assert (Hsub' : forall e, e ∈ features -> e ∈ all)
      by (intros e He; apply Hsub, elem_of_cons; auto).
    destruct (compat_features f) as [cfs|] eqn:Hcfs; [|apply IH; assumption].
    destruct (forEachCompat step id cfs s) as [s1|] eqn:H1; [|discriminate].
    apply IH; [exact Hsub'|].
    apply (forEachCompat_invariant step P id cfs) with (cfs := cfs) (s := s);
      [| auto | exact Hs | exact H1].
    intros cf s0 s0' Hcf. apply (Hstep id f cfs cf s0 s0' Hin Hcfs Hcf).
Qed.

Lemma when_properties (c : bool) (g : FeatureMapping -> FeatureMapping)
    (m : FeatureMapping) :
  (forall x, cssProperties (g x) = cssProperties x) ->
  cssProperties (when c g m) = cssProperties m.
Proof. intros Hg. unfold when. destruct c; [apply Hg | reflexivity]. Qed.

Lemma cssStep_properties (features : Dataset) (id cf : string) (f : Feature)
    (cfs : list string) (m m' : FeatureMapping) :
  (id, f) ∈ features -> compat_features f = Some cfs -> cf ∈ cfs ->
  map_Forall (css_property_of features) (cssProperties m) ->
  cssStep id cf m = Some m' ->
  map_Forall (css_property_of features) (cssProperties m').
Proof.
  intros Hin Hcfs Hcf Hm. unfold cssStep. intros H.
  apply (inj Some) in H. subst m'.
  rewrite !when_properties by reflexivity.
  unfold when. destruct (Js.startsWith cf "css.properties.") eqn:Hp; [|exact Hm].
  unfold set_cssProperties. cbn [cssProperties].
  apply map_Forall_insert_2; [|exact Hm].
  exists f, cfs, cf. auto.
Qed.

Lemma jsStep_properties (id cf : string) (m m' : FeatureMapping) :
  jsStep id cf m = Some m' -> cssProperties m' = cssProperties m.
Proof.
  unfold jsStep. destruct (Js.startsWith cf "api.");
    [|intros H; apply (inj Some) in H; subst m'; reflexivity].
  destruct (Js.cut _ ".") as [[object member]|].
  - intros H; apply (inj Some) in H; subst m'. reflexivity.
  - destruct (Js.remove_first cf "api.") as [|c s]; [discriminate|].
    destruct (Ascii.eqb c (Js.upper_char c)); intros H; apply (inj Some) in H;
      subst m'; reflexivity.
Qed.

Lemma htmlStep_properties (id cf : string) (m m' : FeatureMapping) :
  htmlStep id cf m = Some m' -> cssProperties m' = cssProperties m.
Proof.
  unfold htmlStep. intros H. apply (inj Some) in H. subst m'.
  destruct (Js.cut cf ".attributes.") as [[a attribute]|];
    rewrite !when_properties by reflexivity; reflexivity.
Qed.

Lemma initialize_properties (features : Dataset) (m : WebFeaturesMapper)
    (out : list console_event) :
  initialize features newMapper = Some (m, out) ->
  initialized m = true /\
  map_Forall (css_property_of features) (cssProperties (mappings m)).
Proof.
  unfold initialize. cbn [initialized newMapper mappings enhancedMappings].
  destruct (buildCSSMappings features emptyMapping) as [t1|] eqn:H1; [|discriminate].
  cbn [mbind option_bind].
  destruct (buildJSMappings features t1) as [t2|] eqn:H2; [|discriminate].
  cbn [mbind option_bind].
  destruct (buildHTMLMappings features t2) as [t3|] eqn:H3; [|discriminate].
  cbn [mbind option_bind]. intros [= <- _]. split; [reflexivity|].
  cbn [mappings].
  assert (P1 : map_Forall (css_property_of features) (cssProperties t1)).
  { apply (forEachFeature_invariant cssStep
             (fun t => map_Forall (css_property_of features) (cssProperties t))
             features) with (features := features) (s := emptyMapping);
      [| auto | apply map_Forall_empty | exact H1].
    intros id f cfs cf s s'. apply cssStep_properties. }
  assert (P2 : map_Forall (css_property_of features) (cssProperties t2)).
  { apply (forEachFeature_invariant jsStep
             (fun t => map_Forall (css_property_of features) (cssProperties t))
             features) with (features := features) (s := t1);
      [| auto | exact P1 | exact H2].
    intros id f cfs cf s s' _ _ _ Hs Hstep.
    rewrite (jsStep_properties id cf s s' Hstep). exact Hs. }
  apply (forEachFeature_invariant htmlStep
           (fun t => map_Forall (css_property_of features) (cssProperties t))
           features) with (features := features) (s := t2);
    [| auto | exact P2 | exact H3].
  intros id f cfs cf s s' _ _ _ Hs Hstep.
  rewrite (htmlStep_properties id cf s s' Hstep). exact Hs.
Qed.

Lemma get_truthy_Some (m : gmap string string) (k v : string) :
  Js.get_truthy m k = Some v -> m !! k = Some v.
Proof.
  unfold Js.get_truthy. destruct (m !! k) as [x|]; [|discriminate].
  destruct (Js.truthy x); [|discriminate]. intros [= ->]. reflexivity.
Qed.

(** X22.  On a mapper initialized from the dataset, every answer of
    [mapCSSProperty] is the id of a dataset entry that lists a key
    [css.properties.*] stored under the property asked for, or under
    that property without its vendor prefix. *)
Theorem X22_mapCSSProperty_answers_from_dataset (features : Dataset) (m : WebFeaturesMapper)
    (out out' : list console_event) (property id : string) :
  initialize features newMapper = Some (m, out) ->
  mapCSSProperty m property = (Some id, out') ->
  css_property_of features property id \/
  css_property_of features (strip_vendor_prefix property) id.
Proof.
  intros Hinit. destruct (initialize_properties features m out Hinit) as [Hi Hall].
  unfold mapCSSProperty. rewrite Hi. cbn [negb].
  destruct (Js.get_truthy (cssProperties (mappings m)) property) as [d|] eqn:Hd.
  - intros [= -> _]. left. exact (Hall property id (get_truthy_Some _ _ _ Hd)).
  - unfold silent. intros [= Hu _]. right.
    exact (Hall _ id (get_truthy_Some _ _ _ Hu)).
Qed.

Module RegExpFacts.
Import RegExp.

Lemma matches_prefix_unfold (r : t) (s : string) :
  matches_prefix r s
  = nullable r || match s with
                  | EmptyString => false
                  | String c s' => matches_prefix (deriv c r) s'
                  end.
Proof. destruct s; reflexivity. Qed.

Lemma matches_prefix_void_seq (r : t) (s : string) :
  matches_prefix (Seq Void r) s = false.
Proof. induction s as [|c s IH]; [reflexivity | exact IH]. Qed.

Lemma matches_prefix_alt (a b : t) (s : string) :
  matches_prefix (Alt a b) s = matches_prefix a s || matches_prefix b s.
Proof.
  revert a b. induction s as [|c s IH]; intros a b.
  - cbn [matches_prefix nullable]. rewrite !orb_false_r. reflexivity.
  - cbn [matches_prefix nullable deriv]. rewrite IH.
    destruct (nullable a), (nullable b), (matches_prefix (deriv c a) s); reflexivity.
Qed.

Lemma matches_prefix_eps_seq (r : t) (s : string) :
  matches_prefix (Seq Eps r) s = matches_prefix r s.
Proof.
  destruct s as [|c s]; [reflexivity|].
  cbn [matches_prefix nullable deriv andb].
  rewrite matches_prefix_alt, matches_prefix_void_seq. reflexivity.
Qed.

Lemma matches_prefix_lit (p s : string) :
  matches_prefix (lit p) s = Js.startsWith s p.
Proof.
  revert s. induction p as [|a p IH]; intros s.
  - destruct s; reflexivity.
  - destruct s as [|c s]; [reflexivity|].
    cbn [lit matches_prefix nullable deriv chr andb orb Js.startsWith].
    destruct (Ascii.eqb a c).
    + rewrite matches_prefix_eps_seq. apply IH.
    + apply matches_prefix_void_seq.
Qed.

Lemma test_lit (p s : string) : test (lit p) s = Js.includes s p.
Proof.
  induction s as [|c s IH].
  - cbn [test Js.includes]. rewrite matches_prefix_lit. reflexivity.
  - cbn [test Js.includes]. rewrite matches_prefix_lit, IH. reflexivity.
Qed.

End RegExpFacts.

Lemma initialize_enhanced (features : Dataset) (m : WebFeaturesMapper)
    (out : list console_event) :
  initialize features newMapper = Some (m, out) ->
  initialized m = true /\ enhancedMappings m = buildEnhancedMappings [].
Proof.
  unfold initialize. cbn [initialized newMapper mappings enhancedMappings].
  destruct (buildCSSMappings features emptyMapping) as [t1|]; [|discriminate].
  cbn [mbind option_bind].
  destruct (buildJSMappings features t1) as [t2|]; [|discriminate].
  cbn [mbind option_bind].
  destruct (buildHTMLMappings features t2) as [t3|]; [|discriminate].
  cbn [mbind option_bind]. intros H. apply (inj Some) in H.
  apply (f_equal fst) in H. cbn [fst] in H. subst m. split; reflexivity.
Qed.

Lemma enhancedFeatures_table (text : string) :
  enhancedFeatures (buildEnhancedMappings []) text
  = (if Js.includes text ":has(" then ["css-has"] else [])
    ++ (if Js.includes text "::backdrop" then ["dialog"] else [])
    ++ (if Js.includes text "@container" then ["css-container-queries"] else [])
    ++ (if RegExp.test (pat_new "IntersectionObserver") text
        then ["intersectionobserver"] else [])
    ++ (if RegExp.test (pat_new "ResizeObserver") text then ["resizeobserver"] else [])
    ++ (if RegExp.test pat_fetch text then ["fetch"] else [])
    ++ (if RegExp.test pat_dialog text then ["dialog"] else [])
    ++ (if RegExp.test pat_details text then ["details"] else []).
Proof.
  rewrite <- !(RegExpFacts.test_lit _ text).
  change (buildEnhancedMappings [])
    with [ (":has(", enhanced "css-has" pat_has);
           ("::backdrop", enhanced "dialog" pat_backdrop);
           ("@container", enhanced "css-container-queries" pat_container);
           ("IntersectionObserver",
            enhanced "intersectionobserver" (pat_new "IntersectionObserver"));
           ("ResizeObserver", enhanced "resizeobserver" (pat_new "ResizeObserver"));
           ("fetch(", enhanced "fetch" pat_fetch);
           ("<dialog", enhanced "dialog" pat_dialog);
           ("<details", enhanced "details" pat_details) ].
  unfold enhancedFeatures, enhanced. cbn [flat_map].
  unfold pattern_matches. cbn [pattern compatFeature].
  rewrite !app_nil_r. reflexivity.
Qed.

Lemma elem_of_optional (x y : string) (b : bool) :
  x ∈ (if b then [y] else []) <-> b = true /\ x = y.
Proof.
  destruct b; [rewrite list_elem_of_singleton | rewrite elem_of_nil];
    intuition discriminate.
Qed.

(** X23.  On a mapper initialized from any dataset, [mapCSSSelector]
    reports [css-has] exactly for the selectors that contain the text
    [:has(] and for those that the selector table maps to [css-has]. *)
Theorem X23_css_has_reported_iff (features : Dataset) (m : WebFeaturesMapper)
    (out : list console_event) (selector : string) :
  initialize features newMapper = Some (m, out) ->
  "css-has" ∈ (mapCSSSelector m selector).1 <->
  Js.includes selector ":has(" = true \/
  Js.get_truthy (cssSelectors (mappings m)) selector = Some "css-has".
Proof.
  intros Hinit. destruct (initialize_enhanced features m out Hinit) as [Hi He].
  unfold mapCSSSelector. rewrite Hi, He. cbn [negb]. unfold silent. cbn [fst].
  rewrite elem_of_set_spread, enhancedFeatures_table.
  assert (Htable :
    "css-has" ∈
      (if Js.includes selector ":has(" then ["css-has"] else [])
      ++ (if Js.includes selector "::backdrop" then ["dialog"] else [])
      ++ (if Js.includes selector "@container" then ["css-container-queries"] else [])
      ++ (if RegExp.test (pat_new "IntersectionObserver") selector
          then ["intersectionobserver"] else [])
      ++ (if RegExp.test (pat_new "ResizeObserver") selector
          then ["resizeobserver"] else [])
      ++ (if RegExp.test pat_fetch selector then ["fetch"] else [])
      ++ (if RegExp.test pat_dialog selector then ["dialog"] else [])
      ++ (if RegExp.test pat_details selector then ["details"] else [])
    <-> Js.includes selector ":has(" = true).
  { rewrite !elem_of_app, !elem_of_optional.
    intuition (try discriminate; auto). }
  destruct (Js.get_truthy (cssSelectors (mappings m)) selector) as [d|].
  - rewrite elem_of_app, Htable, list_elem_of_singleton.
    intuition congruence.
  - rewrite Htable. intuition discriminate.
Qed.

Lemma X22_mapCSSProperty_answers_from_dataset_witness :
  css_property_of sampleDataset "-webkit-backdrop-filter" "backdrop-filter" \/
  css_property_of sampleDataset (strip_vendor_prefix "-webkit-backdrop-filter")
    "backdrop-filter".
Proof.
  apply (X22_mapCSSProperty_answers_from_dataset sampleDataset sampleMapper
           [ConsoleLog "Initializing web-features mappings..."] []).
  - reflexivity.
  - reflexivity.
Defined.


Lemma X23_css_has_reported_iff_witness :
  "css-has" ∈ (mapCSSSelector sampleMapper "a:has(b)").1 <->
  Js.includes "a:has(b)" ":has(" = true \/
  Js.get_truthy (cssSelectors (mappings sampleMapper)) "a:has(b)" = Some "css-has".
Proof.
  apply (X23_css_has_reported_iff sampleDataset sampleMapper
           [ConsoleLog "Initializing web-features mappings..."] "a:has(b)").
  reflexivity.
Defined.
